(** * Perceiver IO: encoder, decoder, text masking and their composition

    A shallow embedding of [perceiver/model.py].  Python objects that carry
    learnable state ([nn.Parameter]) are records with an identity; the classes
    deriving from [nn.Module] form a tagged union [Module] whose [forward]
    methods are dispatched by [call]; exceptions and the two ambient pieces of
    state a forward pass can touch (the default random generator and the
    allocator of fresh objects) live in the monad [M].  The tensor library
    itself (torch, einops) is an interface, [Torch], together with the part of
    its documented contract the model relies on, [TorchSpec].  The IMDB data
    module of [data/imdb.py] follows, over a file system and a tokenizer. *)

From Stdlib Require Import String Ascii ZArith QArith Qround Qabs Qpower List Bool.
From Stdlib Require Import Lia Lqa.
From Stdlib Require Import DecimalString.
From Stdlib Require DecimalPos DecimalZ.
Import ListNotations.

Set Warnings "-register-all".

Local Open Scope Z_scope.

(* ================================================================== *)
(** ** Python exceptions and results *)

Inductive exn : Type :=
| ValueError (msg : string)
| TypeError (msg : string)
| AttributeError (msg : string)
| AssertionError (msg : string)
| IndexError (msg : string)
| RuntimeError (msg : string).

Inductive Result (A : Type) : Type :=
| Ok (a : A)
| Raise (e : exn).

Arguments Ok {A} a.
Arguments Raise {A} e.

(* ================================================================== *)
(** ** Rendering of shapes in messages *)

Definition str_of_int (z : Z) : string := NilZero.string_of_int (Z.to_int z).

Fixpoint join_comma (l : list Z) : string :=
  match l with
  | [] => EmptyString
  | [z] => str_of_int z
  | z :: tl => (str_of_int z ++ ", " ++ join_comma tl)%string
  end.

(** [repr] of a Python tuple of ints: [()], [(4,)], [(4, 9)]. *)
Definition tuple_repr (l : list Z) : string :=
  match l with
  | [z] => ("(" ++ str_of_int z ++ ",)")%string
  | _ => ("(" ++ join_comma l ++ ")")%string
  end.

(* ================================================================== *)
(** ** Two-dimensional integer and boolean tensors

    Token ids, padding masks and the selection masks of [TextMasking] are
    tensors of shape (B, L); they are kept in row-major order, as the
    boolean-mask assignments of the source traverse them. *)

Record Tensor2 (A : Type) : Type := mkTensor2 {
  nrows : nat;
  ncols : nat;
  elems : list A
}.

Arguments mkTensor2 {A} nrows ncols elems.
Arguments nrows {A} t.
Arguments ncols {A} t.
Arguments elems {A} t.

Definition numel2 {A} (t : Tensor2 A) : nat := (nrows t * ncols t)%nat.

Definition wf2 {A} (t : Tensor2 A) : Prop := length (elems t) = numel2 t.

Definition same_shape2 {A B} (a : Tensor2 A) (b : Tensor2 B) : bool :=
  Nat.eqb (nrows a) (nrows b) && Nat.eqb (ncols a) (ncols b).

(** Broadcasting of a (1, L), (B, 1) or (1, 1) tensor to shape (B, L), as an
    in-place binary operation does with its right operand; [None] when the
    shapes are not broadcastable. *)
Definition expand2 {A} (B L : nat) (t : Tensor2 A) : option (list A) :=
  if Nat.eqb (nrows t) B && Nat.eqb (ncols t) L then Some (elems t)
  else if Nat.eqb (nrows t) 1 && Nat.eqb (ncols t) L
       then Some (concat (repeat (elems t) B))
  else if Nat.eqb (nrows t) B && Nat.eqb (ncols t) 1
       then Some (flat_map (fun e => repeat e L) (elems t))
  else if Nat.eqb (nrows t) 1 && Nat.eqb (ncols t) 1
       then match elems t with
            | e :: _ => Some (repeat e (B * L))
            | [] => None
            end
  else None.

(** Pointwise combination of two flat tensors of the same length. *)
Fixpoint map2 {A B C} (f : A -> B -> C) (l1 : list A) (l2 : list B) : list C :=
  match l1, l2 with
  | a :: t1, b :: t2 => f a b :: map2 f t1 t2
  | _, _ => []
  end.

(** Python floats are rationals here; [a < b] on them. *)
Definition Qltb (a b : Q) : bool := negb (Qle_bool b a).

(* ================================================================== *)
(** ** Floating-point numbers

    A Python float is a binary64 number and an element of a tensor of dtype
    [torch.float] a binary32 number; the finite ones are rationals.  Where
    the source compares a float32 tensor with a Python float, torch converts
    the float to binary32 first, rounding to nearest, ties to even. *)

(** The exponent [e] of a positive rational: [2 ^ e <= q < 2 ^ (e + 1)]. *)
Definition exponent (q : Q) : Z :=
  let e := Z.log2 (Qnum q) - Z.log2 (Zpos (Qden q)) in
  if Qle_bool (2 ^ e) q then e else e - 1.

(** Rounding to the nearest integer, ties to the even one. *)
Definition round_half_even (q : Q) : Z :=
  let n := Qfloor q in
  match (q - inject_Z n ?= 1 # 2)%Q with
  | Lt => n
  | Gt => n + 1
  | Eq => if Z.even n then n else n + 1
  end.

(** Rounding to the binary format of precision [prec] whose subnormal
    numbers are the multiples of [2 ^ emin].  (Overflow is left out: a value
    that large compares with a draw from [0, 1) as infinity does.) *)
Definition round_binary (prec emin : Z) (q : Q) : Q :=
  if Qeq_bool q 0 then 0%Q
  else
    let ulp := (2 ^ Z.max (exponent (Qabs q) - (prec - 1)) emin)%Q in
    Qred (inject_Z (round_half_even (q / ulp)) * ulp).

(** A Python float literal or quotient, as the binary64 number it is. *)
Definition float64 : Q -> Q := round_binary 53 (-1074).

(** A Python float converted to [torch.float]. *)
Definition float32 : Q -> Q := round_binary 24 (-149).

(* ================================================================== *)
(** ** The tensor library

    [Tensor] stands for [torch.Tensor] of any dtype and rank, [Generator] for
    the state of torch's default random generator.  The operations are the
    ones [model.py] calls, with the argument order of [torch.nn.functional]. *)

Class Torch : Type := {
  Tensor : Type;
  Generator : Type;
  (** [t.shape] *)
  shape : Tensor -> list Z;
  (** [torch.empty] at the given size, followed by the in-place initialisation of the
      parameter *)
  tensor_init : list Z -> Generator -> Result Tensor * Generator;
  (** [F.layer_norm(input, (normalized_shape,), weight, bias)] *)
  layer_norm : Tensor -> Z -> Tensor -> Tensor -> Result Tensor;
  (** [F.linear(input, weight, bias)] *)
  linear : Tensor -> Tensor -> Tensor -> Result Tensor;
  (** [F.gelu(input)] *)
  gelu : Tensor -> Tensor;
  (** [F.dropout(input, p, training)] *)
  dropout : Tensor -> Q -> bool -> Generator -> Tensor * Generator;
  (** [F.multi_head_attention_forward] as [nn.MultiheadAttention] with
      [batch_first=True] calls it: embedding width, number of heads, the
      projection parameters, dropout rate, training flag, query, key, value,
      key padding mask, attention mask; the result is the pair
      (attention output, attention weights). *)
  multi_head_attention_forward :
    Z -> Z -> list Tensor -> Q -> bool ->
    Tensor -> Tensor -> Tensor -> option Tensor -> option Tensor ->
    Generator -> Result (Tensor * option Tensor) * Generator;
  (** [a + b] *)
  tensor_add : Tensor -> Tensor -> Result Tensor;
  (** [einops.repeat(t, '... -> b ...', b=b)] *)
  einops_repeat : Tensor -> Z -> Tensor;
  (** [t[:, :l, :]] *)
  narrow_seq : Tensor -> Z -> Result Tensor;
  (** An integer, resp. boolean, tensor of shape (B, L) seen as a [Tensor]. *)
  of_long : Tensor2 Z -> Tensor;
  of_bool : Tensor2 bool -> Tensor;
  (** [torch.rand(n)]: [n] draws from [0, 1) *)
  rand : nat -> Generator -> list Q * Generator;
  (** [torch.randint(low, high, size=(n,))] *)
  randint : Z -> Z -> nat -> Generator -> Result (list Z) * Generator
}.

(** Shapes of the parameters [nn.MultiheadAttention(embed_dim, num_heads,
    kdim, vdim)] registers, in registration order: a packed input projection
    when key and value have the embedding width, three separate projections
    otherwise; then the input-projection bias and the output projection. *)
Definition mha_param_shapes (embed_dim kdim vdim : Z) : list (list Z) :=
  (if (kdim =? embed_dim) && (vdim =? embed_dim)
   then [[3 * embed_dim; embed_dim]]
   else [[embed_dim; embed_dim]; [embed_dim; kdim]; [embed_dim; vdim]])
  ++ [[3 * embed_dim]; [embed_dim; embed_dim]; [embed_dim]].

(** The part of torch's documented behaviour the model relies on. *)
Class TorchSpec (T : Torch) : Prop := {
  tensor_init_shape : forall s g t g',
    tensor_init s g = (Ok t, g') -> shape t = s;
  layer_norm_shape : forall x c w b,
    shape w = [c] -> shape b = [c] -> last (shape x) (-1) = c ->
    exists y, layer_norm x c w b = Ok y /\ shape y = shape x;
  linear_shape : forall x w b pre i o,
    shape w = [o; i] -> shape b = [o] -> shape x = pre ++ [i] ->
    exists y, linear x w b = Ok y /\ shape y = pre ++ [o];
  gelu_shape : forall x, shape (gelu x) = shape x;
  dropout_shape : forall x p tr g, shape (fst (dropout x p tr g)) = shape x;
  dropout_off : forall x p tr g,
    (p == 0)%Q \/ tr = false -> fst (dropout x p tr g) = x;
  mha_shape : forall e h ps p tr q k v kpm g b tq tk kd vd,
    0 < h -> e mod h = 0 ->
    map shape ps = mha_param_shapes e kd vd ->
    shape q = [b; tq; e] -> shape k = [b; tk; kd] -> shape v = [b; tk; vd] ->
    (forall m, kpm = Some m -> shape m = [b; tk]) ->
    exists y ws g',
      multi_head_attention_forward e h ps p tr q k v kpm None g
        = (Ok (y, ws), g')
      /\ shape y = [b; tq; e];
  mha_off : forall e h ps p tr q k v kpm am g1 g2,
    (p == 0)%Q \/ tr = false ->
    fst (multi_head_attention_forward e h ps p tr q k v kpm am g1)
    = fst (multi_head_attention_forward e h ps p tr q k v kpm am g2);
  tensor_add_shape : forall a b,
    shape a = shape b ->
    exists c, tensor_add a b = Ok c /\ shape c = shape a;
  einops_repeat_shape : forall t b, shape (einops_repeat t b) = b :: shape t;
  narrow_seq_shape : forall t l b k c,
    shape t = [b; k; c] -> 0 <= l ->
    exists y, narrow_seq t l = Ok y /\ shape y = [b; Z.min k l; c];
  of_long_shape : forall t,
    shape (of_long t) = [Z.of_nat (nrows t); Z.of_nat (ncols t)];
  of_bool_shape : forall t,
    shape (of_bool t) = [Z.of_nat (nrows t); Z.of_nat (ncols t)];
  rand_length : forall n g, length (fst (rand n g)) = n;
  rand_range : forall n g u, In u (fst (rand n g)) -> (0 <= u /\ u < 1)%Q;
  randint_ok : forall lo hi n g,
    lo < hi ->
    exists l g', randint lo hi n g = (Ok l, g')
                 /\ length l = n /\ Forall (fun z => lo <= z < hi) l;
  randint_empty_range : forall lo hi n g,
    hi <= lo -> exists msg g', randint lo hi n g = (Raise (RuntimeError msg), g')
}.

Section Model.

Context {T : Torch}.

(* ================================================================== *)
(** ** The monad of a Python call

    A call reads and advances the default generator and may create objects;
    it ends with a value or with an exception. *)

Record World : Type := mkWorld {
  gen : Generator;
  next_id : nat
}.

Definition M (A : Type) : Type := World -> Result A * World.

Definition ret {A} (a : A) : M A := fun w => (Ok a, w).

Definition raise {A} (e : exn) : M A := fun w => (Raise e, w).

Definition bind {A B} (m : M A) (f : A -> M B) : M B :=
  fun w => match m w with
           | (Ok a, w') => f a w'
           | (Raise e, w') => (Raise e, w')
           end.

Definition lift {A} (r : Result A) : M A := fun w => (r, w).

(** An operation of the library that draws from the default generator. *)
Definition sample {A} (f : Generator -> A * Generator) : M A :=
  fun w => let (a, g) := f (gen w) in (Ok a, mkWorld g (next_id w)).

Definition sample_result {A} (f : Generator -> Result A * Generator) : M A :=
  fun w => let (r, g) := f (gen w) in (r, mkWorld g (next_id w)).

End Model.

Declare Scope py_scope.
Delimit Scope py_scope with py.
Notation "x <- m ;; k" := (bind m (fun x => k))
  (at level 61, m at next level, right associativity) : py_scope.
Notation "' pat <- m ;; k" := (bind m (fun x => match x with pat => k end))
  (at level 61, pat pattern, m at next level, right associativity) : py_scope.
Open Scope py_scope.

Section Modules.

Context {T : Torch}.

(* ================================================================== *)
(** ** Parameters, adapters and modules *)

(** An [nn.Parameter]: a tensor with the identity of the Python object that
    holds it.  Two parameters are the same object exactly when their [pid]s
    agree. *)
Record Param : Type := mkParam {
  pid : nat;
  pdata : Tensor
}.

(** [nn.Parameter(torch.empty(...))], initialised in place: a new object. *)
Definition new_parameter (size : list Z) : M Param :=
  fun w => match tensor_init size (gen w) with
           | (Ok t, g) => (Ok (mkParam (next_id w) t), mkWorld g (S (next_id w)))
           | (Raise e, g) => (Raise e, mkWorld g (next_id w))
           end.

(** The interface [perceiver.adapter.InputAdapter] offers to the encoder: the
    declared channel width and the transformation of a raw batch. *)
Record InputAdapter : Type := mkInputAdapter {
  num_input_channels : Z;
  input_adapter_forward : Tensor -> M Tensor
}.

(** The interface [perceiver.adapter.OutputAdapter] offers to the decoder. *)
Record OutputAdapter : Type := mkOutputAdapter {
  output_shape : list Z;
  output_adapter_forward : Tensor -> M Tensor
}.

(** [torch.nn.MultiheadAttention] with [batch_first=True]. *)
Record MultiheadAttention : Type := mkMultiheadAttention {
  embed_dim : Z;
  num_heads : Z;
  kdim : Z;
  vdim : Z;
  attn_dropout : Q;
  attn_params : list Param
}.

(** The module classes of [model.py] and the torch layers they instantiate.
    Each constructor carries the attributes [__init__] stores. *)
Inductive Module : Type :=
| LayerNorm (normalized_shape : Z) (weight bias : Param)
| Linear (in_features out_features : Z) (weight bias : Param)
| GELU
| Dropout (p : Q)
| Sequential (modules : list Module)
| Residual (module dropout : Module) (dropout_p : Q)
| MultiHeadAttention (attention : MultiheadAttention)
| CrossAttention (q_norm kv_norm attention : Module)
| SelfAttention (norm attention : Module)
| PerceiverEncoder (input_adapter : InputAdapter) (num_layers : Z)
    (layer_1 : Module) (layer_n : option Module) (latent : Param)
| PerceiverDecoder (output_adapter : OutputAdapter) (latent_shape : Z * Z)
    (cross_attention : Module) (output : Param).

(** A positional argument: a tensor or Python's [None]. *)
Definition Arg : Type := option Tensor.

(* ================================================================== *)
(** ** Construction *)

Definition new_LayerNorm (num_channels : Z) : M Module :=
  weight <- new_parameter [num_channels] ;;
  bias <- new_parameter [num_channels] ;;
  ret (LayerNorm num_channels weight bias).

Definition new_Linear (in_features out_features : Z) : M Module :=
  weight <- new_parameter [out_features; in_features] ;;
  bias <- new_parameter [out_features] ;;
  ret (Linear in_features out_features weight bias).

Definition new_Dropout (p : Q) : M Module :=
  if Qltb p 0 || Qltb 1 p
  then raise (ValueError "dropout probability has to be between 0 and 1")
  else ret (Dropout p).

Fixpoint new_parameters (sizes : list (list Z)) : M (list Param) :=
  match sizes with
  | [] => ret []
  | s :: rest =>
      p <- new_parameter s ;;
      ps <- new_parameters rest ;;
      ret (p :: ps)
  end.

Definition new_MultiheadAttention (embed_dim num_heads kdim vdim : Z) (dropout : Q)
  : M MultiheadAttention :=
  if num_heads <=? 0
  then raise (ValueError "embed_dim and num_heads must be greater than 0")
  else if negb (embed_dim mod num_heads =? 0)
  then raise (AssertionError "embed_dim must be divisible by num_heads")
  else
    ps <- new_parameters (mha_param_shapes embed_dim kdim vdim) ;;
    ret (mkMultiheadAttention embed_dim num_heads kdim vdim dropout ps).

(** [mlp] *)
Definition mlp (num_channels : Z) : M Module :=
  ln <- new_LayerNorm num_channels ;;
  l1 <- new_Linear num_channels num_channels ;;
  l2 <- new_Linear num_channels num_channels ;;
  ret (Sequential [ln; l1; GELU; l2]).

(** [Residual.__init__] *)
Definition new_Residual (module : Module) (dropout : Q) : M Module :=
  d <- new_Dropout dropout ;;
  ret (Residual module d dropout).

(** [MultiHeadAttention.__init__] *)
Definition new_MultiHeadAttention (num_q_channels num_kv_channels num_heads : Z)
    (dropout : Q) : M Module :=
  a <- new_MultiheadAttention num_q_channels num_heads
         num_kv_channels num_kv_channels dropout ;;
  ret (MultiHeadAttention a).

(** [CrossAttention.__init__] *)
Definition new_CrossAttention (num_q_channels num_kv_channels num_heads : Z)
    (dropout : Q) : M Module :=
  q_norm <- new_LayerNorm num_q_channels ;;
  kv_norm <- new_LayerNorm num_kv_channels ;;
  attention <- new_MultiHeadAttention num_q_channels num_kv_channels num_heads dropout ;;
  ret (CrossAttention q_norm kv_norm attention).

(** [SelfAttention.__init__] *)
Definition new_SelfAttention (num_channels num_heads : Z) (dropout : Q) : M Module :=
  norm <- new_LayerNorm num_channels ;;
  attention <- new_MultiHeadAttention num_channels num_channels num_heads dropout ;;
  ret (SelfAttention norm attention).

(** [cross_attention_layer] *)
Definition cross_attention_layer (num_q_channels num_kv_channels num_heads : Z)
    (dropout : Q) : M Module :=
  ca <- new_CrossAttention num_q_channels num_kv_channels num_heads dropout ;;
  r1 <- new_Residual ca dropout ;;
  ff <- mlp num_q_channels ;;
  r2 <- new_Residual ff dropout ;;
  ret (Sequential [r1; r2]).

(** [self_attention_layer] *)
Definition self_attention_layer (num_channels num_heads : Z) (dropout : Q) : M Module :=
  sa <- new_SelfAttention num_channels num_heads dropout ;;
  r1 <- new_Residual sa dropout ;;
  ff <- mlp num_channels ;;
  r2 <- new_Residual ff dropout ;;
  ret (Sequential [r1; r2]).

(** The list comprehension [[e for _ in range(n)]]. *)
Fixpoint comprehension {A} (n : nat) (e : M A) : M (list A) :=
  match n with
  | O => ret []
  | S k =>
      a <- e ;;
      rest <- comprehension k e ;;
      ret (a :: rest)
  end.

(** [self_attention_block] *)
Definition self_attention_block (num_layers num_channels num_heads : Z) (dropout : Q)
  : M Module :=
  layers <- comprehension (Z.to_nat num_layers)
              (self_attention_layer num_channels num_heads dropout) ;;
  ret (Sequential layers).

(** The local function [create_perceiver_layer] of [PerceiverEncoder.__init__]. *)
Definition create_perceiver_layer (input_adapter : InputAdapter)
    (num_latent_channels num_cross_attention_heads num_self_attention_heads
       num_self_attention_layers_per_block : Z) (dropout : Q) : M Module :=
  ca <- cross_attention_layer num_latent_channels (num_input_channels input_adapter)
          num_cross_attention_heads dropout ;;
  sb <- self_attention_block num_self_attention_layers_per_block num_latent_channels
          num_self_attention_heads dropout ;;
  ret (Sequential [ca; sb]).

(** [PerceiverEncoder.__init__] *)
Definition new_PerceiverEncoder (input_adapter : InputAdapter) (latent_shape : Z * Z)
    (num_layers num_cross_attention_heads num_self_attention_heads
       num_self_attention_layers_per_block : Z) (dropout : Q) : M Module :=
  let num_latent_channels := snd latent_shape in
  let create :=
    create_perceiver_layer input_adapter num_latent_channels
      num_cross_attention_heads num_self_attention_heads
      num_self_attention_layers_per_block dropout in
  layer_1 <- create ;;
  layer_n <- (if 1 <? num_layers
              then (l <- create ;; ret (Some l))
              else ret None) ;;
  latent <- new_parameter [fst latent_shape; snd latent_shape] ;;
  ret (PerceiverEncoder input_adapter num_layers layer_1 layer_n latent).

(** [PerceiverDecoder.__init__] *)
Definition new_PerceiverDecoder (output_adapter : OutputAdapter) (latent_shape : Z * Z)
    (num_cross_attention_heads : Z) (dropout : Q) : M Module :=
  let num_latent_channels := snd latent_shape in
  match rev (output_shape output_adapter) with
  | [] => raise (IndexError "tuple index out of range")
  | num_output_channels :: _ =>
      ca <- cross_attention_layer num_output_channels num_latent_channels
              num_cross_attention_heads dropout ;;
      output <- new_parameter (output_shape output_adapter) ;;
      ret (PerceiverDecoder output_adapter latent_shape ca output)
  end.

(* ================================================================== *)
(** ** Forward passes *)

(** [for i in range(n): acc = body(i, acc)] *)
Fixpoint for_range_from {A} (i : Z) (n : nat) (body : Z -> A -> M A) (acc : A) : M A :=
  match n with
  | O => ret acc
  | S k => acc' <- body i acc ;; for_range_from (i + 1) k body acc'
  end.

Definition for_range {A} (n : Z) (body : Z -> A -> M A) (acc : A) : M A :=
  for_range_from 0 (Z.to_nat n) body acc.

(** Binding of a call [(x_q, x_kv, pad_mask=None, attn_mask=None)]. *)
Definition bind_q_kv (args : list Arg) : Result (Arg * Arg * Arg * Arg) :=
  match args with
  | [x_q; x_kv] => Ok (x_q, x_kv, None, None)
  | [x_q; x_kv; pad_mask] => Ok (x_q, x_kv, pad_mask, None)
  | [x_q; x_kv; pad_mask; attn_mask] => Ok (x_q, x_kv, pad_mask, attn_mask)
  | _ => Raise (TypeError "forward() got a wrong number of positional arguments")
  end.

(** Binding of a call [(x, pad_mask=None, attn_mask=None)]. *)
Definition bind_x (args : list Arg) : Result (Arg * Arg * Arg) :=
  match args with
  | [x] => Ok (x, None, None)
  | [x; pad_mask] => Ok (x, pad_mask, None)
  | [x; pad_mask; attn_mask] => Ok (x, pad_mask, attn_mask)
  | _ => Raise (TypeError "forward() got a wrong number of positional arguments")
  end.

(** Binding of a call [(x, pad_mask=None)]. *)
Definition bind_x_pad (args : list Arg) : Result (Arg * Arg) :=
  match args with
  | [x] => Ok (x, None)
  | [x; pad_mask] => Ok (x, pad_mask)
  | _ => Raise (TypeError "forward() got a wrong number of positional arguments")
  end.

(** An argument that has to be a tensor. *)
Definition tensor_arg (a : Arg) : M Tensor :=
  match a with
  | Some t => ret t
  | None => raise (TypeError "expected a Tensor, got NoneType")
  end.

(** Binding of a call with the single positional argument of a torch layer. *)
Definition bind_input (args : list Arg) : M Tensor :=
  match args with
  | [x] => tensor_arg x
  | _ => raise (TypeError "forward() takes 2 positional arguments")
  end.

Definition LayerNorm_forward (normalized_shape : Z) (weight bias : Param)
    (args : list Arg) : M Tensor :=
  x <- bind_input args ;;
  lift (layer_norm x normalized_shape (pdata weight) (pdata bias)).

Definition Linear_forward (weight bias : Param) (args : list Arg) : M Tensor :=
  x <- bind_input args ;;
  lift (linear x (pdata weight) (pdata bias)).

Definition GELU_forward (args : list Arg) : M Tensor :=
  x <- bind_input args ;;
  ret (gelu x).

Definition Dropout_forward (training : bool) (p : Q) (args : list Arg) : M Tensor :=
  x <- bind_input args ;;
  sample (dropout x p training).

Section Forward.

(** The call [module(...)] of a sub-module, in the mode the model is in. *)
Variable call : Module -> list Arg -> M Tensor.

(** Modelled from the spec: [perceiver.utils.Sequential], the
    sequential-composition combinator of the module base.  The modules are
    applied in order; the first receives the arguments of the call, each
    later one the output of its predecessor; the composition of no module
    returns the tensor it is called on. *)
Definition Sequential_forward : list Module -> list Arg -> M Tensor :=
  fix loop (modules : list Module) (inputs : list Arg) : M Tensor :=
    match modules with
    | [] => bind_input inputs
    | m :: rest =>
        out <- call m inputs ;;
        match rest with
        | [] => ret out
        | _ :: _ => loop rest [Some out]
        end
    end.

(** [Residual.forward] *)
Definition Residual_forward (module dropout : Module) (args : list Arg) : M Tensor :=
  x <- call module args ;;
  d <- call dropout [Some x] ;;
  match args with
  | [] => raise (IndexError "tuple index out of range")
  | a0 :: _ =>
      x0 <- tensor_arg a0 ;;
      lift (tensor_add d x0)
  end.

(** [CrossAttention.forward] *)
Definition CrossAttention_forward (q_norm kv_norm attention : Module)
    (args : list Arg) : M Tensor :=
  '(x_q, x_kv, pad_mask, attn_mask) <- lift (bind_q_kv args) ;;
  x_q <- call q_norm [x_q] ;;
  x_kv <- call kv_norm [x_kv] ;;
  call attention [Some x_q; Some x_kv; pad_mask; attn_mask].

(** [SelfAttention.forward] *)
Definition SelfAttention_forward (norm attention : Module) (args : list Arg) : M Tensor :=
  '(x, pad_mask, attn_mask) <- lift (bind_x args) ;;
  x <- call norm [x] ;;
  call attention [Some x; Some x; pad_mask; attn_mask].

(** [PerceiverEncoder.forward] *)
Definition PerceiverEncoder_forward (input_adapter : InputAdapter) (num_layers : Z)
    (layer_1 : Module) (layer_n : option Module) (latent : Param)
    (args : list Arg) : M Tensor :=
  '(x, pad_mask) <- lift (bind_x_pad args) ;;
  x <- tensor_arg x ;;
  match shape x with
  | [] => raise (ValueError "not enough values to unpack (expected at least 1, got 0)")
  | b :: _ =>
      x <- input_adapter_forward input_adapter x ;;
      let x_latent := einops_repeat (pdata latent) b in
      x_latent <- call layer_1 [Some x_latent; Some x; pad_mask] ;;
      for_range (num_layers - 1)
        (fun i x_latent =>
           match layer_n with
           | Some layer_n => call layer_n [Some x_latent; Some x; pad_mask]
           | None => raise (AttributeError "'PerceiverEncoder' object has no attribute 'layer_n'")
           end)
        x_latent
  end.

Definition shape_eqb (d : list Z) (latent_shape : Z * Z) : bool :=
  match d with
  | [d1; d2] => (d1 =? fst latent_shape) && (d2 =? snd latent_shape)
  | _ => false
  end.

(** [PerceiverDecoder.forward] *)
Definition PerceiverDecoder_forward (output_adapter : OutputAdapter)
    (latent_shape : Z * Z) (cross_attention : Module) (output : Param)
    (args : list Arg) : M Tensor :=
  x <- bind_input args ;;
  match shape x with
  | [] => raise (ValueError "not enough values to unpack (expected at least 1, got 0)")
  | b :: d =>
      if negb (shape_eqb d latent_shape)
      then raise (ValueError ("Latent shape " ++ tuple_repr d
                              ++ " different from required shape "
                              ++ tuple_repr [fst latent_shape; snd latent_shape]))
      else
        let output := einops_repeat (pdata output) b in
        output <- call cross_attention [Some output; Some x] ;;
        output_adapter_forward output_adapter output
  end.

End Forward.

(** [MultiHeadAttention.forward]: the first component of what
    [nn.MultiheadAttention] returns. *)
Definition MultiHeadAttention_forward (training : bool) (attention : MultiheadAttention)
    (args : list Arg) : M Tensor :=
  '(x_q, x_kv, pad_mask, attn_mask) <- lift (bind_q_kv args) ;;
  x_q <- tensor_arg x_q ;;
  x_kv <- tensor_arg x_kv ;;
  r <- sample_result
         (multi_head_attention_forward (embed_dim attention) (num_heads attention)
            (map pdata (attn_params attention)) (attn_dropout attention) training
            x_q x_kv x_kv pad_mask attn_mask) ;;
  ret (fst r).

(** The call of a module on positional arguments: dispatch on the class of the module.  [training] is the
    mode every module of the model is in ([model.train()] / [model.eval()]). *)
Fixpoint call (training : bool) (m : Module) (args : list Arg) {struct m} : M Tensor :=
  match m with
  | LayerNorm c w b => LayerNorm_forward c w b args
  | Linear _ _ w b => Linear_forward w b args
  | GELU => GELU_forward args
  | Dropout p => Dropout_forward training p args
  | Sequential ms => Sequential_forward (call training) ms args
  | Residual md dr _ => Residual_forward (call training) md dr args
  | MultiHeadAttention a => MultiHeadAttention_forward training a args
  | CrossAttention qn kvn a => CrossAttention_forward (call training) qn kvn a args
  | SelfAttention n a => SelfAttention_forward (call training) n a args
  | PerceiverEncoder ia nl l1 ln lat =>
      PerceiverEncoder_forward (call training) ia nl l1 ln lat args
  | PerceiverDecoder oa ls ca out =>
      PerceiverDecoder_forward (call training) oa ls ca out args
  end.

(** [PerceiverIO]: the [Sequential] of an encoder and a decoder. *)
Definition PerceiverIO (encoder decoder : Module) : Module :=
  Sequential [encoder; decoder].

(* ================================================================== *)
(** ** Text masking *)

(** The attributes of a [TextMasking] object. *)
Record TextMasking : Type := mkTextMasking {
  vocab_size : Z;
  unk_token_id : Z;
  mask_token_id : Z;
  num_special_tokens : Z;
  mask_p : Q
}.

(** The label that marks a position the loss ignores. *)
Definition ignore_index : Z := -100.

(** [x == self.unk_token_id], then [|= pad_mask]. *)
Definition is_special (tm : TextMasking) (x : list Z) (pad : list bool) : list bool :=
  map2 orb (map (fun t => t =? unk_token_id tm) x) pad.

(** [~is_special] *)
Definition is_input (tm : TextMasking) (x : list Z) (pad : list bool) : list bool :=
  map negb (is_special tm x pad).

(** The Python floats [0.9] and [1 / 9], as the float32 draws are compared
    with them. *)
Definition replace_threshold : Q := float32 (float64 (9 # 10)).

Definition random_threshold : Q := float32 (float64 (1 # 9)).

(** [torch.rand_like(x, dtype=torch.float) < self.mask_p], then
    [&= is_input].  [mask_p] is the value of the Python float. *)
Definition is_selected (tm : TextMasking) (x : list Z) (pad : list bool) (r1 : list Q)
  : list bool :=
  map2 andb (map (fun u => Qltb u (float32 (mask_p tm))) r1) (is_input tm x pad).

(** [is_selected & (torch.rand_like(x, dtype=torch.float) < 0.9)] *)
Definition is_selected_1 (selected : list bool) (r2 : list Q) : list bool :=
  map2 andb selected (map (fun u => Qltb u replace_threshold) r2).

(** [is_selected_1 & (torch.rand_like(x, dtype=torch.float) < 1 / 9)] *)
Definition is_selected_2 (selected_1 : list bool) (r3 : list Q) : list bool :=
  map2 andb selected_1 (map (fun u => Qltb u random_threshold) r3).

(** [x[mask] = value] for a scalar [value]. *)
Definition masked_fill (x : list Z) (mask : list bool) (value : Z) : list Z :=
  map2 (fun v (m : bool) => if m then value else v) x mask.

(** [mask.sum()] *)
Definition mask_sum (mask : list bool) : nat := count_occ bool_dec mask true.

(** [x[mask] = src] for a one-dimensional [src]: the positions where [mask]
    holds receive the elements of [src] in row-major order. *)
Fixpoint index_put (x : list Z) (mask : list bool) (src : list Z) : list Z :=
  match x, mask with
  | v :: xs, true :: ms =>
      match src with
      | s :: ss => s :: index_put xs ms ss
      | [] => v :: index_put xs ms []
      end
  | v :: xs, false :: ms => v :: index_put xs ms src
  | _, _ => x
  end.

Definition masked_assign (x : list Z) (mask : list bool) (src : list Z)
  : Result (list Z) :=
  if Nat.eqb (length src) (mask_sum mask)
  then Ok (index_put x mask src)
  else Raise (RuntimeError "shape mismatch: value tensor cannot be broadcast to indexing result").

(** [torch.rand_like(x, dtype=torch.float)], flattened. *)
Definition rand_like (x : Tensor2 Z) : M (list Q) := sample (rand (numel2 x)).

(** [TextMasking.forward].  The source updates [x] in place and returns it;
    here the updated tensor is the first component of the result. *)
Definition TextMasking_forward (tm : TextMasking) (x : Tensor2 Z)
    (pad_mask : option (Tensor2 bool)) : M (Tensor2 Z * Tensor2 Z) :=
  let labels := elems x in
  match pad_mask with
  | None => raise (TypeError "unsupported operand type(s) for |=: 'Tensor' and 'NoneType'")
  | Some pad_mask =>
      match expand2 (nrows x) (ncols x) pad_mask with
      | None => raise (RuntimeError "output shape doesn't match the broadcast shape")
      | Some pad =>
          r1 <- rand_like x ;;
          let selected := is_selected tm (elems x) pad r1 in
          r2 <- rand_like x ;;
          let selected_1 := is_selected_1 selected r2 in
          r3 <- rand_like x ;;
          let selected_2 := is_selected_2 selected_1 r3 in
          let x1 := masked_fill (elems x) selected_1 (mask_token_id tm) in
          src <- sample_result (randint (num_special_tokens tm) (vocab_size tm)
                                  (mask_sum selected_2)) ;;
          x2 <- lift (masked_assign x1 selected_2 src) ;;
          let labels := masked_fill labels (map negb selected) ignore_index in
          ret (mkTensor2 (nrows x) (ncols x) x2, mkTensor2 (nrows x) (ncols x) labels)
      end
  end.

(* ================================================================== *)
(** ** Masked language model *)

Record PerceiverMLM : Type := mkPerceiverMLM {
  encoder : Module;
  decoder : Module;
  masking : TextMasking
}.

Definition mask_arg (pad_mask : option (Tensor2 bool)) : Arg :=
  match pad_mask with
  | Some m => Some (of_bool m)
  | None => None
  end.

(** [PerceiverMLM.forward] *)
Definition PerceiverMLM_forward (training : bool) (self : PerceiverMLM)
    (x_input : Tensor2 Z) (pad_mask : option (Tensor2 bool)) (masking_on : bool)
  : M (Tensor * option (Tensor2 Z)) :=
  let l := Z.of_nat (ncols x_input) in
  '(x_masked, x_labels) <-
     (if masking_on
      then '(x_masked, x_labels) <- TextMasking_forward (masking self) x_input pad_mask ;;
           ret (x_masked, Some x_labels)
      else ret (x_input, None)) ;;
  x_latent <- call training (encoder self) [Some (of_long x_masked); mask_arg pad_mask] ;;
  out <- call training (decoder self) [Some x_latent] ;;
  x_logits <- lift (narrow_seq out l) ;;
  ret (x_logits, x_labels).

End Modules.

(* ================================================================== *)
(** ** A computable tensor library over the rationals

    [Ref] implements [Torch] with tensors that carry their shape and a flat
    list of rational entries, and a linear congruential generator.  Shapes,
    shape errors, dropout and the random draws follow torch; the entries of
    normalisation, GELU and attention are rational stand-ins (an affine map,
    a rectifier, the query moved by the mean value, after attention
    dropout), since the real ones are not rational.  The instance is what the model is run on when a statement
    is tried on concrete inputs. *)

Module Ref.

Record tensor : Type := mkTensor {
  t_shape : list Z;
  t_data : list Q
}.

Definition shape_eq (a b : list Z) : bool :=
  if list_eq_dec Z.eq_dec a b then true else false.

Definition numel (s : list Z) : nat := Z.to_nat (fold_right Z.mul 1 s).

(** The generator: a linear congruential state. *)
Definition lcg (g : Z) : Z := (g * 1103515245 + 12345) mod 2147483648.

(** One draw from [0, 1), with ten bits of resolution. *)
Definition draw (g : Z) : Q * Z :=
  let g' := lcg g in (((g' / 65536) mod 1024) # 1024, g').

Fixpoint draws (n : nat) (g : Z) : list Q * Z :=
  match n with
  | O => ([], g)
  | S k => let (u, g1) := draw g in
           let (us, g2) := draws k g1 in
           (u :: us, g2)
  end.

Fixpoint draws_int (lo hi : Z) (n : nat) (g : Z) : list Z * Z :=
  match n with
  | O => ([], g)
  | S k => let g1 := lcg g in
           let (zs, g2) := draws_int lo hi k g1 in
           (lo + (g1 / 65536) mod (hi - lo) :: zs, g2)
  end.

Definition tensor_init (s : list Z) (g : Z) : Result tensor * Z :=
  if forallb (fun d => 0 <=? d) s
  then let (us, g') := draws (numel s) g in (Ok (mkTensor s us), g')
  else (Raise (RuntimeError "Trying to create tensor with negative dimension"), g).

(** Entry [i] of a flat tensor, cyclically over the last dimension. *)
Definition cyc (w : list Q) (i : nat) : Q := nth (i mod (length w)) w 0%Q.

Fixpoint mapi {A B} (f : nat -> A -> B) (i : nat) (l : list A) : list B :=
  match l with
  | [] => []
  | a :: tl => f i a :: mapi f (S i) tl
  end.

Definition layer_norm (x : tensor) (c : Z) (w b : tensor) : Result tensor :=
  if shape_eq (t_shape w) [c] && shape_eq (t_shape b) [c]
     && (last (t_shape x) (-1) =? c)
  then Ok (mkTensor (t_shape x)
             (mapi (fun i v => Qred (v * cyc (t_data w) i + cyc (t_data b) i)) 0 (t_data x)))
  else Raise (RuntimeError "Given normalized_shape does not match the input").

Fixpoint chunks {A} (fuel size : nat) (l : list A) : list (list A) :=
  match fuel, l with
  | S k, _ :: _ => firstn size l :: chunks k size (skipn size l)
  | _, _ => []
  end.

Definition dot (a b : list Q) : Q :=
  fold_right (fun u acc => Qred (u + acc)) 0%Q (map2 Qmult a b).

Definition linear (x w b : tensor) : Result tensor :=
  match t_shape w, t_shape b with
  | [o; i], [o'] =>
      if (o =? o') && (last (t_shape x) (-1) =? i)
         && negb (Nat.eqb (length (t_shape x)) 0)
      then
        let rows := chunks (length (t_data w)) (Z.to_nat i) (t_data w) in
        let ins := chunks (length (t_data x)) (Z.to_nat i) (t_data x) in
        Ok (mkTensor (removelast (t_shape x) ++ [o])
              (flat_map (fun v => map2 (fun r c => Qred (dot v r + c)) rows (t_data b)) ins))
      else Raise (RuntimeError "mat1 and mat2 shapes cannot be multiplied")
  | _, _ => Raise (RuntimeError "mat1 and mat2 shapes cannot be multiplied")
  end.

Definition gelu (x : tensor) : tensor :=
  mkTensor (t_shape x) (map (fun v => if Qle_bool 0 v then v else 0%Q) (t_data x)).

Fixpoint drop_entries (p : Q) (l : list Q) (g : Z) : list Q * Z :=
  match l with
  | [] => ([], g)
  | v :: tl => let (u, g1) := draw g in
               let (r, g2) := drop_entries p tl g1 in
               ((if Qltb u p then 0%Q else Qred (v / (1 - p))) :: r, g2)
  end.

Definition dropout (x : tensor) (p : Q) (training : bool) (g : Z) : tensor * Z :=
  if training && Qltb 0 p
  then let (d, g') := drop_entries p (t_data x) g in (mkTensor (t_shape x) d, g')
  else (x, g).

Definition mask_ok (b tk : Z) (m : option tensor) : bool :=
  match m with
  | None => true
  | Some t => shape_eq (t_shape t) [b; tk]
  end.

(** The stand-in for attention: every entry of the query moved by the mean
    of the values. *)
Definition attend (q v : tensor) : tensor :=
  let mean := Qred (fold_right Qplus 0%Q (t_data v)
                    / inject_Z (Z.of_nat (length (t_data v)))) in
  mkTensor (t_shape q) (map (fun u => Qred (u + mean)) (t_data q)).

Definition multi_head_attention_forward (e h : Z) (ps : list tensor) (p : Q)
    (training : bool) (q k v : tensor) (kpm am : option tensor) (g : Z)
  : Result (tensor * option tensor) * Z :=
  match t_shape q, t_shape k, t_shape v with
  | [b; tq; e'], [b1; tk; kd], [b2; tk2; vd] =>
      if (0 <? h) && (e mod h =? 0) && (e' =? e) && (b1 =? b) && (b2 =? b)
         && (tk2 =? tk) && mask_ok b tk kpm
         && (if list_eq_dec (list_eq_dec Z.eq_dec) (map t_shape ps)
                  (mha_param_shapes e kd vd) then true else false)
      then let (y, g') := dropout (attend q v) p training g in (Ok (y, None), g')
      else (Raise (RuntimeError "shape mismatch in multi_head_attention_forward"), g)
  | _, _, _ => (Raise (RuntimeError "query, key and value must be 3-D batched tensors"), g)
  end.

Definition tensor_add (a b : tensor) : Result tensor :=
  if shape_eq (t_shape a) (t_shape b)
  then Ok (mkTensor (t_shape a) (map2 (fun u v => Qred (u + v)) (t_data a) (t_data b)))
  else Raise (RuntimeError "The size of tensor a must match the size of tensor b").

Definition einops_repeat (t : tensor) (b : Z) : tensor :=
  mkTensor (b :: t_shape t) (concat (repeat (t_data t) (Z.to_nat b))).

Definition narrow_seq (t : tensor) (l : Z) : Result tensor :=
  match t_shape t with
  | [b; k; c] =>
      let k' := Z.min k (Z.max 0 l) in
      Ok (mkTensor [b; k'; c]
            (flat_map (firstn (Z.to_nat (k' * c)))
               (chunks (length (t_data t)) (Z.to_nat (k * c)) (t_data t))))
  | _ => Raise (IndexError "too many indices for tensor")
  end.

Definition of_long (t : Tensor2 Z) : tensor :=
  mkTensor [Z.of_nat (nrows t); Z.of_nat (ncols t)] (map inject_Z (elems t)).

Definition of_bool (t : Tensor2 bool) : tensor :=
  mkTensor [Z.of_nat (nrows t); Z.of_nat (ncols t)]
    (map (fun b : bool => if b then 1%Q else 0%Q) (elems t)).

Definition randint (lo hi : Z) (n : nat) (g : Z) : Result (list Z) * Z :=
  if lo <? hi
  then let (zs, g') := draws_int lo hi n g in (Ok zs, g')
  else (Raise (RuntimeError "random_ expects 'from' to be less than 'to'"), g).

End Ref.

Definition RefTorch : Torch := {|
  Tensor := Ref.tensor;
  Generator := Z;
  shape := Ref.t_shape;
  tensor_init := Ref.tensor_init;
  layer_norm := Ref.layer_norm;
  linear := Ref.linear;
  gelu := Ref.gelu;
  dropout := Ref.dropout;
  multi_head_attention_forward := Ref.multi_head_attention_forward;
  tensor_add := Ref.tensor_add;
  einops_repeat := Ref.einops_repeat;
  narrow_seq := Ref.narrow_seq;
  of_long := Ref.of_long;
  of_bool := Ref.of_bool;
  rand := Ref.draws;
  randint := Ref.randint
|}.


(* ================================================================== *)
(** ** The IMDB data module ([data/imdb.py])

    The file system and the tokenizer are interfaces: [glob.glob] and
    reading a text file, and the [tokenizers.Tokenizer] calls the module
    makes.  A tokenizer object carries the padding and truncation settings
    [enable_padding] and [enable_truncation] store in it. *)

(** [os.path.join(a, b)] on POSIX. *)
Definition starts_with_sep (s : string) : bool :=
  match s with
  | String c _ => Ascii.eqb c "/"
  | EmptyString => false
  end.

Fixpoint ends_with_sep (s : string) : bool :=
  match s with
  | EmptyString => false
  | String c EmptyString => Ascii.eqb c "/"
  | String _ rest => ends_with_sep rest
  end.

Definition path_join2 (path b : string) : string :=
  if starts_with_sep b then b
  else match path with
       | EmptyString => b
       | _ => if ends_with_sep path then (path ++ b)%string
              else (path ++ "/" ++ b)%string
       end.

(** [os.path.join(a, *p)] *)
Definition path_join (a : string) (p : list string) : string :=
  fold_left path_join2 p a.

Record FileSystem : Type := mkFileSystem {
  (** [glob.glob(pattern)] *)
  glob : string -> list string;
  (** [open(name, encoding='utf-8')] and [f.read()] *)
  read_text : string -> Result string
}.

(** [x in l] for strings. *)
Definition str_in (x : string) (l : list string) : bool :=
  existsb (String.eqb x) l.

(** The inner loop of [load_split]: the files of one label, appended to the
    lists read so far. *)
Fixpoint read_files (fs : FileSystem) (names : list string) (i : Z)
    (raw : list string * list Z) : Result (list string * list Z) :=
  match names with
  | [] => Ok raw
  | name :: rest =>
      match read_text fs name with
      | Ok text => read_files fs rest i (fst raw ++ [text], snd raw ++ [i])
      | Raise e => Raise e
      end
  end.

(** [path_pattern] in [load_split] *)
Definition path_pattern (root split label : string) : string :=
  path_join root [("IMDB/aclImdb/" ++ split ++ "/" ++ label)%string; "*.txt"%string].

(** The outer loop of [load_split], over [enumerate(['neg', 'pos'])]. *)
Fixpoint read_labels (fs : FileSystem) (root split : string)
    (labels : list (Z * string)) (raw : list string * list Z)
  : Result (list string * list Z) :=
  match labels with
  | [] => Ok raw
  | (i, label) :: rest =>
      match read_files fs (glob fs (path_pattern root split label)) i raw with
      | Ok raw' => read_labels fs root split rest raw'
      | Raise e => Raise e
      end
  end.

(** [load_split] *)
Definition load_split (fs : FileSystem) (root split : string)
  : Result (list string * list Z) :=
  if negb (str_in split ["train"%string; "test"%string])
  then Raise (ValueError ("invalid split: " ++ split))
  else read_labels fs root split [(0, "neg"%string); (1, "pos"%string)] ([], []).

(** [IMDBDataset] *)
Record IMDBDataset : Type := mkIMDBDataset {
  raw_x : list string;
  raw_y : list Z
}.

Definition new_IMDBDataset (fs : FileSystem) (root split : string) : Result IMDBDataset :=
  match load_split fs root split with
  | Ok (x, y) => Ok (mkIMDBDataset x y)
  | Raise e => Raise e
  end.

(** [IMDBDataset.__len__] *)
Definition IMDBDataset_len (self : IMDBDataset) : Z := Z.of_nat (length (raw_x self)).

(** [l[index]] on a Python list. *)
Definition list_getitem {A} (l : list A) (index : Z) : Result A :=
  let n := Z.of_nat (length l) in
  let i := if index <? 0 then index + n else index in
  if (0 <=? i) && (i <? n)
  then match nth_error l (Z.to_nat i) with
       | Some a => Ok a
       | None => Raise (IndexError "list index out of range")
       end
  else Raise (IndexError "list index out of range").

(** [IMDBDataset.__getitem__] *)
Definition IMDBDataset_getitem (self : IMDBDataset) (index : Z) : Result (Z * string) :=
  match list_getitem (raw_y self) index with
  | Ok y =>
      match list_getitem (raw_x self) index with
      | Ok x => Ok (y, x)
      | Raise e => Raise e
      end
  | Raise e => Raise e
  end.

(** A [tokenizers.Tokenizer]: the id of a token, the encoding of a batch of
    texts under given padding and truncation settings, and the settings the
    object holds. *)
Record Tokenizer : Type := mkTokenizer {
  token_to_id : string -> option Z;
  encode_batch_with : option (Z * string) -> option Z -> list string -> list (list Z);
  padding : option (Z * string);
  truncation : option Z
}.

(** [tokenizer.enable_padding(pad_id=..., pad_token=...)] *)
Definition enable_padding (t : Tokenizer) (pad_id : Z) (pad_token : string) : Tokenizer :=
  mkTokenizer (token_to_id t) (encode_batch_with t) (Some (pad_id, pad_token))
    (truncation t).

(** [tokenizer.enable_truncation(max_length=...)] *)
Definition enable_truncation (t : Tokenizer) (max_length : Z) : Tokenizer :=
  mkTokenizer (token_to_id t) (encode_batch_with t) (padding t) (Some max_length).

(** [[x.ids for x in tokenizer.encode_batch(xs)]] *)
Definition encode_batch (t : Tokenizer) (xs : list string) : list (list Z) :=
  encode_batch_with t (padding t) (truncation t) xs.

(** [Collator] *)
Record Collator : Type := mkCollator {
  pad_id : Z;
  tokenizer : Tokenizer
}.

(** [Collator.__init__], for the constant [PAD_TOKEN] of
    [perceiver.tokenizer].  A token the vocabulary does not hold has id
    [None], which [enable_padding] does not accept as [pad_id].  The
    collator holds the tokenizer with both settings made. *)
Definition new_Collator (PAD_TOKEN : string) (tok : Tokenizer) (max_seq_len : Z)
  : Result Collator :=
  match token_to_id tok PAD_TOKEN with
  | None => Raise (TypeError "argument 'pad_id': 'NoneType' object cannot be interpreted as an integer")
  | Some id =>
      Ok (mkCollator id
            (enable_truncation (enable_padding tok id PAD_TOKEN) max_seq_len))
  end.

(** [torch.tensor(rows)] for a list of lists of ints: the rows have to be of
    one length.  (No row at all gives a tensor without a second dimension;
    it is the empty tensor here.) *)
Definition tensor_of_rows (rows : list (list Z)) : Result (Tensor2 Z) :=
  match rows with
  | [] => Ok (mkTensor2 0 0 [])
  | r :: _ =>
      if forallb (fun r' => Nat.eqb (length r') (length r)) rows
      then Ok (mkTensor2 (length rows) (length r) (concat rows))
      else Raise (ValueError "expected sequence of equal lengths at dim 1")
  end.

(** [xs_ids == self.pad_id] *)
Definition eq_scalar (t : Tensor2 Z) (v : Z) : Tensor2 bool :=
  mkTensor2 (nrows t) (ncols t) (map (fun z => z =? v) (elems t)).

(** [Collator.collate] *)
Definition collate (self : Collator) (batch : list (Z * string))
  : Result (list Z * Tensor2 Z * Tensor2 bool) :=
  match batch with
  | [] => Raise (ValueError "not enough values to unpack (expected 2, got 0)")
  | _ :: _ =>
      let ys := map fst batch in
      let xs := map snd batch in
      match tensor_of_rows (encode_batch (tokenizer self) xs) with
      | Ok xs_ids =>
          let pad_mask := eq_scalar xs_ids (pad_id self) in
          Ok (ys, xs_ids, pad_mask)
      | Raise e => Raise e
      end
  end.

(** [Collator.encode] *)
Definition Collator_encode (self : Collator) (samples : list string)
  : Result (Tensor2 Z * Tensor2 bool) :=
  let batch := map (fun sample => (0, sample)) samples in
  match collate self batch with
  | Ok (_, xs_ids, pad_mask) => Ok (xs_ids, pad_mask)
  | Raise e => Raise e
  end.

(** What the module relies on from a tokenizer with padding and truncation
    enabled: one row per text, all rows of one length, none longer than the
    truncation length. *)
Definition padded_rows (rows : list (list Z)) : Prop :=
  forall r1 r2, In r1 rows -> In r2 rows -> length r1 = length r2.

Definition TokenizerSpec (t : Tokenizer) : Prop :=
  forall pad trunc xs,
    length (encode_batch_with t pad trunc xs) = length xs
    /\ (pad <> None -> padded_rows (encode_batch_with t pad trunc xs))
    /\ (forall m, trunc = Some m -> 0 <= m ->
                  Forall (fun r => Z.of_nat (length r) <= m)
                    (encode_batch_with t pad trunc xs)).

(** The texts of a list of files, when every one of them can be read. *)
Definition reads (fs : FileSystem) (names texts : list string) : Prop :=
  Forall2 (fun name text => read_text fs name = Ok text) names texts.

(** [IMDBDataModule.__init__]: the path of the tokenizer file. *)
Definition tokenizer_path (root : string) (vocab_size : Z) : string :=
  path_join root [("imdb-tokenizer-" ++ str_of_int vocab_size ++ ".json")%string].
(* ================================================================== *)
(** ** Vocabulary of the statements *)

Section Draws.

Context {T : Torch}.

(** The three tensors of uniform draws a call of [TextMasking.forward] on a
    tensor of [n] entries takes from the generator, in the order of the
    source, and the generator after each. *)
Definition gen_1 (n : nat) (g : Generator) : Generator := snd (rand n g).
Definition gen_2 (n : nat) (g : Generator) : Generator := snd (rand n (gen_1 n g)).
Definition gen_3 (n : nat) (g : Generator) : Generator := snd (rand n (gen_2 n g)).
Definition draw_1 (n : nat) (g : Generator) : list Q := fst (rand n g).
Definition draw_2 (n : nat) (g : Generator) : list Q := fst (rand n (gen_1 n g)).
Definition draw_3 (n : nat) (g : Generator) : list Q := fst (rand n (gen_2 n g)).

(** The masks [is_selected], [is_selected_1] and [is_selected_2] of a call
    on tokens [x] with padding mask [pm], started in world [w]. *)
Definition selected_of (tm : TextMasking) (x : Tensor2 Z) (pm : Tensor2 bool)
    (w : World) : list bool :=
  is_selected tm (elems x) (elems pm) (draw_1 (numel2 x) (gen w)).

Definition selected_1_of (tm : TextMasking) (x : Tensor2 Z) (pm : Tensor2 bool)
    (w : World) : list bool :=
  is_selected_1 (selected_of tm x pm w) (draw_2 (numel2 x) (gen w)).

Definition selected_2_of (tm : TextMasking) (x : Tensor2 Z) (pm : Tensor2 bool)
    (w : World) : list bool :=
  is_selected_2 (selected_1_of tm x pm w) (draw_3 (numel2 x) (gen w)).

End Draws.

(** What happens to one position, as the specification words it. *)
Inductive Outcome : Type :=
| NotSelected
| MaskToken
| RandomToken
| Unchanged.

Definition Outcome_eqb (a b : Outcome) : bool :=
  match a, b with
  | NotSelected, NotSelected | MaskToken, MaskToken
  | RandomToken, RandomToken | Unchanged, Unchanged => true
  | _, _ => false
  end.

(** The outcome at a position from its being special and the three draws at
    it: selected by a draw below [mask_p]; of the selected, the replace-group
    by a draw below 0.9; of those, the random-token subgroup by a draw below
    1/9.  The draws are float32 numbers and are compared with the float32
    values of the three Python floats. *)
Definition outcome (mask_p : Q) (special : bool) (u1 u2 u3 : Q) : Outcome :=
  if special then NotSelected
  else if Qltb u1 (float32 mask_p)
       then if Qltb u2 replace_threshold
            then if Qltb u3 random_threshold then RandomToken else MaskToken
            else Unchanged
       else NotSelected.

(** The number of positions before [k] at which [mask] holds. *)
Definition rank (mask : list bool) (k : nat) : nat := mask_sum (firstn k mask).

(** The [n] equally likely values [0, 1/n, ..., (n-1)/n] of a uniform draw
    from [0, 1) at resolution [n]. *)
Definition grid (n : nat) : list Q :=
  map (fun i => Z.of_nat i # Pos.of_nat n) (seq 0 n).

(** The resolution of [torch.rand] at dtype [torch.float]: a draw is
    [k / 2 ^ 24] for a [k] uniform in [0, 2 ^ 24). *)
Definition float32_resolution : nat := Z.to_nat 16777216.

(** The token ids [torch.randint(lo, hi)] draws from, each as likely as any
    other. *)
Definition token_range (lo hi : Z) : list Z :=
  map (fun i => lo + Z.of_nat i) (seq 0 (Z.to_nat (hi - lo))).

(** Probability of an event of one draw, resp. of two independent draws, at
    resolution [n]: favourable cases over all cases. *)
Definition prob1 (n : nat) (ev : Q -> bool) : Q :=
  Z.of_nat (length (filter ev (grid n))) # Pos.of_nat n.

Definition prob2 (n : nat) (ev : Q -> Q -> bool) : Q :=
  Z.of_nat (length (filter (fun p => ev (fst p) (snd p))
                      (list_prod (grid n) (grid n))))
  # Pos.of_nat (n * n).

(** Probability of an event of two independent draws at resolution [n] and
    an independent random token of [lo, hi). *)
Definition prob3 (n : nat) (lo hi : Z) (ev : Q -> Q -> Z -> bool) : Q :=
  Z.of_nat (length (filter (fun p => ev (fst (fst p)) (snd (fst p)) (snd p))
                      (list_prod (list_prod (grid n) (grid n)) (token_range lo hi))))
  # Pos.of_nat (n * n * Z.to_nat (hi - lo)).

Section Structure.

Context {T : Torch}.

(** [module.parameters()]: the parameters of a module itself, then those of
    its sub-modules in registration order.  (The parameters of adapters are
    outside the model.) *)
Fixpoint params (m : Module) : list Param :=
  match m with
  | LayerNorm _ w b => [w; b]
  | Linear _ _ w b => [w; b]
  | GELU => []
  | Dropout _ => []
  | Sequential ms => flat_map params ms
  | Residual md dr _ => params md ++ params dr
  | MultiHeadAttention a => attn_params a
  | CrossAttention qn kvn a => params qn ++ params kvn ++ params a
  | SelfAttention n a => params n ++ params a
  | PerceiverEncoder _ _ l1 ln lat =>
      lat :: params l1 ++ match ln with Some l => params l | None => [] end
  | PerceiverDecoder _ _ ca out => out :: params ca
  end.

(** The identities of the parameters of a module. *)
Definition pids (m : Module) : list nat := map pid (params m).

(** The compound (cross-attention + self-attention-block) layers an encoder
    holds. *)
Definition compound_layers (m : Module) : list Module :=
  match m with
  | PerceiverEncoder _ _ l1 ln _ =>
      l1 :: match ln with Some l => [l] | None => [] end
  | _ => []
  end.

(** The parameters [ps] are exactly the objects created between the worlds
    [w] and [w'], in order of creation. *)
Definition fresh (w w' : World) (ps : list Param) : Prop :=
  (next_id w <= next_id w')%nat
  /\ map pid ps = seq (next_id w) (next_id w' - next_id w).

(** Shapes of the parameters of the torch layers. *)
Definition LayerNorm_of (c : Z) (m : Module) : Prop :=
  exists w b, m = LayerNorm c w b /\ shape (pdata w) = [c] /\ shape (pdata b) = [c].

Definition Linear_of (i o : Z) (m : Module) : Prop :=
  exists w b, m = Linear i o w b /\ shape (pdata w) = [o; i] /\ shape (pdata b) = [o].

Definition MultiheadAttention_of (e h kd vd : Z) (p : Q) (a : MultiheadAttention) : Prop :=
  embed_dim a = e /\ num_heads a = h /\ kdim a = kd /\ vdim a = vd
  /\ attn_dropout a = p /\ 0 < h /\ e mod h = 0
  /\ map shape (map pdata (attn_params a)) = mha_param_shapes e kd vd.

(** The module trees the constructors of [model.py] build. *)
Definition mlp_of (c : Z) (m : Module) : Prop :=
  exists ln l1 l2,
    m = Sequential [ln; l1; GELU; l2]
    /\ LayerNorm_of c ln /\ Linear_of c c l1 /\ Linear_of c c l2.

Definition cross_attention_layer_of (cq ckv h : Z) (p : Q) (m : Module) : Prop :=
  exists qn kvn a ff,
    m = Sequential [Residual (CrossAttention qn kvn (MultiHeadAttention a)) (Dropout p) p;
                    Residual ff (Dropout p) p]
    /\ LayerNorm_of cq qn /\ LayerNorm_of ckv kvn
    /\ MultiheadAttention_of cq h ckv ckv p a
    /\ mlp_of cq ff.

Definition self_attention_layer_of (c h : Z) (p : Q) (m : Module) : Prop :=
  exists n a ff,
    m = Sequential [Residual (SelfAttention n (MultiHeadAttention a)) (Dropout p) p;
                    Residual ff (Dropout p) p]
    /\ LayerNorm_of c n
    /\ MultiheadAttention_of c h c c p a
    /\ mlp_of c ff.

Definition self_attention_block_of (depth c h : Z) (p : Q) (m : Module) : Prop :=
  exists layers,
    m = Sequential layers
    /\ length layers = Z.to_nat depth
    /\ Forall (self_attention_layer_of c h p) layers.

Definition perceiver_layer_of (c cin hc hs depth : Z) (p : Q) (m : Module) : Prop :=
  exists ca sb,
    m = Sequential [ca; sb]
    /\ cross_attention_layer_of c cin hc p ca
    /\ self_attention_block_of depth c hs p sb.

(** The cross-attention layer as the specification words it: both streams
    normalised, each by its own LayerNorm; attention of the normalised query
    over the normalised key/value stream; the (dropout-regularised) result
    added to the query as it came in; then the feed-forward block LayerNorm,
    Linear, GELU, Linear, its (dropout-regularised) result added to its
    input. *)
Definition spec_cross_attention_layer (training : bool) (p : Q)
    (q_norm kv_norm : Module) (attention : MultiheadAttention)
    (ff_norm ff_1 ff_2 : Module) (q kv : Tensor) (pad_mask attn_mask : Arg)
  : M Tensor :=
  q_n <- call training q_norm [Some q] ;;
  kv_n <- call training kv_norm [Some kv] ;;
  a <- MultiHeadAttention_forward training attention
         [Some q_n; Some kv_n; pad_mask; attn_mask] ;;
  a <- sample (dropout a p training) ;;
  y <- lift (tensor_add a q) ;;
  f <- call training ff_norm [Some y] ;;
  f <- call training ff_1 [Some f] ;;
  f <- call training ff_2 [Some (gelu f)] ;;
  f <- sample (dropout f p training) ;;
  lift (tensor_add f y).

(** The encoder's iterations as the specification words them: the primary
    layer once, then the shared layer, each latent the input of the next
    application. *)
Fixpoint spec_latents (training : bool) (layer_1 layer_n : Module)
    (x : Tensor) (pad_mask : Arg) (latent_0 : Tensor) (iteration : nat) : M Tensor :=
  match iteration with
  | O => call training layer_1 [Some latent_0; Some x; pad_mask]
  | S i =>
      latent <- spec_latents training layer_1 layer_n x pad_mask latent_0 i ;;
      call training layer_n [Some latent; Some x; pad_mask]
  end.

End Structure.

Section Returns.

Context {T : Torch}.

(** The call [c] returns, from every world, a tensor of shape [s]. *)
Definition returns_shape (c : M Tensor) (s : list Z) : Prop :=
  forall w, exists y w', c w = (Ok y, w') /\ shape y = s.

(** A padding mask is absent or flags the [tk] keys of each of [b] batches. *)
Definition pad_mask_ok (b tk : Z) (pad_mask : Arg) : Prop :=
  forall m, pad_mask = Some m -> shape m = [b; tk].

End Returns.

Section Determinism.

Context {T : Torch}.

(** The value (or exception) of a call does not depend on the world it is
    started in: not on the state of the generator, not on the allocator. *)
Definition det {A} (c : M A) : Prop :=
  forall w1 w2, fst (c w1) = fst (c w2).

(** Dropout with rate [p] does nothing in mode [training]. *)
Definition dropout_is_off (training : bool) (p : Q) : Prop :=
  training = false \/ (p == 0)%Q.

(** Every dropout site of a module is off in mode [training], and the
    adapters it holds are deterministic. *)
Fixpoint deterministic_module (training : bool) (m : Module) : Prop :=
  match m with
  | LayerNorm _ _ _ => True
  | Linear _ _ _ _ => True
  | GELU => True
  | Dropout p => dropout_is_off training p
  | Sequential ms =>
      fold_right (fun m' rest => deterministic_module training m' /\ rest) True ms
  | Residual md dr _ =>
      deterministic_module training md /\ deterministic_module training dr
  | MultiHeadAttention a => dropout_is_off training (attn_dropout a)
  | CrossAttention qn kvn a =>
      deterministic_module training qn /\ deterministic_module training kvn
      /\ deterministic_module training a
  | SelfAttention n a =>
      deterministic_module training n /\ deterministic_module training a
  | PerceiverEncoder ia _ l1 ln _ =>
      (forall x, det (input_adapter_forward ia x))
      /\ deterministic_module training l1
      /\ match ln with
         | Some l => deterministic_module training l
         | None => True
         end
  | PerceiverDecoder oa _ ca _ =>
      (forall x, det (output_adapter_forward oa x))
      /\ deterministic_module training ca
  end.

End Determinism.

Section ModuleInduction.

Context {T : Torch}.

Variable P : Module -> Prop.

Hypothesis P_LayerNorm : forall c w b, P (LayerNorm c w b).
Hypothesis P_Linear : forall i o w b, P (Linear i o w b).
Hypothesis P_GELU : P GELU.
Hypothesis P_Dropout : forall p, P (Dropout p).
Hypothesis P_Sequential : forall ms, Forall P ms -> P (Sequential ms).
Hypothesis P_Residual : forall md dr p, P md -> P dr -> P (Residual md dr p).
Hypothesis P_MultiHeadAttention : forall a, P (MultiHeadAttention a).
Hypothesis P_CrossAttention :
  forall qn kvn a, P qn -> P kvn -> P a -> P (CrossAttention qn kvn a).
Hypothesis P_SelfAttention : forall n a, P n -> P a -> P (SelfAttention n a).
Hypothesis P_PerceiverEncoder :
  forall ia nl l1 ln lat,
    P l1 -> match ln with Some l => P l | None => True end ->
    P (PerceiverEncoder ia nl l1 ln lat).
Hypothesis P_PerceiverDecoder :
  forall oa ls ca out, P ca -> P (PerceiverDecoder oa ls ca out).

(** Induction on a module tree, through the lists and options it nests. *)
Fixpoint Module_induction (m : Module) : P m :=
  match m with
  | LayerNorm c w b => P_LayerNorm c w b
  | Linear i o w b => P_Linear i o w b
  | GELU => P_GELU
  | Dropout p => P_Dropout p
  | Sequential ms =>
      P_Sequential ms
        ((fix all (l : list Module) : Forall P l :=
            match l with
            | [] => Forall_nil P
            | m' :: rest => Forall_cons m' (Module_induction m') (all rest)
            end) ms)
  | Residual md dr p => P_Residual md dr p (Module_induction md) (Module_induction dr)
  | MultiHeadAttention a => P_MultiHeadAttention a
  | CrossAttention qn kvn a =>
      P_CrossAttention qn kvn a (Module_induction qn) (Module_induction kvn)
        (Module_induction a)
  | SelfAttention n a => P_SelfAttention n a (Module_induction n) (Module_induction a)
  | PerceiverEncoder ia nl l1 ln lat =>
      P_PerceiverEncoder ia nl l1 ln lat (Module_induction l1)
        (match ln as o return match o with Some l => P l | None => True end with
         | Some l => Module_induction l
         | None => I
         end)
  | PerceiverDecoder oa ls ca out =>
      P_PerceiverDecoder oa ls ca out (Module_induction ca)
  end.

End ModuleInduction.

(* ================================================================== *)
(** ** Concrete models

    Small models over the reference library, on which the statements below
    are run. *)

Module Example.

Definition world : World (T := RefTorch) := mkWorld (T := RefTorch) 10 0.

(** A masking of a vocabulary of 12 tokens, of which the first three are
    special: unknown = 1, mask = 2. *)
Definition tm : TextMasking := mkTextMasking 12 1 2 3 (1 # 2).

Definition tokens : Tensor2 Z := mkTensor2 2 4 [5; 1; 7; 8; 9; 4; 11; 0].

Definition pad : Tensor2 bool :=
  mkTensor2 2 4 [false; false; false; false; false; false; false; true].

(** An input that already has shape (B, M, 1), with the identity as adapter. *)
Definition input_adapter : InputAdapter (T := RefTorch) :=
  mkInputAdapter (T := RefTorch) 1 (fun t => ret t).

Definition x : Ref.tensor := Ref.mkTensor [1; 2; 1] [1; 2]%Q.

(** An output adapter of output shape (3, 2) that returns what it is given. *)
Definition output_adapter : OutputAdapter (T := RefTorch) :=
  mkOutputAdapter (T := RefTorch) [3; 2] (fun t => ret t).

(** An input adapter for tokens: the token tensor (B, L) with one channel. *)
Definition token_adapter : InputAdapter (T := RefTorch) :=
  mkInputAdapter (T := RefTorch) 1
    (fun t => ret (Ref.mkTensor (Ref.t_shape t ++ [1]) (Ref.t_data t))).

(** Whether a run returned. *)
Definition returned {A} (r : Result A * World (T := RefTorch)) : bool :=
  match fst r with
  | Ok _ => true
  | Raise _ => false
  end.

(** The module a construction returned. *)
Definition built (r : Result (Module (T := RefTorch)) * World (T := RefTorch))
  : Module (T := RefTorch) :=
  match fst r with
  | Ok m => m
  | Raise _ => GELU
  end.

(** A latent of shape (1, 4, 9), for a decoder that expects (4, 8). *)
Definition latent_4_9 : Ref.tensor := Ref.mkTensor [1; 4; 9] (repeat 0%Q 36).

End Example.

(** The constructions of the examples: an encoder for the latent shape
    (2, 2), a decoder, a cross-attention layer, with one head everywhere and
    self-attention blocks of one layer. *)
Abbreviation encoder_run ia num_layers dropout :=
  (new_PerceiverEncoder ia (2, 2) num_layers 1 1 1 dropout Example.world).

Abbreviation decoder_run latent_shape dropout :=
  (new_PerceiverDecoder Example.output_adapter latent_shape 1 dropout Example.world).

Abbreviation cross_attention_run :=
  (cross_attention_layer (T := RefTorch) 2 3 1 0 Example.world).

Definition example_mlm : PerceiverMLM (T := RefTorch) :=
  mkPerceiverMLM (T := RefTorch)
    (Example.built (encoder_run Example.token_adapter 2 0))
    (Example.built (decoder_run (2, 2) 0)) Example.tm.

(** ** A small data set

    A file system that holds one negative and two positive reviews of the
    training split, and a tokenizer of single characters with the special
    tokens of [Example.tm]: padding = 0, unknown = 1, mask = 2, and the
    characters on the ids 3 to 11. *)

Module DataExample.

Definition neg_files : list (string * string) :=
  [(".cache/IMDB/aclImdb/train/neg/0_3.txt", "bad")]%string.

Definition pos_files : list (string * string) :=
  [(".cache/IMDB/aclImdb/train/pos/0_9.txt", "good film");
   (".cache/IMDB/aclImdb/train/pos/1_7.txt", "fine")]%string.

Fixpoint content (name : string) (files : list (string * string)) : Result string :=
  match files with
  | [] => Raise (RuntimeError "No such file or directory")
  | (n, text) :: rest => if String.eqb n name then Ok text else content name rest
  end.

Definition fs : FileSystem :=
  mkFileSystem
    (fun pattern =>
       if String.eqb pattern ".cache/IMDB/aclImdb/train/neg/*.txt" then map fst neg_files
       else if String.eqb pattern ".cache/IMDB/aclImdb/train/pos/*.txt" then map fst pos_files
       else [])
    (fun name => content name (neg_files ++ pos_files)).

Definition dataset : IMDBDataset :=
  mkIMDBDataset ["bad"; "good film"; "fine"]%string [0; 1; 1].

Definition char_id (c : ascii) : Z := 3 + Z.of_nat (nat_of_ascii c) mod 9.

Fixpoint ids_of (s : string) : list Z :=
  match s with
  | EmptyString => []
  | String c rest => char_id c :: ids_of rest
  end.

Definition truncate (trunc : option Z) (row : list Z) : list Z :=
  match trunc with
  | Some m => firstn (Z.to_nat m) row
  | None => row
  end.

Definition pad_rows (pad : option (Z * string)) (rows : list (list Z)) : list (list Z) :=
  match pad with
  | Some (id, _) =>
      let n := list_max (map (@length Z) rows) in
      map (fun row => row ++ repeat id (n - length row)) rows
  | None => rows
  end.

Definition tok : Tokenizer :=
  mkTokenizer
    (fun t => if String.eqb t "[PAD]" then Some 0
              else if String.eqb t "[UNK]" then Some 1
              else if String.eqb t "[MASK]" then Some 2
              else None)
    (fun pad trunc xs => pad_rows pad (map (fun s => truncate trunc (ids_of s)) xs))
    None None.

(** The collator of [tok] for sequences of at most 6 tokens. *)
Definition collator : Collator :=
  mkCollator 0 (enable_truncation (enable_padding tok 0 "[PAD]") 6).

Definition batch : list (Z * string) :=
  [(0, "bad"); (1, "good film"); (1, "fine")]%string.

(** What [collator] makes of [batch]: "good film" is cut after six
    characters, the two other texts are padded. *)
Definition ids : Tensor2 Z :=
  mkTensor2 3 6 [11; 10; 4; 0; 0; 0; 7; 6; 6; 4; 8; 6; 6; 9; 5; 5; 0; 0].

Definition pad_mask : Tensor2 bool :=
  mkTensor2 3 6 [false; false; false; true; true; true;
                 false; false; false; false; false; false;
                 false; false; false; false; true; true].

End DataExample.

(** Maskings of the vocabulary of [Example.tm] that select no position, and
    every ordinary one. *)
Module MaskingExample.

Definition never : TextMasking := mkTextMasking 12 1 2 3 0.

Definition always : TextMasking := mkTextMasking 12 1 2 3 1.

End MaskingExample.

(** A self-attention block of two layers of width 2 with one head. *)
Abbreviation block_run :=
  (self_attention_block (T := RefTorch) 2 2 1 0 Example.world).

(* ================================================================== *)
(** * Properties *)

(** ** The reference library meets the contract *)

Module RefFacts.

Lemma shape_eq_refl (s : list Z) : Ref.shape_eq s s = true.
Proof. unfold Ref.shape_eq. destruct (list_eq_dec Z.eq_dec s s); congruence. Qed.

Lemma Qltb_zero_off (p : Q) : (p == 0)%Q -> Qltb 0 p = false.
Proof.
  intros Hp. unfold Qltb. apply negb_false_iff, Qle_bool_iff.
  rewrite Hp. apply Qle_refl.
Qed.

Lemma dropout_inactive (x : Ref.tensor) (p : Q) (tr : bool) (g : Z) :
  (p == 0)%Q \/ tr = false -> Ref.dropout x p tr g = (x, g).
Proof.
  intros [Hp | Htr]; unfold Ref.dropout.
  - rewrite (Qltb_zero_off p Hp), andb_false_r. reflexivity.
  - rewrite Htr. reflexivity.
Qed.

Lemma dropout_keeps_shape (x : Ref.tensor) (p : Q) (tr : bool) (g : Z) :
  Ref.t_shape (fst (Ref.dropout x p tr g)) = Ref.t_shape x.
Proof.
  unfold Ref.dropout. destruct (tr && Qltb 0 p); [|reflexivity].
  destruct (Ref.drop_entries p (Ref.t_data x) g). reflexivity.
Qed.

Lemma draw_range (g : Z) : (0 <= fst (Ref.draw g) /\ fst (Ref.draw g) < 1)%Q.
Proof.
  unfold Ref.draw; cbn [fst].
  pose proof (Z.mod_pos_bound (Ref.lcg g / 65536) 1024 ltac:(lia)) as Hb.
  unfold Qle, Qlt; cbn [Qnum Qden]. lia.
Qed.

Lemma draws_length (n : nat) : forall g, length (fst (Ref.draws n g)) = n.
Proof.
  induction n as [|n IH]; intros g; cbn [Ref.draws]; [reflexivity|].
  destruct (Ref.draw g) as [u g1]. specialize (IH g1).
  destruct (Ref.draws n g1) as [us g2]. cbn in *. now rewrite IH.
Qed.

Lemma draws_range (n : nat) : forall g u,
  In u (fst (Ref.draws n g)) -> (0 <= u /\ u < 1)%Q.
Proof.
  induction n as [|n IH]; intros g u; cbn [Ref.draws]; [intros []|].
  pose proof (draw_range g) as Hd.
  destruct (Ref.draw g) as [u1 g1]. specialize (IH g1 u).
  destruct (Ref.draws n g1) as [us g2]. cbn in *.
  intros [<- | Hin]; auto.
Qed.

Lemma draws_int_spec (lo hi : Z) (n : nat) : lo < hi -> forall g,
  length (fst (Ref.draws_int lo hi n g)) = n
  /\ Forall (fun z => lo <= z < hi) (fst (Ref.draws_int lo hi n g)).
Proof.
  intros Hlt. induction n as [|n IH]; intros g; cbn [Ref.draws_int].
  - split; [reflexivity | constructor].
  - specialize (IH (Ref.lcg g)).
    destruct (Ref.draws_int lo hi n (Ref.lcg g)) as [zs g2]. cbn in *.
    destruct IH as [IHl IHf]. split; [now rewrite IHl|].
    constructor; [|exact IHf].
    pose proof (Z.mod_pos_bound (Ref.lcg g / 65536) (hi - lo) ltac:(lia)). lia.
Qed.

Lemma spec : TorchSpec RefTorch.
Proof.
  constructor; cbn [Tensor Generator shape tensor_init layer_norm linear gelu
                    dropout multi_head_attention_forward tensor_add einops_repeat
                    narrow_seq of_long of_bool rand randint RefTorch].
  - intros s g t g'. unfold Ref.tensor_init.
    destruct (forallb _ s); [|discriminate].
    destruct (Ref.draws (Ref.numel s) g). intros [= <- _]. reflexivity.
  - intros x c w b Hw Hb Hx. unfold Ref.layer_norm.
    rewrite Hw, Hb, Hx, !shape_eq_refl, Z.eqb_refl. cbn. eauto.
  - intros x w b pre i o Hw Hb Hx. unfold Ref.linear.
    rewrite Hw, Hb, Hx, last_last, Z.eqb_refl, Z.eqb_refl, removelast_last.
    rewrite length_app. cbn [length].
    replace (Nat.eqb (length pre + 1) 0) with false
      by (symmetry; apply Nat.eqb_neq; lia).
    cbn. eauto.
  - reflexivity.
  - apply dropout_keeps_shape.
  - intros x p tr g H. now rewrite dropout_inactive.
  - intros e h ps p tr q k v kpm g b tq tk kd vd Hh Hm Hps Hq Hk Hv Hkpm.
    unfold Ref.multi_head_attention_forward. rewrite Hq, Hk, Hv, Hps.
    replace (0 <? h) with true by (symmetry; apply Z.ltb_lt; exact Hh).
    rewrite Hm, !Z.eqb_refl.
    assert (Ref.mask_ok b tk kpm = true) as ->.
    { destruct kpm as [m|]; [|reflexivity]. cbn. rewrite (Hkpm m eq_refl).
      apply shape_eq_refl. }
    destruct (list_eq_dec _ _ _) as [_|Hne]; [|congruence]. cbn [andb].
    pose proof (dropout_keeps_shape (Ref.attend q v) p tr g) as Hs.
    destruct (Ref.dropout (Ref.attend q v) p tr g) as [y g']. cbn [fst] in Hs.
    exists y, None, g'. split; [reflexivity|].
    rewrite Hs. exact Hq.
  - intros e h ps p tr q k v kpm am g1 g2 H.
    unfold Ref.multi_head_attention_forward.
    destruct (Ref.t_shape q) as [|? [|? [|? [|]]]]; try reflexivity.
    destruct (Ref.t_shape k) as [|? [|? [|? [|]]]]; try reflexivity.
    destruct (Ref.t_shape v) as [|? [|? [|? [|]]]]; try reflexivity.
    rewrite !(dropout_inactive (Ref.attend q v) p tr) by exact H.
    match goal with |- context [if ?c then _ else _] => destruct c end; reflexivity.
  - intros a b H. unfold Ref.tensor_add. rewrite H, shape_eq_refl. cbn. eauto.
  - reflexivity.
  - intros t l b k c Ht Hl. unfold Ref.narrow_seq. rewrite Ht.
    rewrite (Z.max_r 0 l Hl). eauto.
  - reflexivity.
  - reflexivity.
  - apply draws_length.
  - apply draws_range.
  - intros lo hi n g Hlt. unfold Ref.randint.
    replace (lo <? hi) with true by (symmetry; apply Z.ltb_lt; exact Hlt).
    destruct (draws_int_spec lo hi n Hlt g) as [Hl Hf].
    destruct (Ref.draws_int lo hi n g) as [zs g']. eauto.
  - intros lo hi n g Hle. unfold Ref.randint.
    replace (lo <? hi) with false by (symmetry; apply Z.ltb_ge; exact Hle).
    eauto.
Qed.

End RefFacts.

(* ================================================================== *)
(** ** Rounding to float32 *)

Lemma floor_bounds (q : Q) :
  (inject_Z (Qfloor q) <= q /\ q < inject_Z (Qfloor q) + 1)%Q.
Proof.
  split; [apply Qfloor_le|].
  pose proof (Qlt_floor q) as H. rewrite inject_Z_plus in H. exact H.
Qed.

Lemma round_half_even_cases (q : Q) :
  round_half_even q = Qfloor q \/ round_half_even q = Qfloor q + 1.
Proof.
  unfold round_half_even.
  destruct (q - inject_Z (Qfloor q) ?= 1 # 2)%Q; auto.
  destruct (Z.even (Qfloor q)); auto.
Qed.

Lemma round_half_even_near (q : Q) :
  (inject_Z (round_half_even q) - (1 # 2) <= q
   /\ q <= inject_Z (round_half_even q) + (1 # 2))%Q.
Proof.
  destruct (floor_bounds q) as [Hl Hu].
  unfold round_half_even.
  destruct (q - inject_Z (Qfloor q) ?= 1 # 2)%Q eqn:E.
  - apply Qeq_alt in E.
    destruct (Z.even (Qfloor q)); rewrite ?inject_Z_plus;
      change (inject_Z 1) with 1%Q; split; lra.
  - apply Qlt_alt in E. split; lra.
  - apply Qgt_alt in E. rewrite inject_Z_plus. change (inject_Z 1) with 1%Q.
    split; lra.
Qed.

Lemma round_half_even_ge (q : Q) (m : Z) :
  (inject_Z m <= q)%Q -> m <= round_half_even q.
Proof.
  intros H. apply Qfloor_resp_le in H. rewrite Qfloor_Z in H.
  destruct (round_half_even_cases q) as [-> | ->]; lia.
Qed.

Lemma round_half_even_le (q : Q) (m : Z) :
  (q <= inject_Z m)%Q -> round_half_even q <= m.
Proof.
  intros H. pose proof (Qfloor_resp_le _ _ H) as Hf. rewrite Qfloor_Z in Hf.
  destruct (floor_bounds q) as [Hl Hu].
  unfold round_half_even.
  assert ((1 # 2 <= q - inject_Z (Qfloor q))%Q -> Qfloor q + 1 <= m) as Hup.
  { intros Hd. assert (inject_Z (Qfloor q) < inject_Z m)%Q as Hlt by lra.
    rewrite <- Zlt_Qlt in Hlt. lia. }
  destruct (q - inject_Z (Qfloor q) ?= 1 # 2)%Q eqn:E.
  - apply Qeq_alt in E. destruct (Z.even (Qfloor q)); [lia|]. apply Hup. lra.
  - lia.
  - apply Qgt_alt in E. apply Hup. lra.
Qed.

Lemma Qpow2_pos (e : Z) : (0 < 2 ^ e)%Q.
Proof. apply Qpower_0_lt. reflexivity. Qed.

Lemma Qpow2_add (a b : Z) : (2 ^ (a + b) == 2 ^ a * 2 ^ b)%Q.
Proof. apply Qpower_plus. discriminate. Qed.

Lemma Qpow2_cancel (e : Z) : (2 ^ e * 2 ^ (- e) == 1)%Q.
Proof. rewrite <- Qpow2_add, Z.add_opp_diag_r. reflexivity. Qed.

Lemma Qpow2_Z (e : Z) : 0 <= e -> (2 ^ e == inject_Z (2 ^ e))%Q.
Proof. intros H. symmetry. apply (Zpower_Qpower 2 e H). Qed.

Lemma Qpow2_ge_1 (e : Z) : 0 <= e -> (1 <= 2 ^ e)%Q.
Proof. intros H. apply Qpower_1_le; [lra | exact H]. Qed.

Lemma Qpow2_le (a b : Z) : a <= b -> (2 ^ a <= 2 ^ b)%Q.
Proof.
  intros H. replace b with (a + (b - a)) by lia. rewrite Qpow2_add.
  pose proof (Qpow2_pos a). pose proof (Qpow2_ge_1 (b - a) ltac:(lia)). nra.
Qed.

Lemma exponent_below_1 (q : Q) : (0 < q)%Q -> (q < 1)%Q -> exponent q <= -1.
Proof.
  intros H0 H1. destruct q as [a b]. unfold exponent. cbn [Qnum Qden].
  assert (0 < a) as Ha by (unfold Qlt in H0; cbn in H0; lia).
  assert (a < Zpos b) as Hab by (unfold Qlt in H1; cbn in H1; lia).
  pose proof (Z.log2_le_mono a (Zpos b) ltac:(lia)) as Hl.
  destruct (Qle_bool (2 ^ (Z.log2 a - Z.log2 (Z.pos b))) (a # b)) eqn:E; [|lia].
  apply Qle_bool_iff in E.
  destruct (Z.eq_dec (Z.log2 a - Z.log2 (Z.pos b)) 0) as [E0|]; [|lia].
  rewrite E0 in E. change (2 ^ 0)%Q with 1%Q in E. lra.
Qed.

Lemma exponent_from_1 (q : Q) : (1 <= q)%Q -> 0 <= exponent q.
Proof.
  intros H1. destruct q as [a b]. unfold exponent. cbn [Qnum Qden].
  assert (Zpos b <= a) as Hab by (unfold Qle in H1; cbn in H1; lia).
  pose proof (Z.log2_le_mono (Zpos b) a Hab) as Hl.
  destruct (Qle_bool (2 ^ (Z.log2 a - Z.log2 (Z.pos b))) (a # b)) eqn:E; [lia|].
  destruct (Z.eq_dec (Z.log2 a - Z.log2 (Z.pos b)) 0) as [E0|]; [|lia].
  rewrite E0 in E. change (2 ^ 0)%Q with 1%Q in E.
  apply Qle_bool_iff in H1. congruence.
Qed.

Lemma exponent_le (q : Q) : (0 < q)%Q -> (2 ^ exponent q <= q)%Q.
Proof.
  intros H0. destruct q as [a b]. unfold exponent. cbn [Qnum Qden].
  assert (0 < a) as Ha by (unfold Qlt in H0; cbn in H0; lia).
  destruct (Qle_bool (2 ^ (Z.log2 a - Z.log2 (Z.pos b))) (a # b)) eqn:E;
    [now apply Qle_bool_iff in E|].
  destruct (Z.log2_spec a Ha) as [Hla _].
  destruct (Z.log2_spec (Zpos b) ltac:(lia)) as [_ Hlb].
  pose proof (Z.log2_nonneg a). pose proof (Z.log2_nonneg (Zpos b)).
  replace (Z.log2 a - Z.log2 (Z.pos b) - 1)
    with (Z.log2 a + - Z.succ (Z.log2 (Z.pos b))) by lia.
  rewrite Qpow2_add.
  pose proof (Qpow2_cancel (Z.succ (Z.log2 (Z.pos b)))) as Hc.
  pose proof (Qpow2_pos (- Z.succ (Z.log2 (Z.pos b)))) as Hp.
  rewrite (Qpow2_Z (Z.log2 a)) by lia.
  rewrite (Qpow2_Z (Z.succ (Z.log2 (Z.pos b)))) in Hc by lia.
  assert (inject_Z (2 ^ Z.log2 a) <= inject_Z a)%Q as Ja by (rewrite <- Zle_Qle; lia).
  assert (inject_Z (Zpos b) <= inject_Z (2 ^ Z.succ (Z.log2 (Z.pos b))))%Q as Jb
      by (rewrite <- Zle_Qle; lia).
  assert (a # b == inject_Z a / inject_Z (Zpos b))%Q as -> by apply Qmake_Qdiv.
  apply Qle_shift_div_l; [unfold Qlt; cbn; lia|].
  assert (0 < inject_Z (Zpos b))%Q by (unfold Qlt; cbn; lia).
  assert (0 <= inject_Z (2 ^ Z.log2 a))%Q by (rewrite <- (Zle_Qle 0); lia).
  set (A := inject_Z (2 ^ Z.log2 a)) in *. set (B := inject_Z (Z.pos b)) in *.
  set (C := inject_Z (2 ^ Z.succ (Z.log2 (Z.pos b)))) in *.
  set (D := (2 ^ (- Z.succ (Z.log2 (Z.pos b))))%Q) in *.
  assert (0 <= A * D)%Q as Hx by nra.
  assert (A * (C * D) == A)%Q as Hy by (rewrite Hc; ring).
  set (X := (A * D)%Q) in *.
  assert (X * B <= X * C)%Q as Hz by nra.
  assert (X * C == A * (C * D))%Q as Hw by (unfold X; ring).
  lra.
Qed.

Lemma exponent_upto_1 (q : Q) : (0 < q)%Q -> (q <= 1)%Q -> exponent q <= 0.
Proof.
  intros H0 H1. destruct q as [a b]. unfold exponent. cbn [Qnum Qden].
  assert (0 < a) as Ha by (unfold Qlt in H0; cbn in H0; lia).
  assert (a <= Zpos b) as Hab by (unfold Qle in H1; cbn in H1; lia).
  pose proof (Z.log2_le_mono a (Zpos b) Hab) as Hl.
  destruct (Qle_bool _ _); lia.
Qed.

Lemma Qabs_nonneg_eq (q : Q) : (0 <= q)%Q -> Qabs q = q.
Proof.
  destruct q as [a b]. unfold Qle. cbn. intros H.
  rewrite Z.abs_eq by lia. reflexivity.
Qed.

Lemma round_binary_value (prec emin : Z) (q : Q) : ~ (q == 0)%Q ->
  (round_binary prec emin q
   == inject_Z (round_half_even
                  (q / 2 ^ Z.max (exponent (Qabs q) - (prec - 1)) emin))
      * 2 ^ Z.max (exponent (Qabs q) - (prec - 1)) emin)%Q.
Proof.
  intros H. unfold round_binary.
  destruct (Qeq_bool q 0) eqn:E; [apply Qeq_bool_iff in E; contradiction|].
  apply Qred_correct.
Qed.

Lemma round_binary_zero (prec emin : Z) (q : Q) :
  (q == 0)%Q -> round_binary prec emin q = 0%Q.
Proof.
  intros H. unfold round_binary. apply Qeq_bool_iff in H. now rewrite H.
Qed.

(** Rounding keeps the sign. *)
Lemma round_binary_nonpos (prec emin : Z) (q : Q) :
  (q <= 0)%Q -> (round_binary prec emin q <= 0)%Q.
Proof.
  intros H. destruct (Qeq_dec q 0) as [E|E].
  - rewrite (round_binary_zero _ _ _ E). apply Qle_refl.
  - rewrite (round_binary_value _ _ _ E).
    set (u := Z.max _ _). pose proof (Qpow2_pos u) as Hu.
    assert (round_half_even (q / 2 ^ u) <= 0) as Hr.
    { apply round_half_even_le. change (inject_Z 0) with 0%Q.
      apply Qle_shift_div_r; [exact Hu | lra]. }
    rewrite Zle_Qle in Hr. change (inject_Z 0) with 0%Q in Hr.
    set (r := inject_Z _) in *. nra.
Qed.

Lemma float32_from_1 (q : Q) : (1 <= q)%Q -> (1 <= float32 q)%Q.
Proof.
  intros H. unfold float32.
  assert (~ q == 0)%Q as Hnz by (intros Hz; lra).
  rewrite (round_binary_value _ _ _ Hnz).
  rewrite (Qabs_nonneg_eq q) by lra.
  pose proof (exponent_from_1 q H) as He.
  pose proof (exponent_le q ltac:(lra)) as Hle.
  replace (Z.max (exponent q - (24 - 1)) (-149)) with (exponent q - 23) by lia.
  set (e := exponent q) in *.
  pose proof (Qpow2_pos (e - 23)) as Hu.
  assert (2 ^ e == 2 ^ 23 * 2 ^ (e - 23))%Q as Hsplit
      by (rewrite <- Qpow2_add; replace (23 + (e - 23)) with e by lia; reflexivity).
  assert (8388608 <= round_half_even (q / 2 ^ (e - 23))) as Hr.
  { apply round_half_even_ge. apply Qle_shift_div_l; [exact Hu|].
    change (inject_Z 8388608) with (2 ^ 23)%Q. rewrite <- Hsplit. exact Hle. }
  rewrite Zle_Qle in Hr. change (inject_Z 8388608) with (2 ^ 23)%Q in Hr.
  pose proof (Qpow2_ge_1 e He) as H1.
  set (r := inject_Z _) in *. set (U := (2 ^ (e - 23))%Q) in *.
  set (P := (2 ^ 23)%Q) in *. set (W := (2 ^ e)%Q) in *.
  assert (P * U <= r * U)%Q by nra. lra.
Qed.

Lemma float32_unit_interval (q : Q) : (0 <= q)%Q -> (q <= 1)%Q ->
  (0 <= float32 q)%Q /\ (float32 q <= 1)%Q
  /\ (Qabs (float32 q - q) <= 1 # 16777216)%Q.
Proof.
  intros H0 H1. unfold float32. destruct (Qeq_dec q 0) as [E|E].
  - rewrite (round_binary_zero _ _ _ E). split; [lra|]. split; [lra|].
    apply Qabs_Qle_condition. split; lra.
  - rewrite (round_binary_value _ _ _ E).
    rewrite (Qabs_nonneg_eq q) by exact H0.
    assert (0 < q)%Q as Hq by (destruct (Qle_lt_or_eq _ _ H0) as [?|Hz];
                                [assumption | symmetry in Hz; contradiction]).
    pose proof (exponent_upto_1 q Hq H1) as He.
    set (u := Z.max (exponent q - (24 - 1)) (-149)).
    assert (u <= -24 + 1) as Hu1 by (unfold u; lia).
    pose proof (Qpow2_pos u) as Hu.
    pose proof (Qpow2_cancel u) as Hc.
    pose proof (Qpow2_Z (- u) ltac:(lia)) as HM.
    pose proof (Qpow2_le u (-23) ltac:(lia)) as Hsmall.
    change (2 ^ (-23))%Q with (1 # 8388608)%Q in Hsmall.
    assert (q / 2 ^ u == q * 2 ^ (- u))%Q as Hy.
    { unfold Qdiv. apply Qmult_comp; [reflexivity|].
      rewrite <- Qpower_opp. reflexivity. }
    destruct (round_half_even_near (q / 2 ^ u)) as [Hn1 Hn2].
    assert (0 <= round_half_even (q / 2 ^ u)) as Hr0.
    { apply round_half_even_ge. change (inject_Z 0) with 0%Q.
      apply Qle_shift_div_l; [exact Hu | lra]. }
    assert (round_half_even (q / 2 ^ u) <= 2 ^ (- u)) as Hr1.
    { apply round_half_even_le. rewrite Hy, <- HM.
      pose proof (Qpow2_pos (- u)). nra. }
    rewrite Zle_Qle in Hr0, Hr1. change (inject_Z 0) with 0%Q in Hr0.
    rewrite <- HM in Hr1.
    set (Y := (q / 2 ^ u)%Q) in *.
    set (r := inject_Z (round_half_even Y)) in *.
    set (U := (2 ^ u)%Q) in *. set (V := (2 ^ (- u))%Q) in *.
    assert (Y * U == q)%Q as Hq1.
    { rewrite Hy, <- Qmult_assoc, (Qmult_comm V U), Hc. ring. }
    assert ((r - (1 # 2)) * U <= Y * U)%Q by nra.
    assert (Y * U <= (r + (1 # 2)) * U)%Q by nra.
    assert (r * U <= V * U)%Q by nra.
    assert (V * U == 1)%Q by (rewrite Qmult_comm; exact Hc).
    split; [nra|]. split; [lra|].
    apply Qabs_Qle_condition. split; nra.
Qed.

Lemma float32_nonpos (q : Q) : (q <= 0)%Q -> (float32 q <= 0)%Q.
Proof. apply round_binary_nonpos. Qed.

(** The two thresholds of the source. *)
Lemma replace_threshold_value : replace_threshold = 7549747 # 8388608.
Proof. vm_compute. reflexivity. Qed.

Lemma random_threshold_value : random_threshold = 14913081 # 134217728.
Proof. vm_compute. reflexivity. Qed.

(* ================================================================== *)
(** ** Lists as flat tensors *)

Lemma length_map2 {A B C} (f : A -> B -> C) (l1 : list A) : forall l2,
  length (map2 f l1 l2) = Nat.min (length l1) (length l2).
Proof.
  induction l1 as [|a l1 IH]; intros [|b l2]; cbn; auto.
Qed.

Lemma nth_map2 {A B C} (f : A -> B -> C) (d : C) (d1 : A) (d2 : B) (l1 : list A) :
  forall l2 k, (k < length l1)%nat -> (k < length l2)%nat ->
  nth k (map2 f l1 l2) d = f (nth k l1 d1) (nth k l2 d2).
Proof.
  induction l1 as [|a l1 IH]; intros [|b l2] [|k] H1 H2; cbn in *; try lia; auto.
  apply IH; lia.
Qed.

Lemma nth_map_in {A B} (f : A -> B) (d : B) (d1 : A) (l : list A) (k : nat) :
  (k < length l)%nat -> nth k (map f l) d = f (nth k l d1).
Proof.
  intros H. rewrite (nth_indep _ d (f d1)) by (now rewrite length_map).
  apply map_nth.
Qed.

Lemma length_masked_fill (x : list Z) (mask : list bool) (v : Z) :
  length mask = length x -> length (masked_fill x mask v) = length x.
Proof. intros H. unfold masked_fill. rewrite length_map2. lia. Qed.

Lemma nth_masked_fill (x : list Z) (mask : list bool) (v : Z) (k : nat) :
  length mask = length x -> (k < length x)%nat ->
  nth k (masked_fill x mask v) 0 = if nth k mask false then v else nth k x 0.
Proof.
  intros Hl Hk. unfold masked_fill.
  rewrite (nth_map2 _ 0 0 false) by lia. reflexivity.
Qed.

Lemma length_index_put (x : list Z) : forall mask src,
  length (index_put x mask src) = length x.
Proof.
  induction x as [|v x IH]; intros [|[|] mask] src; cbn; auto.
  destruct src; cbn; auto.
Qed.

Lemma mask_sum_cons (b : bool) (mask : list bool) :
  mask_sum (b :: mask) = ((if b then 1 else 0) + mask_sum mask)%nat.
Proof. unfold mask_sum. destruct b; cbn; reflexivity. Qed.

Lemma rank_lt (mask : list bool) : forall k,
  nth k mask false = true -> (rank mask k < mask_sum mask)%nat.
Proof.
  unfold rank.
  induction mask as [|b mask IH]; intros [|k] H; cbn [nth firstn] in *;
    try discriminate.
  - subst b. rewrite mask_sum_cons. cbn. lia.
  - rewrite !mask_sum_cons. specialize (IH k H). lia.
Qed.

(** Positions at which the mask holds have increasing ranks. *)
Lemma rank_increasing (mask : list bool) : forall k k',
  (k < k')%nat -> nth k mask false = true -> (rank mask k < rank mask k')%nat.
Proof.
  unfold rank.
  induction mask as [|b mask IH]; intros [|k] [|k'] Hlt H; cbn [nth firstn] in *;
    try discriminate; try lia.
  - subst b. rewrite mask_sum_cons. cbn. lia.
  - rewrite !mask_sum_cons. specialize (IH k k' ltac:(lia) H). lia.
Qed.

Lemma nth_index_put (x : list Z) : forall mask src k,
  length mask = length x -> length src = mask_sum mask -> (k < length x)%nat ->
  nth k (index_put x mask src) 0
  = if nth k mask false then nth (rank mask k) src 0 else nth k x 0.
Proof.
  unfold rank.
  induction x as [|v x IH]; intros mask src k Hl Hs Hk; cbn in Hk; [lia|].
  destruct mask as [|b mask]; [discriminate|]. injection Hl as Hl.
  rewrite mask_sum_cons in Hs.
  destruct b.
  - destruct src as [|s src]; [discriminate|]. injection Hs as Hs.
    destruct k as [|k]; cbn [index_put nth firstn]; [reflexivity|].
    rewrite mask_sum_cons. cbn [Nat.add nth]. apply IH; auto; lia.
  - destruct k as [|k]; cbn [index_put nth firstn]; [reflexivity|].
    rewrite mask_sum_cons. cbn [Nat.add]. apply IH; auto; lia.
Qed.

(* ================================================================== *)
(** ** Text masking *)

Section Masking.

Context {T : Torch} {TS : TorchSpec T}.

Lemma expand2_same {A B} (x : Tensor2 A) (pm : Tensor2 B) :
  same_shape2 x pm = true -> expand2 (nrows x) (ncols x) pm = Some (elems pm).
Proof.
  unfold same_shape2, expand2. intros H.
  apply andb_true_iff in H as [H1 H2].
  apply Nat.eqb_eq in H1, H2. rewrite <- H1, <- H2, !Nat.eqb_refl. reflexivity.
Qed.

Lemma same_shape2_numel {A B} (x : Tensor2 A) (pm : Tensor2 B) :
  same_shape2 x pm = true -> numel2 pm = numel2 x.
Proof.
  unfold same_shape2, numel2. intros H.
  apply andb_true_iff in H as [H1 H2].
  apply Nat.eqb_eq in H1, H2. congruence.
Qed.

(** What a call computes, with the draws made explicit. *)
Lemma TextMasking_forward_run (tm : TextMasking) (x : Tensor2 Z) (pm : Tensor2 bool)
    (pad : list bool) (w : World) :
  expand2 (nrows x) (ncols x) pm = Some pad ->
  TextMasking_forward tm x (Some pm) w =
    let n := numel2 x in
    let sel := is_selected tm (elems x) pad (draw_1 n (gen w)) in
    let sel1 := is_selected_1 sel (draw_2 n (gen w)) in
    let sel2 := is_selected_2 sel1 (draw_3 n (gen w)) in
    match randint (num_special_tokens tm) (vocab_size tm) (mask_sum sel2)
            (gen_3 n (gen w)) with
    | (Ok src, g4) =>
        match masked_assign (masked_fill (elems x) sel1 (mask_token_id tm)) sel2 src with
        | Ok x2 =>
            (Ok (mkTensor2 (nrows x) (ncols x) x2,
                 mkTensor2 (nrows x) (ncols x)
                   (masked_fill (elems x) (map negb sel) ignore_index)),
             mkWorld g4 (next_id w))
        | Raise e => (Raise e, mkWorld g4 (next_id w))
        end
    | (Raise e, g4) => (Raise e, mkWorld g4 (next_id w))
    end.
Proof.
  intros Hpad.
  unfold TextMasking_forward, rand_like, sample, sample_result, bind, lift, ret.
  rewrite Hpad.
  unfold draw_3, draw_2, draw_1, gen_3, gen_2, gen_1. cbn zeta.
  destruct (rand (numel2 x) (gen w)) as [r1 g1]. cbn [gen next_id fst snd].
  destruct (rand (numel2 x) g1) as [r2 g2]. cbn [gen next_id fst snd].
  destruct (rand (numel2 x) g2) as [r3 g3]. cbn [gen next_id fst snd].
  destruct (randint _ _ _ g3) as [[src|e] g4]; [|reflexivity].
  destruct (masked_assign _ _ src); reflexivity.
Qed.

Section Call.

Variables (tm : TextMasking) (x : Tensor2 Z) (pm : Tensor2 bool) (w : World).
Hypothesis Hx : wf2 x.
Hypothesis Hpm : wf2 pm.
Hypothesis Hshape : same_shape2 x pm = true.

Let n := numel2 x.
Let sel := selected_of tm x pm w.
Let sel1 := selected_1_of tm x pm w.
Let sel2 := selected_2_of tm x pm w.

Lemma length_pad : length (elems pm) = n.
Proof. rewrite Hpm. now apply same_shape2_numel. Qed.

Lemma length_is_special : length (is_special tm (elems x) (elems pm)) = n.
Proof.
  unfold is_special. rewrite length_map2, length_map, length_pad, Hx.
  fold n. lia.
Qed.

Lemma length_sel : length sel = n.
Proof.
  unfold sel, selected_of, is_selected, is_input, draw_1.
  rewrite length_map2, !length_map, rand_length, length_is_special.
  fold n. lia.
Qed.

Lemma length_sel1 : length sel1 = n.
Proof.
  unfold sel1, selected_1_of, is_selected_1, draw_2.
  fold sel. rewrite length_map2, length_map, rand_length, length_sel.
  fold n. lia.
Qed.

Lemma length_sel2 : length sel2 = n.
Proof.
  unfold sel2, selected_2_of, is_selected_2, draw_3.
  fold sel1. rewrite length_map2, length_map, rand_length, length_sel1.
  fold n. lia.
Qed.

(** The masks, position by position. *)
Lemma nth_is_special (k : nat) : (k < n)%nat ->
  nth k (is_special tm (elems x) (elems pm)) false
  = (nth k (elems x) 0 =? unk_token_id tm) || nth k (elems pm) false.
Proof.
  intros Hk. unfold is_special.
  rewrite (nth_map2 _ false false false)
    by (rewrite ?length_map, ?length_pad, ?Hx; exact Hk).
  rewrite (nth_map_in _ false 0) by (rewrite Hx; exact Hk). reflexivity.
Qed.

Lemma nth_sel (k : nat) : (k < n)%nat ->
  nth k sel false
  = Qltb (nth k (draw_1 n (gen w)) 0%Q) (float32 (mask_p tm))
    && negb (nth k (is_special tm (elems x) (elems pm)) false).
Proof.
  intros Hk. unfold sel, selected_of, is_selected, is_input. fold n.
  rewrite (nth_map2 _ false false false)
    by (unfold draw_1; rewrite !length_map, ?rand_length, ?length_is_special; exact Hk).
  rewrite (nth_map_in _ false 0%Q) by (unfold draw_1; rewrite rand_length; exact Hk).
  rewrite (nth_map_in _ false false) by (rewrite length_is_special; exact Hk).
  reflexivity.
Qed.

Lemma nth_sel1 (k : nat) : (k < n)%nat ->
  nth k sel1 false
  = nth k sel false && Qltb (nth k (draw_2 n (gen w)) 0%Q) replace_threshold.
Proof.
  intros Hk. unfold sel1, selected_1_of, is_selected_1. fold sel n.
  rewrite (nth_map2 _ false false false)
    by (unfold draw_2; rewrite ?length_map, ?rand_length, ?length_sel; exact Hk).
  rewrite (nth_map_in _ false 0%Q) by (unfold draw_2; rewrite rand_length; exact Hk).
  reflexivity.
Qed.

Lemma nth_sel2 (k : nat) : (k < n)%nat ->
  nth k sel2 false
  = nth k sel1 false && Qltb (nth k (draw_3 n (gen w)) 0%Q) random_threshold.
Proof.
  intros Hk. unfold sel2, selected_2_of, is_selected_2. fold sel1 n.
  rewrite (nth_map2 _ false false false)
    by (unfold draw_3; rewrite ?length_map, ?rand_length, ?length_sel1; exact Hk).
  rewrite (nth_map_in _ false 0%Q) by (unfold draw_3; rewrite rand_length; exact Hk).
  reflexivity.
Qed.

(** A call that returns has made the substitutions and the labels from the
    three masks and the tokens [randint] drew. *)
Lemma TextMasking_forward_returns (x' labels : Tensor2 Z) (w' : World) :
  TextMasking_forward tm x (Some pm) w = (Ok (x', labels), w') ->
  exists src,
    randint (num_special_tokens tm) (vocab_size tm) (mask_sum sel2)
      (gen_3 n (gen w)) = (Ok src, gen w')
    /\ length src = mask_sum sel2
    /\ x' = mkTensor2 (nrows x) (ncols x)
              (index_put (masked_fill (elems x) sel1 (mask_token_id tm)) sel2 src)
    /\ labels = mkTensor2 (nrows x) (ncols x)
                  (masked_fill (elems x) (map negb sel) ignore_index).
Proof.
  rewrite (TextMasking_forward_run tm x pm (elems pm) w (expand2_same x pm Hshape)).
  cbn zeta. fold n. unfold sel2, sel1, sel, selected_2_of, selected_1_of, selected_of.
  fold n.
  destruct (randint _ _ _ _) as [[src|e] g4]; [|discriminate].
  unfold masked_assign.
  destruct (Nat.eqb (length src) _) eqn:Hlen; [|discriminate].
  apply Nat.eqb_eq in Hlen.
  intros [= <- <- <-]. exists src. cbn [gen]. auto.
Qed.

(** With a non-empty range of ordinary tokens the call returns. *)
Lemma TextMasking_forward_total :
  num_special_tokens tm < vocab_size tm ->
  exists x' labels w',
    TextMasking_forward tm x (Some pm) w = (Ok (x', labels), w').
Proof.
  intros Hrange.
  rewrite (TextMasking_forward_run tm x pm (elems pm) w (expand2_same x pm Hshape)).
  cbn zeta.
  match goal with |- context [randint ?lo ?hi ?c ?g] =>
    destruct (randint_ok lo hi c g Hrange) as (src & g4 & -> & Hlen & _) end.
  unfold masked_assign. rewrite Hlen, Nat.eqb_refl. eauto.
Qed.

End Call.

End Masking.

(* ================================================================== *)
(** ** Counting draws on a grid *)

Lemma Zpos_of_nat (k : nat) : k <> O -> Z.pos (Pos.of_nat k) = Z.of_nat k.
Proof.
  intros Hk. rewrite <- positive_nat_Z, Nat2Pos.id by exact Hk. reflexivity.
Qed.

Lemma count_below (a : nat) : forall n s,
  length (filter (fun i => Nat.ltb i a) (seq s n)) = Nat.min (a - s) n.
Proof.
  induction n as [|n IH]; intros s; cbn [seq filter length]; [lia|].
  destruct (Nat.ltb s a) eqn:E.
  - apply Nat.ltb_lt in E. cbn [length]. rewrite IH. lia.
  - apply Nat.ltb_ge in E. rewrite IH. lia.
Qed.

Lemma length_filter_map {A B} (f : B -> bool) (g : A -> B) (l : list A) :
  length (filter f (map g l)) = length (filter (fun a => f (g a)) l).
Proof.
  induction l as [|a l IH]; cbn; [reflexivity|].
  destruct (f (g a)); cbn; now rewrite IH.
Qed.

Lemma length_filter_negb {A} (f : A -> bool) (l : list A) :
  length (filter (fun a => negb (f a)) l) = (length l - length (filter f l))%nat.
Proof.
  induction l as [|a l IH]; cbn [filter length]; [reflexivity|].
  pose proof (filter_length_le f l).
  destruct (f a); cbn [negb length]; rewrite IH; lia.
Qed.

Lemma length_filter_prod {A B} (f : A -> bool) (g : B -> bool) (l2 : list B) :
  forall l1 : list A,
  length (filter (fun p => f (fst p) && g (snd p)) (list_prod l1 l2))
  = (length (filter f l1) * length (filter g l2))%nat.
Proof.
  induction l1 as [|a l1 IH]; cbn [list_prod filter length]; [reflexivity|].
  rewrite filter_app, length_app, IH, length_filter_map. cbn [fst snd].
  destruct (f a); cbn [andb length].
  - rewrite (filter_ext (fun b => g b) g) by reflexivity. lia.
  - rewrite (filter_ext (fun _ : B => false) (fun b => negb true)) by reflexivity.
    assert (forall l : list B, filter (fun _ => negb true) l = []) as ->
        by (induction l; cbn; auto).
    cbn. lia.
Qed.

(** A draw [i/n] lies below [p/q] exactly when [i * q < p * n]. *)
Lemma Qltb_grid (i n : nat) (p : Z) (q : positive) : n <> O ->
  Qltb (Z.of_nat i # Pos.of_nat n) (p # q) = (Z.of_nat i * Z.pos q <? p * Z.of_nat n).
Proof.
  intros Hn. unfold Qltb, Qle_bool. cbn [Qnum Qden].
  rewrite (Zpos_of_nat n Hn), Z.ltb_antisym. reflexivity.
Qed.

(** Of the [n] values of the grid, [a] lie below [a/n]. *)
Lemma count_grid_below (n a : nat) (p : Z) (q : positive) :
  n <> O -> (a <= n)%nat -> p * Z.of_nat n = Z.of_nat a * Z.pos q ->
  length (filter (fun u => Qltb u (p # q)) (grid n)) = a.
Proof.
  intros Hn Ha Hpq. unfold grid. rewrite length_filter_map.
  rewrite (filter_ext_in _ (fun i => Nat.ltb i a)).
  - rewrite count_below. lia.
  - intros i _. rewrite (Qltb_grid i n p q Hn), Hpq.
    destruct (Nat.ltb i a) eqn:E.
    + apply Nat.ltb_lt in E. apply Z.ltb_lt. nia.
    + apply Nat.ltb_ge in E. apply Z.ltb_ge. nia.
Qed.

(** Of the [n] values of the grid, those below [p/q] are the first [a],
    where [a] is [p/q * n] rounded up. *)
Lemma count_grid_ceil (n a : nat) (p : Z) (q : positive) :
  n <> O -> (a <= n)%nat ->
  (Z.of_nat a - 1) * Z.pos q < p * Z.of_nat n ->
  ((a < n)%nat -> p * Z.of_nat n <= Z.of_nat a * Z.pos q) ->
  length (filter (fun u => Qltb u (p # q)) (grid n)) = a.
Proof.
  intros Hn Ha Hlo Hhi. unfold grid. rewrite length_filter_map.
  rewrite (filter_ext_in _ (fun i => Nat.ltb i a)).
  - rewrite count_below. lia.
  - intros i Hi. apply in_seq in Hi. rewrite (Qltb_grid i n p q Hn).
    destruct (Nat.ltb i a) eqn:E.
    + apply Nat.ltb_lt in E. apply Z.ltb_lt. nia.
    + apply Nat.ltb_ge in E. apply Z.ltb_ge.
      assert (a < n)%nat as Han by lia. specialize (Hhi Han). nia.
Qed.

(** The number of grid values below a threshold in [0, 1]. *)
Lemma count_grid_bounds (n : nat) (p : Z) (q : positive) :
  n <> O -> 0 <= p <= Z.pos q ->
  (Z.of_nat (length (filter (fun u => Qltb u (p # q)) (grid n))) - 1) * Z.pos q
  < p * Z.of_nat n
  <= Z.of_nat (length (filter (fun u => Qltb u (p # q)) (grid n))) * Z.pos q.
Proof.
  intros Hn Hp.
  set (m := p * Z.of_nat n).
  set (c := (m + Z.pos q - 1) / Z.pos q).
  assert (0 <= m) as Hm by (unfold m; nia).
  assert (m <= Z.of_nat n * Z.pos q) as Hmn by (unfold m; nia).
  pose proof (Z.div_mod (m + Z.pos q - 1) (Z.pos q) ltac:(lia)) as Hd.
  pose proof (Z.mod_pos_bound (m + Z.pos q - 1) (Z.pos q) ltac:(lia)) as Hr.
  fold c in Hd.
  assert ((c - 1) * Z.pos q < m <= c * Z.pos q) as Hc by nia.
  assert (0 <= c <= Z.of_nat n) as Hcn by nia.
  rewrite (count_grid_ceil n (Z.to_nat c) p q Hn); fold m.
  - rewrite Z2Nat.id by lia. exact Hc.
  - lia.
  - rewrite Z2Nat.id by lia. lia.
  - intros _. rewrite Z2Nat.id by lia. lia.
Qed.

Lemma length_grid (n : nat) : length (grid n) = n.
Proof. unfold grid. now rewrite length_map, length_seq. Qed.

Lemma float32_resolution_Z : Z.of_nat float32_resolution = 16777216.
Proof. unfold float32_resolution. rewrite Z2Nat.id; lia. Qed.

Lemma float32_resolution_pos : float32_resolution <> O.
Proof. pose proof float32_resolution_Z. lia. Qed.

(** An event of two draws that is the conjunction of an event of each. *)
Lemma prob2_product (n : nat) (ev : Q -> Q -> bool) (f g : Q -> bool) (a b : Z)
    (d : positive) :
  n <> O ->
  (forall u v, ev u v = f u && g v) ->
  Z.of_nat (length (filter f (grid n))) = a ->
  Z.of_nat (length (filter g (grid n))) = b ->
  Z.of_nat n = Z.pos d ->
  (prob2 n ev == (a # d) * (b # d))%Q.
Proof.
  intros Hn Hev Ha Hb Hd. unfold prob2.
  rewrite (filter_ext _ (fun q => f (fst q) && g (snd q))) by (intros q; apply Hev).
  rewrite length_filter_prod.
  unfold Qeq, Qmult. cbn [Qnum Qden].
  rewrite Zpos_of_nat by nia.
  rewrite !Nat2Z.inj_mul, Ha, Hb, Hd, Pos2Z.inj_mul. ring.
Qed.

Lemma filter_true {A} (l : list A) : filter (fun _ => true) l = l.
Proof. induction l; cbn; congruence. Qed.

(* ================================================================== *)
(** ** The split of the selected positions *)

Lemma count_replace_group :
  Z.of_nat (length (filter (fun u => Qltb u replace_threshold)
                      (grid float32_resolution))) = 15099494.
Proof.
  pose proof float32_resolution_Z as HF.
  rewrite replace_threshold_value.
  rewrite (count_grid_below float32_resolution (Z.to_nat 15099494)).
  - rewrite Z2Nat.id; lia.
  - exact float32_resolution_pos.
  - lia.
  - rewrite HF, Z2Nat.id; lia.
Qed.

Lemma count_random_subgroup :
  Z.of_nat (length (filter (fun u => Qltb u random_threshold)
                      (grid float32_resolution))) = 1864136.
Proof.
  pose proof float32_resolution_Z as HF.
  rewrite random_threshold_value.
  rewrite (count_grid_ceil float32_resolution (Z.to_nat 1864136)).
  - rewrite Z2Nat.id; lia.
  - exact float32_resolution_pos.
  - lia.
  - rewrite HF, Z2Nat.id; lia.
  - intros _. rewrite HF, Z2Nat.id; lia.
Qed.

Lemma count_outside (f : Q -> bool) (a : Z) :
  Z.of_nat (length (filter f (grid float32_resolution))) = a ->
  Z.of_nat (length (filter (fun u => negb (f u)) (grid float32_resolution)))
  = 16777216 - a.
Proof.
  intros Ha. rewrite length_filter_negb, length_grid.
  pose proof (filter_length_le f (grid float32_resolution)) as Hle.
  rewrite length_grid in Hle.
  rewrite Nat2Z.inj_sub by exact Hle. rewrite Ha, float32_resolution_Z. reflexivity.
Qed.

Section Split.

Variables (p u1 : Q).
Hypothesis Hsel : Qltb u1 (float32 p) = true.

(** The probabilities of the three outcomes of a selected position, over
    the draws of the float32 generator. *)
Lemma prob_mask_token :
  (prob2 float32_resolution
     (fun u2 u3 => Outcome_eqb (outcome p false u1 u2 u3) MaskToken)
   == (15099494 # 16777216) * (14913080 # 16777216))%Q.
Proof.
  apply (prob2_product _ _ (fun u => Qltb u replace_threshold)
           (fun v => negb (Qltb v random_threshold))).
  - exact float32_resolution_pos.
  - intros u v. unfold outcome. rewrite Hsel.
    destruct (Qltb u replace_threshold), (Qltb v random_threshold); reflexivity.
  - exact count_replace_group.
  - exact (count_outside _ _ count_random_subgroup).
  - exact float32_resolution_Z.
Qed.

Lemma prob_random_token :
  (prob2 float32_resolution
     (fun u2 u3 => Outcome_eqb (outcome p false u1 u2 u3) RandomToken)
   == (15099494 # 16777216) * (1864136 # 16777216))%Q.
Proof.
  apply (prob2_product _ _ (fun u => Qltb u replace_threshold)
           (fun v => Qltb v random_threshold)).
  - exact float32_resolution_pos.
  - intros u v. unfold outcome. rewrite Hsel.
    destruct (Qltb u replace_threshold), (Qltb v random_threshold); reflexivity.
  - exact count_replace_group.
  - exact count_random_subgroup.
  - exact float32_resolution_Z.
Qed.

Lemma prob_unchanged :
  (prob2 float32_resolution
     (fun u2 u3 => Outcome_eqb (outcome p false u1 u2 u3) Unchanged)
   == 1677722 # 16777216)%Q.
Proof.
  rewrite (prob2_product _ _ (fun u => negb (Qltb u replace_threshold))
             (fun _ => true) 1677722 16777216 16777216).
  - reflexivity.
  - exact float32_resolution_pos.
  - intros u v. unfold outcome. rewrite Hsel.
    destruct (Qltb u replace_threshold), (Qltb v random_threshold); reflexivity.
  - exact (count_outside _ _ count_replace_group).
  - rewrite filter_true, length_grid. exact float32_resolution_Z.
  - exact float32_resolution_Z.
Qed.

(** Each of the three is within [2 ^ -23] of the 0.8, 0.1 and 0.1 of the
    specification. *)
Lemma prob_split_close :
  (Qabs (prob2 float32_resolution
           (fun u2 u3 => Outcome_eqb (outcome p false u1 u2 u3) MaskToken)
         - (8 # 10)) < 1 # 8388608)%Q
  /\ (Qabs (prob2 float32_resolution
              (fun u2 u3 => Outcome_eqb (outcome p false u1 u2 u3) RandomToken)
            - (1 # 10)) < 1 # 8388608)%Q
  /\ (Qabs (prob2 float32_resolution
              (fun u2 u3 => Outcome_eqb (outcome p false u1 u2 u3) Unchanged)
            - (1 # 10)) < 1 # 8388608)%Q.
Proof.
  rewrite prob_mask_token, prob_random_token, prob_unchanged.
  repeat split; apply Qabs_Qlt_condition; split; vm_compute; reflexivity.
Qed.

End Split.

(** A non-special position is selected with probability [mask_p], up to the
    rounding of [mask_p] to float32 and the resolution of the draws. *)
Lemma prob_selected (p u2 u3 : Q) :
  (0 <= p)%Q -> (p <= 1)%Q ->
  (Qabs (prob1 float32_resolution
           (fun u1 => negb (Outcome_eqb (outcome p false u1 u2 u3) NotSelected))
         - p) < 1 # 8388608)%Q.
Proof.
  intros H0 H1.
  destruct (float32_unit_interval p H0 H1) as (Ht0 & Ht1 & Herr).
  unfold prob1.
  rewrite (filter_ext _ (fun u => Qltb u (float32 p))).
  2:{ intros u. unfold outcome.
      destruct (Qltb u (float32 p)), (Qltb u2 replace_threshold),
        (Qltb u3 random_threshold); reflexivity. }
  destruct (float32 p) as [tn td] eqn:Et.
  assert (0 <= tn <= Z.pos td) as Hrange
      by (unfold Qle in Ht0, Ht1; cbn in Ht0, Ht1; lia).
  pose proof (count_grid_bounds float32_resolution tn td float32_resolution_pos Hrange)
    as [Hlo Hhi].
  set (a := Z.of_nat (length (filter (fun u => Qltb u (tn # td))
                                (grid float32_resolution)))) in *.
  pose proof float32_resolution_Z as HF.
  pose proof (Zpos_of_nat float32_resolution float32_resolution_pos) as HP.
  assert (tn # td <= a # Pos.of_nat float32_resolution)%Q as Hge
      by (unfold Qle; cbn [Qnum Qden]; rewrite HP, HF in *; lia).
  assert ((a # Pos.of_nat float32_resolution) - (1 # 16777216) < tn # td)%Q as Hlt.
  { unfold Qlt, Qminus, Qplus, Qopp. cbn [Qnum Qden].
    rewrite Pos2Z.inj_mul, HP, HF in *. nia. }
  apply Qabs_Qle_condition in Herr. destruct Herr as [He1 He2].
  apply Qabs_Qlt_condition. split; lra.
Qed.

(** Every token of the range is as likely as any other to be the random
    token of a position. *)
Lemma count_eq_seq (j : nat) : forall m s,
  length (filter (fun i => Nat.eqb i j) (seq s m))
  = if (s <=? j)%nat && (j <? s + m)%nat then 1%nat else 0%nat.
Proof.
  induction m as [|m IH]; intros s; cbn [seq filter].
  - destruct (Nat.leb_spec s j), (Nat.ltb_spec j (s + 0)); cbn; lia.
  - destruct (Nat.eqb_spec s j); cbn [length]; rewrite (IH (S s));
      destruct (Nat.leb_spec s j), (Nat.ltb_spec j (s + S m)),
        (Nat.leb_spec (S s) j), (Nat.ltb_spec j (S s + m)); cbn; lia.
Qed.

Lemma count_token (lo hi v0 : Z) : lo <= v0 < hi ->
  length (filter (fun v => v =? v0) (token_range lo hi)) = 1%nat.
Proof.
  intros H. unfold token_range. rewrite length_filter_map.
  rewrite (filter_ext _ (fun i => Nat.eqb i (Z.to_nat (v0 - lo)))).
  - rewrite count_eq_seq.
    destruct (Nat.leb_spec 0 (Z.to_nat (v0 - lo))),
      (Nat.ltb_spec (Z.to_nat (v0 - lo)) (0 + Z.to_nat (hi - lo))); cbn; lia.
  - intros i.
    destruct (Z.eqb_spec (lo + Z.of_nat i) v0), (Nat.eqb_spec i (Z.to_nat (v0 - lo)));
      lia.
Qed.

Lemma prob_token_uniform (n : nat) (lo hi v0 : Z) (ev : Q -> Q -> bool) :
  n <> O -> lo <= v0 < hi ->
  (prob3 n lo hi (fun u2 u3 v => ev u2 u3 && (v =? v0)) * inject_Z (hi - lo)
   == prob2 n ev)%Q.
Proof.
  intros Hn Hv. unfold prob3, prob2.
  rewrite (length_filter_prod (fun q => ev (fst q) (snd q)) (fun v => v =? v0)).
  rewrite (count_token lo hi v0 Hv), Nat.mul_1_r.
  assert (Z.to_nat (hi - lo) <> O) as Hm by lia.
  assert (n * n <> O)%nat as Hnn by nia.
  assert (n * n * Z.to_nat (hi - lo) <> O)%nat as Hall by nia.
  unfold Qeq, Qmult, inject_Z. cbn [Qnum Qden]. rewrite Pos.mul_1_r.
  rewrite (Zpos_of_nat _ Hnn), (Zpos_of_nat _ Hall).
  rewrite (Nat2Z.inj_mul (n * n)), Z2Nat.id by lia. ring.
Qed.

(* ================================================================== *)
(** ** Claims on [TextMasking.forward] *)

Section MaskingClaims.

Context {T : Torch} {TS : TorchSpec T}.

Variables (tm : TextMasking) (x : Tensor2 Z) (pm : Tensor2 bool) (w : World).
Hypothesis Hx : wf2 x.
Hypothesis Hpm : wf2 pm.
Hypothesis Hshape : same_shape2 x pm = true.

(** The returned tensors, position by position. *)
Lemma nth_labels (x' labels : Tensor2 Z) (w' : World) (k : nat) :
  TextMasking_forward tm x (Some pm) w = (Ok (x', labels), w') ->
  (k < numel2 x)%nat ->
  nth k (elems labels) 0
  = if nth k (selected_of tm x pm w) false then nth k (elems x) 0 else ignore_index.
Proof.
  intros Hrun Hk.
  destruct (TextMasking_forward_returns tm x pm w Hshape x' labels w' Hrun)
    as (src & _ & _ & _ & ->).
  cbn [elems].
  rewrite nth_masked_fill
    by (rewrite ?length_map, ?(length_sel tm x pm w Hx Hpm Hshape), ?Hx; auto).
  rewrite (nth_map_in negb false false)
    by (rewrite (length_sel tm x pm w Hx Hpm Hshape); exact Hk).
  destruct (nth k (selected_of tm x pm w) false); reflexivity.
Qed.

Lemma nth_masked (x' labels : Tensor2 Z) (w' : World) (k : nat) :
  TextMasking_forward tm x (Some pm) w = (Ok (x', labels), w') ->
  (k < numel2 x)%nat ->
  exists src,
    randint (num_special_tokens tm) (vocab_size tm)
      (mask_sum (selected_2_of tm x pm w)) (gen_3 (numel2 x) (gen w)) = (Ok src, gen w')
    /\ length src = mask_sum (selected_2_of tm x pm w)
    /\ nth k (elems x') 0
       = if nth k (selected_2_of tm x pm w) false
         then nth (rank (selected_2_of tm x pm w) k) src 0
         else if nth k (selected_1_of tm x pm w) false
              then mask_token_id tm
              else nth k (elems x) 0.
Proof.
  intros Hrun Hk.
  destruct (TextMasking_forward_returns tm x pm w Hshape x' labels w' Hrun)
    as (src & Hsrc & Hlen & -> & _).
  exists src. split; [exact Hsrc|]. split; [exact Hlen|].
  cbn [elems].
  pose proof (length_sel1 tm x pm w Hx Hpm Hshape) as L1.
  pose proof (length_sel2 tm x pm w Hx Hpm Hshape) as L2.
  rewrite nth_index_put
    by (rewrite ?length_masked_fill; rewrite ?L1, ?L2, ?Hx; auto).
  rewrite nth_masked_fill by (rewrite ?L1, ?Hx; auto).
  reflexivity.
Qed.

Lemma shape_labels (x' labels : Tensor2 Z) (w' : World) :
  TextMasking_forward tm x (Some pm) w = (Ok (x', labels), w') ->
  same_shape2 labels x = true /\ wf2 labels
  /\ same_shape2 x' x = true /\ wf2 x'.
Proof.
  intros Hrun.
  destruct (TextMasking_forward_returns tm x pm w Hshape x' labels w' Hrun)
    as (src & _ & _ & -> & ->).
  unfold same_shape2, wf2, numel2. cbn [nrows ncols elems].
  rewrite !Nat.eqb_refl.
  rewrite length_index_put, !length_masked_fill
    by (rewrite ?length_map, ?(length_sel tm x pm w Hx Hpm Hshape),
          ?(length_sel1 tm x pm w Hx Hpm Hshape), ?Hx; auto).
  rewrite Hx. auto.
Qed.

(** C3.  A call of [TextMasking.forward] on tokens and a padding mask of the
    same shape (B, L) returns whenever ordinary tokens exist, and whenever it
    returns, with token ids that are not negative: the labels have the shape
    of the tokens; the label at a position is the ignore sentinel -100
    exactly when [is_selected] is false there; at a selected position the
    label is the token the caller passed in, also when the returned token
    there equals it. *)
Theorem labels_mark_the_selected_positions :
  Forall (fun t => 0 <= t) (elems x) ->
  (num_special_tokens tm < vocab_size tm ->
   exists x' labels w',
     TextMasking_forward tm x (Some pm) w = (Ok (x', labels), w'))
  /\ forall x' labels w',
       TextMasking_forward tm x (Some pm) w = (Ok (x', labels), w') ->
       same_shape2 labels x = true /\ wf2 labels
       /\ forall k, (k < numel2 x)%nat ->
            (nth k (elems labels) 0 = ignore_index
             <-> nth k (selected_of tm x pm w) false = false)
            /\ (nth k (selected_of tm x pm w) false = true ->
                nth k (elems labels) 0 = nth k (elems x) 0)
            /\ (nth k (selected_of tm x pm w) false = true ->
                nth k (elems x') 0 = nth k (elems x) 0 ->
                nth k (elems labels) 0 = nth k (elems x) 0).
Proof.
  intros Hnonneg. split.
  - apply TextMasking_forward_total; assumption.
  - intros x' labels w' Hrun.
    destruct (shape_labels x' labels w' Hrun) as (Hs & Hwf & _).
    split; [exact Hs|]. split; [exact Hwf|].
    intros k Hk. rewrite (nth_labels x' labels w' k Hrun Hk).
    assert (0 <= nth k (elems x) 0) as Hpos.
    { rewrite Forall_forall in Hnonneg. apply Hnonneg, nth_In.
      rewrite Hx. exact Hk. }
    unfold ignore_index.
    destruct (nth k (selected_of tm x pm w) false); repeat split;
      intros; try reflexivity; try discriminate; lia.
Qed.

(** C4.  Whatever the draws, a position whose token is the unknown-token id
    or whose padding flag is set is never selected; the returned tokens keep
    its token and its label is the ignore sentinel. *)
Theorem special_positions_are_never_selected :
  (num_special_tokens tm < vocab_size tm ->
   exists x' labels w',
     TextMasking_forward tm x (Some pm) w = (Ok (x', labels), w'))
  /\ forall k,
       (k < numel2 x)%nat ->
       nth k (elems x) 0 = unk_token_id tm \/ nth k (elems pm) false = true ->
       nth k (selected_of tm x pm w) false = false
       /\ forall x' labels w',
            TextMasking_forward tm x (Some pm) w = (Ok (x', labels), w') ->
            nth k (elems x') 0 = nth k (elems x) 0
            /\ nth k (elems labels) 0 = ignore_index.
Proof.
  split.
  - apply TextMasking_forward_total; assumption.
  - intros k Hk Hspecial.
    assert (nth k (selected_of tm x pm w) false = false) as Hsel.
    { rewrite (nth_sel tm x pm w Hx Hpm Hshape k Hk).
      rewrite (nth_is_special tm x pm Hx Hpm Hshape k Hk).
      destruct Hspecial as [-> | ->].
      - rewrite Z.eqb_refl. cbn. apply andb_false_r.
      - rewrite orb_true_r. apply andb_false_r. }
    split; [exact Hsel|].
    intros x' labels w' Hrun.
    rewrite (nth_labels x' labels w' k Hrun Hk), Hsel.
    split; [|reflexivity].
    destruct (nth_masked x' labels w' k Hrun Hk) as (src & _ & _ & ->).
    rewrite (nth_sel2 tm x pm w Hx Hpm Hshape k Hk).
    rewrite (nth_sel1 tm x pm w Hx Hpm Hshape k Hk), Hsel. reflexivity.
Qed.

(** The outcome the specification assigns to a position agrees with the
    masks the source computes. *)
Lemma outcome_of_masks (k : nat) : (k < numel2 x)%nat ->
  let n := numel2 x in
  outcome (mask_p tm) (nth k (is_special tm (elems x) (elems pm)) false)
    (nth k (draw_1 n (gen w)) 0%Q) (nth k (draw_2 n (gen w)) 0%Q)
    (nth k (draw_3 n (gen w)) 0%Q)
  = if nth k (selected_2_of tm x pm w) false then RandomToken
    else if nth k (selected_1_of tm x pm w) false then MaskToken
    else if nth k (selected_of tm x pm w) false then Unchanged
    else NotSelected.
Proof.
  intros Hk n.
  rewrite (nth_sel2 tm x pm w Hx Hpm Hshape k Hk).
  rewrite (nth_sel1 tm x pm w Hx Hpm Hshape k Hk).
  rewrite (nth_sel tm x pm w Hx Hpm Hshape k Hk).
  fold n. unfold outcome.
  destruct (nth k (is_special tm (elems x) (elems pm)) false);
    [rewrite andb_false_r; reflexivity|].
  destruct (Qltb (nth k (draw_1 n (gen w)) 0%Q) (float32 (mask_p tm))); [|reflexivity].
  destruct (Qltb (nth k (draw_2 n (gen w)) 0%Q) replace_threshold); [|reflexivity].
  destruct (Qltb (nth k (draw_3 n (gen w)) 0%Q) random_threshold); reflexivity.
Qed.

Lemma randint_returned_in_range (lo hi : Z) (c : nat) (g g' : Generator) (src : list Z) :
  randint lo hi c g = (Ok src, g') -> Forall (fun z => lo <= z < hi) src.
Proof.
  intros Hr. destruct (Z_lt_le_dec lo hi) as [Hlt | Hle].
  - destruct (randint_ok lo hi c g Hlt) as (l & g1 & Hl & _ & Hf). congruence.
  - destruct (randint_empty_range lo hi c g Hle) as (msg & g1 & Hl). congruence.
Qed.

(** C5.  Of a call that returns, every position has exactly one outcome,
    fixed by whether it is special and by the three float32 draws at it: it
    is selected when the first draw is below [mask_p]; a selected position
    is in the replace-group when the second draw is below 0.9, and of those
    in the random-token subgroup when the third is below 1/9, each of the
    three Python floats rounded to float32 as the comparison does.  The
    replace-group outside the subgroup receives the mask token, every
    position of the subgroup receives its own token of the one
    [randint] call, in row-major order, from
    [num_special_tokens, vocab_size), every other position keeps its token.
    With draws uniform on the float32 values [k / 2 ^ 24] of [0, 1), a
    selected position receives the mask token, a random token, or is left
    unchanged with the probabilities stated, which are within [2 ^ -23] of
    8/10, 1/10 and 1/10; a non-special position is selected with probability
    within [2 ^ -23] of [mask_p]; and with the token of [randint] uniform on
    its range, every token of the range is as likely as any other to be the
    random token. *)
Theorem selected_positions_split_close_to_80_10_10 :
  (num_special_tokens tm < vocab_size tm ->
   exists x' labels w',
     TextMasking_forward tm x (Some pm) w = (Ok (x', labels), w'))
  /\ (forall x' labels w',
        TextMasking_forward tm x (Some pm) w = (Ok (x', labels), w') ->
        exists src,
          randint (num_special_tokens tm) (vocab_size tm)
            (mask_sum (selected_2_of tm x pm w)) (gen_3 (numel2 x) (gen w))
          = (Ok src, gen w')
          /\ length src = mask_sum (selected_2_of tm x pm w)
          /\ (forall k k',
                (k < k')%nat ->
                nth k (selected_2_of tm x pm w) false = true ->
                (rank (selected_2_of tm x pm w) k
                 < rank (selected_2_of tm x pm w) k')%nat)
          /\ forall k, (k < numel2 x)%nat ->
               let o := outcome (mask_p tm)
                          (nth k (is_special tm (elems x) (elems pm)) false)
                          (nth k (draw_1 (numel2 x) (gen w)) 0%Q)
                          (nth k (draw_2 (numel2 x) (gen w)) 0%Q)
                          (nth k (draw_3 (numel2 x) (gen w)) 0%Q) in
               (nth k (selected_of tm x pm w) false = true <-> o <> NotSelected)
               /\ match o with
                  | MaskToken => nth k (elems x') 0 = mask_token_id tm
                  | RandomToken =>
                      nth k (elems x') 0 = nth (rank (selected_2_of tm x pm w) k) src 0
                      /\ (rank (selected_2_of tm x pm w) k < length src)%nat
                      /\ num_special_tokens tm <= nth k (elems x') 0 < vocab_size tm
                  | Unchanged | NotSelected => nth k (elems x') 0 = nth k (elems x) 0
                  end)
  /\ (forall u1 : Q,
        Qltb u1 (float32 (mask_p tm)) = true ->
        ((prob2 float32_resolution
            (fun u2 u3 => Outcome_eqb (outcome (mask_p tm) false u1 u2 u3) MaskToken)
          == (15099494 # 16777216) * (14913080 # 16777216))%Q
         /\ (prob2 float32_resolution
               (fun u2 u3 => Outcome_eqb (outcome (mask_p tm) false u1 u2 u3) RandomToken)
             == (15099494 # 16777216) * (1864136 # 16777216))%Q
         /\ (prob2 float32_resolution
               (fun u2 u3 => Outcome_eqb (outcome (mask_p tm) false u1 u2 u3) Unchanged)
             == 1677722 # 16777216)%Q)
        /\ (Qabs (prob2 float32_resolution
                    (fun u2 u3 => Outcome_eqb (outcome (mask_p tm) false u1 u2 u3)
                                    MaskToken)
                  - (8 # 10)) < 1 # 8388608)%Q
        /\ (Qabs (prob2 float32_resolution
                    (fun u2 u3 => Outcome_eqb (outcome (mask_p tm) false u1 u2 u3)
                                    RandomToken)
                  - (1 # 10)) < 1 # 8388608)%Q
        /\ (Qabs (prob2 float32_resolution
                    (fun u2 u3 => Outcome_eqb (outcome (mask_p tm) false u1 u2 u3)
                                    Unchanged)
                  - (1 # 10)) < 1 # 8388608)%Q)
  /\ (forall u2 u3 : Q,
        (0 <= mask_p tm)%Q -> (mask_p tm <= 1)%Q ->
        (Qabs (prob1 float32_resolution
                 (fun u1 => negb (Outcome_eqb (outcome (mask_p tm) false u1 u2 u3)
                                    NotSelected))
               - mask_p tm) < 1 # 8388608)%Q)
  /\ (forall (n : nat) (u1 : Q) (v0 : Z),
        n <> O ->
        num_special_tokens tm <= v0 < vocab_size tm ->
        (prob3 n (num_special_tokens tm) (vocab_size tm)
           (fun u2 u3 v => Outcome_eqb (outcome (mask_p tm) false u1 u2 u3) RandomToken
                           && (v =? v0))
         * inject_Z (vocab_size tm - num_special_tokens tm)
         == prob2 n (fun u2 u3 => Outcome_eqb (outcome (mask_p tm) false u1 u2 u3)
                                    RandomToken))%Q).
Proof.
  split; [apply TextMasking_forward_total; assumption|].
  split; [|split; [|split]].
  - intros x' labels w' Hrun.
    destruct (TextMasking_forward_returns tm x pm w Hshape x' labels w' Hrun)
      as (src & Hsrc & Hlen & _ & _).
    exists src. split; [exact Hsrc|]. split; [exact Hlen|].
    split; [intros k k'; apply rank_increasing|].
    intros k Hk o.
    destruct (nth_masked x' labels w' k Hrun Hk) as (src' & Hsrc' & _ & Hnth).
    assert (src' = src) as -> by congruence.
    pose proof (outcome_of_masks k Hk) as Ho. cbn zeta in Ho. fold o in Ho.
    pose proof (nth_sel2 tm x pm w Hx Hpm Hshape k Hk) as H2.
    pose proof (nth_sel1 tm x pm w Hx Hpm Hshape k Hk) as H1.
    rewrite Hnth, Ho.
    destruct (nth k (selected_2_of tm x pm w) false) eqn:E2.
    + symmetry in H2. apply andb_true_iff in H2 as [H2 _].
      rewrite H2 in H1. symmetry in H1. apply andb_true_iff in H1 as [H1 _].
      split; [split; [discriminate | intros _; exact H1]|].
      assert (rank (selected_2_of tm x pm w) k < length src)%nat as Hrank
          by (rewrite Hlen; apply rank_lt; exact E2).
      split; [reflexivity|]. split; [exact Hrank|].
      pose proof (randint_returned_in_range _ _ _ _ _ _ Hsrc) as Hf.
      rewrite Forall_forall in Hf. apply Hf, nth_In. exact Hrank.
    + destruct (nth k (selected_1_of tm x pm w) false) eqn:E1.
      * symmetry in H1. apply andb_true_iff in H1 as [H1 _].
        split; [split; [discriminate | intros _; exact H1]|reflexivity].
      * destruct (nth k (selected_of tm x pm w) false);
          (split; [split; congruence | reflexivity]).
  - intros u1 Hu1. split.
    + split; [now apply prob_mask_token|].
      split; [now apply prob_random_token | now apply prob_unchanged].
    + now apply prob_split_close.
  - intros u2 u3 H0 H1. now apply prob_selected.
  - intros n u1 v0 Hn Hv.
    apply (prob_token_uniform n _ _ v0
             (fun u2 u3 => Outcome_eqb (outcome (mask_p tm) false u1 u2 u3) RandomToken)
             Hn Hv).
Qed.

End MaskingClaims.

(* ================================================================== *)
(** ** Running a call *)

Section Run.

Context {T : Torch}.

Lemma bind_Ok_inv {A B} (m : M A) (f : A -> M B) (w w' : World) (b : B) :
  bind m f w = (Ok b, w') ->
  exists a w1, m w = (Ok a, w1) /\ f a w1 = (Ok b, w').
Proof.
  unfold bind. destruct (m w) as [[a|e] w1]; [eauto | discriminate].
Qed.

Lemma ret_Ok_inv {A} (a b : A) (w w' : World) :
  ret a w = (Ok b, w') -> a = b /\ w = w'.
Proof. unfold ret. intros [= -> ->]. auto. Qed.

Lemma bind_Ok {A B} (m : M A) (f : A -> M B) (w w1 : World) (a : A) :
  m w = (Ok a, w1) -> bind m f w = f a w1.
Proof. unfold bind. now intros ->. Qed.

Lemma bind_Raise {A B} (m : M A) (f : A -> M B) (w w1 : World) (e : exn) :
  m w = (Raise e, w1) -> bind m f w = (Raise e, w1).
Proof. unfold bind. now intros ->. Qed.

End Run.

(** One step of a run that returned: the first action returned [a] in world
    [w], and the rest of the run continues from there. *)
Tactic Notation "step" hyp(H) "as" ident(a) ident(w) ident(Ha) :=
  apply bind_Ok_inv in H as (a & w & Ha & H).

Tactic Notation "done" hyp(H) :=
  apply ret_Ok_inv in H as [<- <-].

(* ================================================================== *)
(** ** Construction *)

Section Construction.

Context {T : Torch} {TS : TorchSpec T}.

Lemma fresh_nil (w : World) : fresh w w [].
Proof. unfold fresh. rewrite Nat.sub_diag. cbn. auto. Qed.

Lemma fresh_app (w w1 w2 : World) (l1 l2 : list Param) :
  fresh w w1 l1 -> fresh w1 w2 l2 -> fresh w w2 (l1 ++ l2).
Proof.
  unfold fresh. intros [H1 E1] [H2 E2]. split; [lia|].
  rewrite map_app, E1, E2.
  replace (next_id w2 - next_id w)%nat
    with ((next_id w1 - next_id w) + (next_id w2 - next_id w1))%nat by lia.
  rewrite seq_app. repeat f_equal. lia.
Qed.

Lemma fresh_NoDup (w w' : World) (l : list Param) :
  fresh w w' l -> NoDup (map pid l).
Proof. intros [_ ->]. apply seq_NoDup. Qed.

Lemma fresh_range (w w' : World) (l : list Param) (i : nat) :
  fresh w w' l -> In i (map pid l) -> (next_id w <= i < next_id w')%nat.
Proof. intros [H ->] Hin. apply in_seq in Hin. lia. Qed.

(** Parameters created one after the other are different objects. *)
Lemma fresh_disjoint (w w1 w2 : World) (l1 l2 : list Param) (i : nat) :
  fresh w w1 l1 -> fresh w1 w2 l2 -> In i (map pid l1) -> ~ In i (map pid l2).
Proof.
  intros F1 F2 H1 H2.
  apply (fresh_range _ _ _ _ F1) in H1. apply (fresh_range _ _ _ _ F2) in H2. lia.
Qed.

Lemma new_parameter_ok (s : list Z) (w w' : World) (p : Param) :
  new_parameter s w = (Ok p, w') ->
  shape (pdata p) = s /\ fresh w w' [p].
Proof.
  unfold new_parameter.
  destruct (tensor_init s (gen w)) as [[t|e] g] eqn:E; [|discriminate].
  intros [= <- <-]. split.
  - cbn [pdata]. eapply tensor_init_shape; eauto.
  - unfold fresh. cbn [next_id map pid]. split; [lia|].
    replace (S (next_id w) - next_id w)%nat with 1%nat by lia. reflexivity.
Qed.

Lemma new_parameters_ok (sizes : list (list Z)) : forall (w w' : World) ps,
  new_parameters sizes w = (Ok ps, w') ->
  map shape (map pdata ps) = sizes /\ fresh w w' ps.
Proof.
  induction sizes as [|s sizes IH]; intros w w' ps H; cbn [new_parameters] in H.
  - done H. split; [reflexivity | apply fresh_nil].
  - step H as p w1 Hp. step H as ps' w2 Hps. done H.
    apply new_parameter_ok in Hp as [Hs Hf].
    apply IH in Hps as [Hss Hfs].
    split; [cbn; congruence|].
    change (p :: ps') with ([p] ++ ps'). eapply fresh_app; eauto.
Qed.

Lemma new_LayerNorm_ok (c : Z) (w w' : World) (m : Module) :
  new_LayerNorm c w = (Ok m, w') -> LayerNorm_of c m /\ fresh w w' (params m).
Proof.
  unfold new_LayerNorm. intros H.
  step H as weight w1 Hw. step H as bias w2 Hb. done H.
  apply new_parameter_ok in Hw as [Hs Hf], Hb as [Hs0 Hf0].
  split; [exists weight, bias; auto|].
  cbn [params]. change [weight; bias] with ([weight] ++ [bias]).
  eapply fresh_app; eauto.
Qed.

Lemma new_Linear_ok (i o : Z) (w w' : World) (m : Module) :
  new_Linear i o w = (Ok m, w') -> Linear_of i o m /\ fresh w w' (params m).
Proof.
  unfold new_Linear. intros H.
  step H as weight w1 Hw. step H as bias w2 Hb. done H.
  apply new_parameter_ok in Hw as [Hs Hf], Hb as [Hs0 Hf0].
  split; [exists weight, bias; auto|].
  cbn [params]. change [weight; bias] with ([weight] ++ [bias]).
  eapply fresh_app; eauto.
Qed.

Lemma new_Dropout_ok (p : Q) (w w' : World) (m : Module) :
  new_Dropout p w = (Ok m, w') -> m = Dropout p /\ w' = w.
Proof.
  unfold new_Dropout. destruct (Qltb p 0 || Qltb 1 p); [discriminate|].
  intros H. done H. auto.
Qed.

Lemma new_Residual_ok (md : Module) (p : Q) (w w' : World) (m : Module) :
  new_Residual md p w = (Ok m, w') -> m = Residual md (Dropout p) p /\ w' = w.
Proof.
  unfold new_Residual. intros H. step H as d w1 Hd. done H.
  apply new_Dropout_ok in Hd as [-> ->]. auto.
Qed.

Lemma new_MultiheadAttention_ok (e h kd vd : Z) (p : Q) (w w' : World)
    (a : MultiheadAttention) :
  new_MultiheadAttention e h kd vd p w = (Ok a, w') ->
  MultiheadAttention_of e h kd vd p a /\ fresh w w' (attn_params a).
Proof.
  unfold new_MultiheadAttention.
  destruct (h <=? 0) eqn:Eh; [discriminate|].
  destruct (e mod h =? 0) eqn:Em; [|discriminate]. cbn [negb].
  intros H. step H as ps w1 Hps. done H.
  apply new_parameters_ok in Hps as [Hs Hf].
  apply Z.leb_gt in Eh. apply Z.eqb_eq in Em.
  unfold MultiheadAttention_of.
  cbn [embed_dim num_heads kdim vdim attn_dropout attn_params].
  split; [|exact Hf]. repeat split; auto.
Qed.

Lemma new_MultiHeadAttention_ok (cq ckv h : Z) (p : Q) (w w' : World) (m : Module) :
  new_MultiHeadAttention cq ckv h p w = (Ok m, w') ->
  exists a, m = MultiHeadAttention a
            /\ MultiheadAttention_of cq h ckv ckv p a /\ fresh w w' (params m).
Proof.
  unfold new_MultiHeadAttention. intros H. step H as a w1 Ha. done H.
  apply new_MultiheadAttention_ok in Ha as [Ha Hf]. eauto.
Qed.

Lemma mlp_ok (c : Z) (w w' : World) (m : Module) :
  mlp c w = (Ok m, w') -> mlp_of c m /\ fresh w w' (params m).
Proof.
  unfold mlp. intros H.
  step H as ln w1 Hln. step H as l1 w2 Hl1. step H as l2 w3 Hl2. done H.
  apply new_LayerNorm_ok in Hln as [H1 F1].
  apply new_Linear_ok in Hl1 as [H2 F2], Hl2 as [H3 F3].
  split; [exists ln, l1, l2; auto|].
  cbn [params flat_map]. rewrite app_nil_r. cbn [app].
  eapply fresh_app; eauto. eapply fresh_app; eauto.
Qed.

Lemma cross_attention_layer_ok (cq ckv h : Z) (p : Q) (w w' : World) (m : Module) :
  cross_attention_layer cq ckv h p w = (Ok m, w') ->
  cross_attention_layer_of cq ckv h p m /\ fresh w w' (params m).
Proof.
  unfold cross_attention_layer, new_CrossAttention. intros H.
  step H as ca w1 Hca. step H as r1 w2 Hr1. step H as ff w3 Hff.
  step H as r2 w4 Hr2. done H.
  step Hca as qn v1 Hqn. step Hca as kvn v2 Hkvn. step Hca as att v3 Hatt. done Hca.
  apply new_LayerNorm_ok in Hqn as [Hq Fq], Hkvn as [Hkv Fkv].
  apply new_MultiHeadAttention_ok in Hatt as (a & -> & Hatt & Fatt).
  apply new_Residual_ok in Hr1 as [-> ->], Hr2 as [-> ->].
  apply mlp_ok in Hff as [Hff Fff].
  split; [exists qn, kvn, a, ff; auto|].
  cbn [params flat_map]. rewrite !app_nil_r.
  repeat (eapply fresh_app; eauto).
Qed.

Lemma self_attention_layer_ok (c h : Z) (p : Q) (w w' : World) (m : Module) :
  self_attention_layer c h p w = (Ok m, w') ->
  self_attention_layer_of c h p m /\ fresh w w' (params m).
Proof.
  unfold self_attention_layer, new_SelfAttention. intros H.
  step H as sa w1 Hsa. step H as r1 w2 Hr1. step H as ff w3 Hff.
  step H as r2 w4 Hr2. done H.
  step Hsa as n v1 Hn. step Hsa as att v2 Hatt. done Hsa.
  apply new_LayerNorm_ok in Hn as [Hn Fn].
  apply new_MultiHeadAttention_ok in Hatt as (a & -> & Hatt & Fatt).
  apply new_Residual_ok in Hr1 as [-> ->], Hr2 as [-> ->].
  apply mlp_ok in Hff as [Hff Fff].
  split; [exists n, a, ff; auto|].
  cbn [params flat_map]. rewrite !app_nil_r.
  repeat (eapply fresh_app; eauto).
Qed.

Lemma comprehension_ok (P : Module -> Prop) (e : M Module) :
  (forall w w' m, e w = (Ok m, w') -> P m /\ fresh w w' (params m)) ->
  forall n w w' l,
    comprehension n e w = (Ok l, w') ->
    length l = n /\ Forall P l /\ fresh w w' (flat_map params l).
Proof.
  intros He. induction n as [|n IH]; intros w w' l H; cbn [comprehension] in H.
  - done H. split; [reflexivity|]. split; [constructor | apply fresh_nil].
  - step H as m w1 Hm. step H as rest w2 Hrest. done H.
    apply He in Hm as [HP HF]. apply IH in Hrest as (Hl & HFa & HFr).
    cbn [length flat_map]. split; [congruence|]. split; [constructor; auto|].
    eapply fresh_app; eauto.
Qed.

Lemma self_attention_block_ok (depth c h : Z) (p : Q) (w w' : World) (m : Module) :
  self_attention_block depth c h p w = (Ok m, w') ->
  self_attention_block_of depth c h p m /\ fresh w w' (params m).
Proof.
  unfold self_attention_block. intros H. step H as layers w1 Hl. done H.
  apply (comprehension_ok (self_attention_layer_of c h p)) in Hl
    as (Hl & HF & Hfr); [|apply self_attention_layer_ok].
  split; [exists layers; auto | exact Hfr].
Qed.

Lemma create_perceiver_layer_ok (ia : InputAdapter) (c hc hs depth : Z) (p : Q)
    (w w' : World) (m : Module) :
  create_perceiver_layer ia c hc hs depth p w = (Ok m, w') ->
  perceiver_layer_of c (num_input_channels ia) hc hs depth p m
  /\ fresh w w' (params m).
Proof.
  unfold create_perceiver_layer. intros H.
  step H as ca w1 Hca. step H as sb w2 Hsb. done H.
  apply cross_attention_layer_ok in Hca as [Hca Fca].
  apply self_attention_block_ok in Hsb as [Hsb Fsb].
  split; [exists ca, sb; auto|].
  cbn [params flat_map]. rewrite app_nil_r.
  eapply fresh_app; eauto.
Qed.

End Construction.

(* ================================================================== *)
(** ** Shapes through the forward passes *)

Section Shapes.

Context {T : Torch} {TS : TorchSpec T}.

Variable training : bool.

Lemma returns_bind (m : M Tensor) (f : Tensor -> M Tensor) (s s' : list Z) :
  returns_shape m s ->
  (forall y, shape y = s -> returns_shape (f y) s') ->
  returns_shape (bind m f) s'.
Proof.
  intros Hm Hf w. destruct (Hm w) as (y & w1 & E & Hs).
  rewrite (bind_Ok _ _ _ _ _ E). apply Hf, Hs.
Qed.

Lemma returns_ret (y : Tensor) : returns_shape (ret y) (shape y).
Proof. intros w. exists y, w. auto. Qed.

Lemma returns_lift (r : Result Tensor) (s : list Z) :
  (exists y, r = Ok y /\ shape y = s) -> returns_shape (lift r) s.
Proof. intros (y & -> & Hs) w. exists y, w. auto. Qed.

Lemma returns_dropout (x : Tensor) (p : Q) :
  returns_shape (sample (dropout x p training)) (shape x).
Proof.
  intros w. unfold sample.
  pose proof (dropout_shape x p training (gen w)) as Hs.
  destruct (dropout x p training (gen w)) as [y g]. cbn in Hs. eauto.
Qed.

Lemma call_LayerNorm (c : Z) (m : Module) (x : Tensor) :
  LayerNorm_of c m -> last (shape x) (-1) = c ->
  returns_shape (call training m [Some x]) (shape x).
Proof.
  intros (wt & b & -> & Hw & Hb) Hx w. cbn [call].
  unfold LayerNorm_forward, bind_input, tensor_arg, bind, ret, lift.
  destruct (layer_norm_shape x c _ _ Hw Hb Hx) as (y & -> & Hs). eauto.
Qed.

Lemma call_Linear (i o : Z) (m : Module) (x : Tensor) (pre : list Z) :
  Linear_of i o m -> shape x = pre ++ [i] ->
  returns_shape (call training m [Some x]) (pre ++ [o]).
Proof.
  intros (wt & b & -> & Hw & Hb) Hx w. cbn [call].
  unfold Linear_forward, bind_input, tensor_arg, bind, ret, lift.
  destruct (linear_shape x _ _ pre i o Hw Hb Hx) as (y & -> & Hs). eauto.
Qed.

Lemma call_GELU (x : Tensor) :
  returns_shape (call training GELU [Some x]) (shape x).
Proof.
  intros w. cbn [call]. unfold GELU_forward, bind_input, tensor_arg, bind, ret.
  exists (gelu x), w. split; [reflexivity | apply gelu_shape].
Qed.

Lemma call_Dropout (p : Q) (x : Tensor) :
  returns_shape (call training (Dropout p) [Some x]) (shape x).
Proof.
  intros w. cbn [call]. unfold Dropout_forward, bind_input, tensor_arg, bind, ret.
  apply returns_dropout.
Qed.

(** The feed-forward block keeps the shape of a tensor whose last dimension
    is its channel width. *)
Lemma call_mlp (c : Z) (m : Module) (x : Tensor) (pre : list Z) :
  mlp_of c m -> shape x = pre ++ [c] ->
  returns_shape (call training m [Some x]) (pre ++ [c]).
Proof.
  intros (ln & l1 & l2 & -> & Hln & Hl1 & Hl2) Hx. cbn [call Sequential_forward].
  apply (returns_bind _ _ (pre ++ [c])).
  { rewrite <- Hx. apply (call_LayerNorm c); auto. rewrite Hx. apply last_last. }
  intros y1 Hy1. apply (returns_bind _ _ (pre ++ [c])).
  { apply (call_Linear c c); auto. }
  intros y2 Hy2. apply (returns_bind _ _ (pre ++ [c])).
  { rewrite <- Hy2. apply call_GELU. }
  intros y3 Hy3. apply (returns_bind _ _ (pre ++ [c])).
  { apply (call_Linear c c); auto. }
  intros y4 Hy4. rewrite <- Hy4. apply returns_ret.
Qed.

(** A residual wrapper around a module that keeps the shape of its first
    argument keeps that shape. *)
Lemma call_Residual (md : Module) (p : Q) (x0 : Tensor) (rest : list Arg) :
  returns_shape (call training md (Some x0 :: rest)) (shape x0) ->
  returns_shape (call training (Residual md (Dropout p) p) (Some x0 :: rest)) (shape x0).
Proof.
  intros Hmd. cbn [call]. unfold Residual_forward.
  apply (returns_bind _ _ (shape x0)); [exact Hmd|].
  intros y Hy. apply (returns_bind _ _ (shape x0)).
  { rewrite <- Hy. apply call_Dropout. }
  intros d Hd. cbn [tensor_arg]. intros w. unfold bind, ret, lift.
  destruct (tensor_add_shape d x0 Hd) as (z & -> & Hz). exists z, w.
  split; [reflexivity | congruence].
Qed.

Lemma call_MultiHeadAttention (e h kd : Z) (p : Q) (a : MultiheadAttention)
    (q kv : Tensor) (pad : Arg) (b tq tk : Z) :
  MultiheadAttention_of e h kd kd p a ->
  shape q = [b; tq; e] -> shape kv = [b; tk; kd] -> pad_mask_ok b tk pad ->
  returns_shape (call training (MultiHeadAttention a) [Some q; Some kv; pad; None])
    [b; tq; e].
Proof.
  intros (He & Hh & Hkd & Hvd & Hp & Hpos & Hdiv & Hps) Hq Hkv Hpad w.
  cbn [call]. unfold MultiHeadAttention_forward.
  cbn [bind_q_kv]. unfold bind, lift, tensor_arg, ret, sample_result.
  rewrite He, Hh, Hp.
  destruct (mha_shape e h (map pdata (attn_params a)) p training q kv kv pad
              (gen w) b tq tk kd kd Hpos Hdiv Hps Hq Hkv Hkv Hpad)
    as (y & ws & g' & -> & Hy).
  cbn [fst]. eauto.
Qed.

Lemma returns_bound {A} (r : Result A) (a : A) (f : A -> M Tensor) (s : list Z) :
  r = Ok a -> returns_shape (f a) s -> returns_shape (bind (lift r) f) s.
Proof. intros -> H w. apply H. Qed.

Lemma call_CrossAttention (cq ckv h : Z) (p : Q) (qn kvn : Module)
    (a : MultiheadAttention) (args : list Arg) (q kv : Tensor) (pad : Arg)
    (b tq tk : Z) :
  LayerNorm_of cq qn -> LayerNorm_of ckv kvn ->
  MultiheadAttention_of cq h ckv ckv p a ->
  bind_q_kv args = Ok (Some q, Some kv, pad, None) ->
  shape q = [b; tq; cq] -> shape kv = [b; tk; ckv] -> pad_mask_ok b tk pad ->
  returns_shape (call training (CrossAttention qn kvn (MultiHeadAttention a)) args)
    [b; tq; cq].
Proof.
  intros Hqn Hkvn Ha Hargs Hq Hkv Hpad. cbn [call].
  unfold CrossAttention_forward.
  eapply returns_bound; [exact Hargs|]. cbn beta iota.
  apply (returns_bind _ _ [b; tq; cq]).
  { rewrite <- Hq. apply (call_LayerNorm cq); auto. now rewrite Hq. }
  intros q' Hq'. apply (returns_bind _ _ [b; tk; ckv]).
  { rewrite <- Hkv. apply (call_LayerNorm ckv); auto. now rewrite Hkv. }
  intros kv' Hkv'.
  apply (call_MultiHeadAttention cq h ckv p a q' kv' pad b tq tk); auto.
Qed.

Lemma call_SelfAttention (c h : Z) (p : Q) (n : Module) (a : MultiheadAttention)
    (x : Tensor) (b t : Z) :
  LayerNorm_of c n -> MultiheadAttention_of c h c c p a ->
  shape x = [b; t; c] ->
  returns_shape (call training (SelfAttention n (MultiHeadAttention a)) [Some x])
    [b; t; c].
Proof.
  intros Hn Ha Hx. cbn [call]. unfold SelfAttention_forward.
  eapply returns_bound; [reflexivity|]. cbn beta iota.
  apply (returns_bind _ _ [b; t; c]).
  { rewrite <- Hx. apply (call_LayerNorm c); auto. now rewrite Hx. }
  intros x' Hx'.
  apply (call_MultiHeadAttention c h c p a x' x' None b t t); auto.
  intros m [=].
Qed.

(** A cross-attention layer returns a tensor of the shape of its query. *)
Lemma call_cross_attention_layer (cq ckv h : Z) (p : Q) (m : Module)
    (q kv : Tensor) (rest : list Arg) (pad : Arg) (b tq tk : Z) :
  cross_attention_layer_of cq ckv h p m ->
  bind_q_kv (Some q :: rest) = Ok (Some q, Some kv, pad, None) ->
  shape q = [b; tq; cq] -> shape kv = [b; tk; ckv] -> pad_mask_ok b tk pad ->
  returns_shape (call training m (Some q :: rest)) [b; tq; cq].
Proof.
  intros (qn & kvn & a & ff & -> & Hqn & Hkvn & Ha & Hff) Hargs Hq Hkv Hpad.
  cbn [call Sequential_forward].
  apply (returns_bind _ _ [b; tq; cq]).
  { rewrite <- Hq. apply call_Residual. rewrite Hq.
    apply (call_CrossAttention cq ckv h p qn kvn a _ q kv pad b tq tk); auto. }
  intros y Hy. apply (returns_bind _ _ [b; tq; cq]).
  { rewrite <- Hy. apply call_Residual. rewrite Hy.
    apply (call_mlp cq ff y [b; tq]); auto. }
  intros z Hz. rewrite <- Hz. apply returns_ret.
Qed.

(** A self-attention layer returns a tensor of the shape of its input. *)
Lemma call_self_attention_layer (c h : Z) (p : Q) (m : Module) (x : Tensor)
    (b t : Z) :
  self_attention_layer_of c h p m -> shape x = [b; t; c] ->
  returns_shape (call training m [Some x]) [b; t; c].
Proof.
  intros (n & a & ff & -> & Hn & Ha & Hff) Hx.
  cbn [call Sequential_forward].
  apply (returns_bind _ _ [b; t; c]).
  { rewrite <- Hx. apply call_Residual. rewrite Hx.
    apply (call_SelfAttention c h p); auto. }
  intros y Hy. apply (returns_bind _ _ [b; t; c]).
  { rewrite <- Hy. apply call_Residual. rewrite Hy.
    apply (call_mlp c ff y [b; t]); auto. }
  intros z Hz. rewrite <- Hz. apply returns_ret.
Qed.

(** A stack of modules that each keep a shape keeps it. *)
Lemma Sequential_keeps_shape (s : list Z) (layers : list Module) :
  Forall (fun m => forall x, shape x = s ->
                   returns_shape (call training m [Some x]) s) layers ->
  forall x, shape x = s ->
  returns_shape (Sequential_forward (call training) layers [Some x]) s.
Proof.
  induction 1 as [|m rest Hm Hrest IH]; intros x Hx.
  - cbn [Sequential_forward bind_input tensor_arg]. rewrite <- Hx. apply returns_ret.
  - cbn [Sequential_forward]. apply (returns_bind _ _ s); [apply Hm, Hx|].
    intros y Hy. destruct rest as [|m' rest'].
    + rewrite <- Hy. apply returns_ret.
    + apply IH, Hy.
Qed.

Lemma call_self_attention_block (depth c h : Z) (p : Q) (m : Module) (x : Tensor)
    (b t : Z) :
  self_attention_block_of depth c h p m -> shape x = [b; t; c] ->
  returns_shape (call training m [Some x]) [b; t; c].
Proof.
  intros (layers & -> & _ & Hl) Hx. cbn [call].
  apply Sequential_keeps_shape; [|exact Hx].
  eapply Forall_impl; [|exact Hl].
  intros l Hlayer y Hy. now apply (call_self_attention_layer c h p).
Qed.

(** A compound layer returns a latent of the shape of the latent it is
    given, whatever the length of the input sequence. *)
Lemma call_perceiver_layer (c cin hc hs depth : Z) (p : Q) (m : Module)
    (latent x : Tensor) (pad : Arg) (b n len : Z) :
  perceiver_layer_of c cin hc hs depth p m ->
  shape latent = [b; n; c] -> shape x = [b; len; cin] -> pad_mask_ok b len pad ->
  returns_shape (call training m [Some latent; Some x; pad]) [b; n; c].
Proof.
  intros (ca & sb & -> & Hca & Hsb) Hl Hx Hpad.
  cbn [call Sequential_forward].
  apply (returns_bind _ _ [b; n; c]).
  { apply (call_cross_attention_layer c cin hc p ca latent x _ pad b n len); auto. }
  intros y Hy. apply (returns_bind _ _ [b; n; c]).
  { apply (call_self_attention_block depth c hs p); auto. }
  intros z Hz. rewrite <- Hz. apply returns_ret.
Qed.

(** A loop whose body keeps a shape keeps it. *)
Lemma for_range_keeps_shape (s : list Z) (body : Z -> Tensor -> M Tensor) :
  (forall i y, shape y = s -> returns_shape (body i y) s) ->
  forall n i y, shape y = s -> returns_shape (for_range_from i n body y) s.
Proof.
  intros Hbody. induction n as [|n IH]; intros i y Hy; cbn [for_range_from].
  - rewrite <- Hy. apply returns_ret.
  - apply (returns_bind _ _ s); [apply Hbody, Hy|].
    intros y' Hy'. apply IH, Hy'.
Qed.

End Shapes.

(* ================================================================== *)
(** ** The cross-attention layer *)

Section CrossAttentionLayer.

Context {T : Torch} {TS : TorchSpec T}.

Lemma bind_assoc {A B C} (m : M A) (f : A -> M B) (g : B -> M C) (w : World) :
  bind (bind m f) g w = bind m (fun a => bind (f a) g) w.
Proof.
  unfold bind. destruct (m w) as [[a|e] w1]; reflexivity.
Qed.

Lemma bind_ret_l {A B} (a : A) (f : A -> M B) (w : World) :
  bind (ret a) f w = f a w.
Proof. reflexivity. Qed.

Lemma bind_ret_r {A} (m : M A) (w : World) : bind m ret w = m w.
Proof. unfold bind, ret. destruct (m w) as [[a|e] w1]; reflexivity. Qed.

Lemma bind_lift_Ok {A B} (a : A) (f : A -> M B) (w : World) :
  bind (lift (Ok a)) f w = f a w.
Proof. reflexivity. Qed.

Lemma bind_ext {A B} (m : M A) (f g : A -> M B) (w : World) :
  (forall a w', f a w' = g a w') -> bind m f w = bind m g w.
Proof.
  intros H. unfold bind. destruct (m w) as [[a|e] w1]; [apply H | reflexivity].
Qed.

(** Two runs that start with the same step agree when their continuations do. *)
Ltac next_step :=
  repeat (rewrite bind_assoc || rewrite bind_ret_l);
  first [ reflexivity
        | rewrite bind_ret_r; reflexivity
        | apply bind_ext; intros ? ? ].

Lemma cross_attention_layer_unfolds (training : bool) (p : Q) (qn kvn : Module)
    (a : MultiheadAttention) (ln l1 l2 : Module) (args : list Arg)
    (q kv : Tensor) (pad am : Arg) (w : World) :
  bind_q_kv args = Ok (Some q, Some kv, pad, am) ->
  call training
    (Sequential [Residual (CrossAttention qn kvn (MultiHeadAttention a)) (Dropout p) p;
                 Residual (Sequential [ln; l1; GELU; l2]) (Dropout p) p]) args w
  = spec_cross_attention_layer training p qn kvn a ln l1 l2 q kv pad am w.
Proof.
  intros Hargs.
  assert (exists rest, args = Some q :: rest) as (rest & ->).
  { destruct args as [|a0 [|a1 [|a2 [|a3 [|]]]]]; cbn in Hargs; try discriminate;
      injection Hargs as -> _ _ _; eauto. }
  unfold spec_cross_attention_layer.
  cbn [call Sequential_forward]. unfold Residual_forward.
  cbn [call Sequential_forward]. unfold CrossAttention_forward.
  rewrite Hargs.
  cbn [call]. unfold Dropout_forward, GELU_forward.
  cbn [bind_input tensor_arg].
  repeat rewrite bind_assoc. rewrite bind_lift_Ok. cbv beta iota.
  repeat next_step.
Qed.

(** What [cross_attention_layer] builds, with the worlds between the
    creation of its parts. *)
Lemma cross_attention_layer_built (cq ckv h : Z) (p : Q) (w0 w1 : World) (m : Module) :
  cross_attention_layer cq ckv h p w0 = (Ok m, w1) ->
  exists qn kvn a ln l1 l2 v1 v2,
    m = Sequential [Residual (CrossAttention qn kvn (MultiHeadAttention a)) (Dropout p) p;
                    Residual (Sequential [ln; l1; GELU; l2]) (Dropout p) p]
    /\ LayerNorm_of cq qn /\ fresh w0 v1 (params qn)
    /\ LayerNorm_of ckv kvn /\ fresh v1 v2 (params kvn)
    /\ MultiheadAttention_of cq h ckv ckv p a
    /\ LayerNorm_of cq ln /\ Linear_of cq cq l1 /\ Linear_of cq cq l2.
Proof.
  unfold cross_attention_layer, new_CrossAttention. intros H.
  step H as ca w2 Hca. step H as r1 w3 Hr1. step H as ff w4 Hff.
  step H as r2 w5 Hr2. done H.
  step Hca as qn v1 Hqn. step Hca as kvn v2 Hkvn. step Hca as att v3 Hatt. done Hca.
  apply new_LayerNorm_ok in Hqn as [Hq Fq], Hkvn as [Hkv Fkv].
  apply new_MultiHeadAttention_ok in Hatt as (a & -> & Hatt & Fatt).
  apply new_Residual_ok in Hr1 as [-> ->], Hr2 as [-> ->].
  apply mlp_ok in Hff as [(ln & l1 & l2 & -> & Hln & Hl1 & Hl2) _].
  exists qn, kvn, a, ln, l1, l2, v1, v2. repeat (split; [assumption || reflexivity|]).
  assumption.
Qed.

(** C9.  A layer built by [cross_attention_layer] consists of two LayerNorms
    with parameters of their own, one for the query and one for the
    key/value stream, an attention module and a feed-forward block
    LayerNorm, Linear, GELU, Linear.  Called on a query [q] and a key/value
    input [kv] it computes what the specification says: attention of the
    normalised [q] over the normalised [kv], its result added to [q] itself,
    then the feed-forward block with its result added to its input.  On a
    query of shape (b, tq, cq) and a key/value input of shape (b, tk, ckv) it
    returns a tensor of the shape of the query. *)
Theorem cross_attention_layer_wiring (training : bool) (cq ckv h : Z) (p : Q)
    (w0 w1 : World) (m : Module) :
  cross_attention_layer cq ckv h p w0 = (Ok m, w1) ->
  exists qn kvn a ln l1 l2,
    LayerNorm_of cq qn /\ LayerNorm_of ckv kvn
    /\ (forall i, In i (pids qn) -> ~ In i (pids kvn))
    /\ LayerNorm_of cq ln /\ Linear_of cq cq l1 /\ Linear_of cq cq l2
    /\ (forall args q kv pad am w,
          bind_q_kv args = Ok (Some q, Some kv, pad, am) ->
          call training m args w
          = spec_cross_attention_layer training p qn kvn a ln l1 l2 q kv pad am w)
    /\ (forall q kv pad b tq tk,
          shape q = [b; tq; cq] -> shape kv = [b; tk; ckv] -> pad_mask_ok b tk pad ->
          returns_shape (call training m [Some q; Some kv; pad]) (shape q)).
Proof.
  intros H.
  pose proof (cross_attention_layer_ok cq ckv h p w0 w1 m H) as [Hof _].
  destruct (cross_attention_layer_built cq ckv h p w0 w1 m H)
    as (qn & kvn & a & ln & l1 & l2 & v1 & v2
        & -> & Hqn & Fqn & Hkvn & Fkvn & Ha & Hln & Hl1 & Hl2).
  exists qn, kvn, a, ln, l1, l2.
  split; [exact Hqn|]. split; [exact Hkvn|].
  split; [intros i; apply (fresh_disjoint w0 v1 v2); assumption|].
  split; [exact Hln|]. split; [exact Hl1|]. split; [exact Hl2|].
  split.
  - intros args q kv pad am w Hargs. now apply cross_attention_layer_unfolds.
  - intros q kv pad b tq tk Hq Hkv Hpad. rewrite Hq.
    apply (call_cross_attention_layer training cq ckv h p _ q kv [Some kv; pad]
             pad b tq tk); auto.
Qed.

End CrossAttentionLayer.

(* ================================================================== *)
(** ** The encoder *)

Section Encoder.

Context {T : Torch} {TS : TorchSpec T}.

(** What [PerceiverEncoder.__init__] builds. *)
Lemma new_PerceiverEncoder_ok (ia : InputAdapter) (n c : Z)
    (num_layers hc hs depth : Z) (p : Q) (w0 w3 : World) (enc : Module) :
  new_PerceiverEncoder ia (n, c) num_layers hc hs depth p w0 = (Ok enc, w3) ->
  exists l1 lno lat w1 w2,
    enc = PerceiverEncoder ia num_layers l1 lno lat
    /\ create_perceiver_layer ia c hc hs depth p w0 = (Ok l1, w1)
    /\ (if 1 <? num_layers
        then exists ln, lno = Some ln
                        /\ create_perceiver_layer ia c hc hs depth p w1 = (Ok ln, w2)
        else lno = None /\ w2 = w1)
    /\ new_parameter [n; c] w2 = (Ok lat, w3).
Proof.
  unfold new_PerceiverEncoder. cbn [fst snd]. intros H.
  step H as l1 w1 Hl1. step H as lno w2 Hln. step H as lat w3' Hlat. done H.
  exists l1, lno, lat, w1, w2. split; [reflexivity|]. split; [exact Hl1|].
  split; [|exact Hlat].
  destruct (1 <? num_layers).
  - step Hln as ln w2' Hln'. done Hln. eauto.
  - done Hln. auto.
Qed.

(** The loop of the encoder applies the shared layer to the latent it holds,
    as many times as it iterates: after [k] more iterations the latent is
    the one of iteration [i + k] of the specification. *)
Lemma encoder_loop (training : bool) (l1 ln : Module) (x : Tensor) (pad : Arg)
    (lat0 : Tensor) :
  forall (k i : nat) (j : Z) (w : World),
    bind (spec_latents training l1 ln x pad lat0 i)
      (for_range_from j k
         (fun _ x_latent =>
            match Some ln with
            | Some layer_n => call training layer_n [Some x_latent; Some x; pad]
            | None => raise (AttributeError
                               "'PerceiverEncoder' object has no attribute 'layer_n'")
            end)) w
    = spec_latents training l1 ln x pad lat0 (i + k) w.
Proof.
  induction k as [|k IH]; intros i j w; cbn [for_range_from].
  - rewrite Nat.add_0_r. apply bind_ret_r.
  - rewrite <- bind_assoc.
    replace (i + S k)%nat with (S i + k)%nat by lia.
    rewrite <- (IH (S i) (j + 1) w). reflexivity.
Qed.

Lemma PerceiverEncoder_forward_shape (training : bool) (ia : InputAdapter)
    (c hc hs depth num_layers : Z) (p : Q) (l1 : Module) (lno : option Module)
    (lat : Param) (x : Tensor) (pad : Arg) (b n len : Z) (rest : list Z) :
  perceiver_layer_of c (num_input_channels ia) hc hs depth p l1 ->
  (if 1 <? num_layers
   then exists ln, lno = Some ln
                   /\ perceiver_layer_of c (num_input_channels ia) hc hs depth p ln
   else True) ->
  shape (pdata lat) = [n; c] ->
  shape x = b :: rest ->
  returns_shape (input_adapter_forward ia x) [b; len; num_input_channels ia] ->
  pad_mask_ok b len pad ->
  returns_shape
    (x' <- tensor_arg (Some x) ;;
     match shape x' with
     | [] => raise (ValueError "not enough values to unpack (expected at least 1, got 0)")
     | b :: _ =>
         x'' <- input_adapter_forward ia x' ;;
         x_latent <- call training l1
                       [Some (einops_repeat (pdata lat) b); Some x''; pad] ;;
         for_range (num_layers - 1)
           (fun _ x_latent =>
              match lno with
              | Some layer_n => call training layer_n [Some x_latent; Some x''; pad]
              | None => raise (AttributeError
                                 "'PerceiverEncoder' object has no attribute 'layer_n'")
              end)
           x_latent
     end)
    [b; n; c].
Proof.
  intros Hl1 Hln Hlat Hx Hadapt Hpad w.
  cbn [tensor_arg]. rewrite bind_ret_l. rewrite Hx. revert w.
  apply (returns_bind _ _ [b; len; num_input_channels ia]); [exact Hadapt|].
  intros xa Hxa.
  apply (returns_bind _ _ [b; n; c]).
  { apply (call_perceiver_layer training c (num_input_channels ia) hc hs depth p
             l1 _ xa pad b n len); auto.
    rewrite einops_repeat_shape, Hlat. reflexivity. }
  intros y Hy. unfold for_range.
  destruct (1 <? num_layers) eqn:E.
  - destruct Hln as (ln & -> & Hln).
    apply for_range_keeps_shape; [|exact Hy].
    intros i z Hz.
    apply (call_perceiver_layer training c (num_input_channels ia) hc hs depth p
             ln z xa pad b n len); auto.
  - apply Z.ltb_ge in E.
    replace (Z.to_nat (num_layers - 1)) with O by lia.
    cbn [for_range_from]. rewrite <- Hy. apply returns_ret.
Qed.

(** C6.  An encoder built for the latent shape (n, c), with self-attention
    blocks of at least one layer, returns a tensor of shape (b, n, c) on
    every input of batch size [b] that its input adapter turns into a tensor
    of shape (b, len, num_input_channels), with or without a padding mask of
    shape (b, len): the shape does not mention [len]. *)
Theorem encoder_output_shape (training : bool) (ia : InputAdapter)
    (n c num_layers hc hs depth : Z) (p : Q) (w0 w1 : World) (enc : Module)
    (x : Tensor) (pad : Arg) (b len : Z) (rest : list Z) :
  new_PerceiverEncoder ia (n, c) num_layers hc hs depth p w0 = (Ok enc, w1) ->
  0 < depth ->
  shape x = b :: rest ->
  returns_shape (input_adapter_forward ia x) [b; len; num_input_channels ia] ->
  pad_mask_ok b len pad ->
  returns_shape (call training enc [Some x; pad]) [b; n; c]
  /\ returns_shape (call training enc [Some x]) [b; n; c].
Proof.
  intros H _ Hx Hadapt Hpad.
  destruct (new_PerceiverEncoder_ok ia n c num_layers hc hs depth p w0 w1 enc H)
    as (l1 & lno & lat & v1 & v2 & -> & Hl1 & Hln & Hlat).
  apply create_perceiver_layer_ok in Hl1 as [Hl1 _].
  apply new_parameter_ok in Hlat as [Hlat _].
  assert (if 1 <? num_layers
          then exists ln, lno = Some ln
                 /\ perceiver_layer_of c (num_input_channels ia) hc hs depth p ln
          else True) as Hln'.
  { destruct (1 <? num_layers); [|exact I].
    destruct Hln as (ln & -> & Hln).
    apply create_perceiver_layer_ok in Hln as [Hln _]. eauto. }
  split; cbn [call]; unfold PerceiverEncoder_forward;
    (eapply returns_bound; [reflexivity|]); cbv beta iota.
  - apply (PerceiverEncoder_forward_shape training ia c hc hs depth num_layers p
             l1 lno lat x pad b n len rest); auto.
  - apply (PerceiverEncoder_forward_shape training ia c hc hs depth num_layers p
             l1 lno lat x None b n len rest); auto.
    intros m [=].
Qed.

Lemma perceiver_layer_has_parameters (c cin hc hs depth : Z) (p : Q) (m : Module) :
  perceiver_layer_of c cin hc hs depth p m -> pids m <> [].
Proof.
  intros (ca & sb & -> & (qn & kvn & a & ff & -> & (wq & bq & -> & _) & _) & _).
  cbn. discriminate.
Qed.

(** C1.  An encoder built with [num_layers > 1] holds exactly two compound
    layers, the primary one and the shared one: each is a cross-attention
    layer followed by a self-attention block, of the widths, head counts,
    depth and dropout rate given to the constructor; they are made of
    different parameter objects; and the parameter objects construction
    created are those of the primary layer, then those of the shared layer,
    then the latent, and no other.  The layers and the latent are the same
    whatever [num_layers > 1] is.  Its forward pass is the specification's
    sequence of latents at iteration [num_layers - 1]: the primary layer
    applied once to the repeated latent parameter, then the one shared layer
    (the same module, hence the same parameter objects) applied
    [num_layers - 1] times, each to the latent the previous application
    returned.  Built with [num_layers <= 1], the encoder holds the primary
    layer only, construction created its parameters and the latent and no
    other, and its forward pass applies it once. *)
Theorem encoder_shares_one_layer (training : bool) (ia : InputAdapter)
    (latent_shape : Z * Z) (num_layers hc hs depth : Z) (p : Q)
    (w0 w1 : World) (enc : Module) :
  new_PerceiverEncoder ia latent_shape num_layers hc hs depth p w0 = (Ok enc, w1) ->
  exists l1 lat,
    perceiver_layer_of (snd latent_shape) (num_input_channels ia) hc hs depth p l1
    /\ pids l1 <> []
    /\ shape (pdata lat) = [fst latent_shape; snd latent_shape]
    /\ (1 < num_layers ->
        exists ln,
          enc = PerceiverEncoder ia num_layers l1 (Some ln) lat
          /\ compound_layers enc = [l1; ln]
          /\ perceiver_layer_of (snd latent_shape) (num_input_channels ia)
               hc hs depth p ln
          /\ pids ln <> []
          /\ NoDup (pids l1 ++ pids ln)
          /\ fresh w0 w1 (params l1 ++ params ln ++ [lat])
          /\ (forall num_layers',
                1 < num_layers' ->
                new_PerceiverEncoder ia latent_shape num_layers' hc hs depth p w0
                = (Ok (PerceiverEncoder ia num_layers' l1 (Some ln) lat), w1))
          /\ (forall x pad b rest w,
                shape x = b :: rest ->
                call training enc [Some x; pad] w
                = (xa <- input_adapter_forward ia x ;;
                   spec_latents training l1 ln xa pad
                     (einops_repeat (pdata lat) b) (Z.to_nat (num_layers - 1))) w))
    /\ (num_layers <= 1 ->
        enc = PerceiverEncoder ia num_layers l1 None lat
        /\ compound_layers enc = [l1]
        /\ fresh w0 w1 (params l1 ++ [lat])
        /\ (forall x pad b rest w,
              shape x = b :: rest ->
              call training enc [Some x; pad] w
              = (xa <- input_adapter_forward ia x ;;
                 call training l1 [Some (einops_repeat (pdata lat) b); Some xa; pad]) w)).
Proof.
  destruct latent_shape as [n c]. cbn [fst snd]. intros H.
  destruct (new_PerceiverEncoder_ok ia n c num_layers hc hs depth p w0 w1 enc H)
    as (l1 & lno & lat & v1 & v2 & -> & Hl1 & Hln & Hlat).
  destruct (create_perceiver_layer_ok _ _ _ _ _ _ _ _ _ Hl1) as [Sl1 Fl1].
  destruct (new_parameter_ok _ _ _ _ Hlat) as [Slat Flat].
  exists l1, lat.
  split; [exact Sl1|].
  split; [exact (perceiver_layer_has_parameters _ _ _ _ _ _ _ Sl1)|].
  split; [exact Slat|]. split.
  - intros HL. apply Z.ltb_lt in HL. rewrite HL in Hln.
    destruct Hln as (ln & -> & Hln). exists ln.
    destruct (create_perceiver_layer_ok _ _ _ _ _ _ _ _ _ Hln) as [Sln Fln].
    split; [reflexivity|]. split; [reflexivity|].
    split; [exact Sln|].
    split; [exact (perceiver_layer_has_parameters _ _ _ _ _ _ _ Sln)|].
    split; [|split; [|split]].
    + unfold pids. rewrite <- map_app.
      apply (fresh_NoDup w0 v2), (fresh_app w0 v1 v2); assumption.
    + apply (fresh_app w0 v1 w1); [exact Fl1|].
      apply (fresh_app v1 v2 w1); assumption.
    + intros L' HL'. apply Z.ltb_lt in HL'.
      unfold new_PerceiverEncoder. cbn [fst snd]. rewrite HL'.
      rewrite (bind_Ok _ _ _ _ _ Hl1), bind_assoc, (bind_Ok _ _ _ _ _ Hln).
      rewrite bind_ret_l, (bind_Ok _ _ _ _ _ Hlat). reflexivity.
    + intros x pad b rest w Hx. cbn [call]. unfold PerceiverEncoder_forward.
      cbn [bind_x_pad]. rewrite bind_lift_Ok. cbv beta iota. cbn [tensor_arg].
      rewrite bind_ret_l, Hx. apply bind_ext. intros xa w'.
      unfold for_range.
      apply (encoder_loop training l1 ln xa pad (einops_repeat (pdata lat) b)
               (Z.to_nat (num_layers - 1)) 0 0 w').
  - intros HL. apply Z.ltb_ge in HL. rewrite HL in Hln.
    destruct Hln as [-> ->].
    split; [reflexivity|]. split; [reflexivity|].
    split; [apply (fresh_app w0 v1 w1); assumption|].
    intros x pad b rest w Hx. cbn [call]. unfold PerceiverEncoder_forward.
    cbn [bind_x_pad]. rewrite bind_lift_Ok. cbv beta iota. cbn [tensor_arg].
    rewrite bind_ret_l, Hx. apply bind_ext. intros xa w'.
    unfold for_range. apply Z.ltb_ge in HL.
    replace (Z.to_nat (num_layers - 1)) with O by lia.
    cbn [for_range_from]. apply bind_ret_r.
Qed.

End Encoder.

(* ================================================================== *)
(** ** The decoder *)

Section Decoder.

Context {T : Torch} {TS : TorchSpec T}.

(** What [PerceiverDecoder.__init__] builds for a two-dimensional output
    shape. *)
Lemma new_PerceiverDecoder_ok (oa : OutputAdapter) (n c h : Z) (p : Q)
    (w0 w1 : World) (dec : Module) (k co : Z) :
  output_shape oa = [k; co] ->
  new_PerceiverDecoder oa (n, c) h p w0 = (Ok dec, w1) ->
  exists ca out,
    dec = PerceiverDecoder oa (n, c) ca out
    /\ cross_attention_layer_of co c h p ca
    /\ shape (pdata out) = [k; co].
Proof.
  unfold new_PerceiverDecoder. intros Hos. rewrite Hos. cbn [rev app snd].
  intros H. step H as ca v1 Hca. step H as out v2 Hout. done H.
  apply cross_attention_layer_ok in Hca as [Hca _].
  apply new_parameter_ok in Hout as [Hout _]. eauto.
Qed.

Lemma shape_eqb_spec (d1 d2 n c : Z) :
  shape_eqb [d1; d2] (n, c) = true <-> (d1, d2) = (n, c).
Proof.
  unfold shape_eqb. cbn [fst snd]. rewrite andb_true_iff, !Z.eqb_eq.
  split; [intros [-> ->]; reflexivity | intros [= -> ->]; auto].
Qed.

(** C2.  A decoder built for the latent shape (n, c) and an output adapter
    of output shape (k, co), called on a tensor of shape (b, d1, d2): when
    (d1, d2) differs from (n, c) the call raises the ValueError whose message
    renders both tuples, the observed one first; when they agree the
    cross-attention layer returns a tensor of shape (b, k, co) and the call
    is the output adapter applied to it.  With an output adapter that
    returns on tensors of that shape, the call raises a ValueError exactly
    when the shapes differ. *)
Theorem decoder_checks_the_latent_shape (training : bool) (oa : OutputAdapter)
    (n c h : Z) (p : Q) (w0 w1 : World) (dec : Module) (x : Tensor)
    (b d1 d2 k co : Z) :
  new_PerceiverDecoder oa (n, c) h p w0 = (Ok dec, w1) ->
  output_shape oa = [k; co] ->
  shape x = [b; d1; d2] ->
  (forall t, shape t = [b; k; co] ->
             forall w, exists y w', output_adapter_forward oa t w = (Ok y, w')) ->
  forall w,
    ((exists msg w', call training dec [Some x] w = (Raise (ValueError msg), w'))
     <-> (d1, d2) <> (n, c))
    /\ ((d1, d2) <> (n, c) ->
        call training dec [Some x] w
        = (Raise (ValueError ("Latent shape " ++ tuple_repr [d1; d2]
                              ++ " different from required shape "
                              ++ tuple_repr [n; c])), w))
    /\ ((d1, d2) = (n, c) ->
        exists ca out y w',
          dec = PerceiverDecoder oa (n, c) ca out
          /\ call training ca [Some (einops_repeat (pdata out) b); Some x] w = (Ok y, w')
          /\ shape y = [b; k; co]
          /\ call training dec [Some x] w = output_adapter_forward oa y w').
Proof.
  intros H Hos Hx Hadapt w.
  destruct (new_PerceiverDecoder_ok oa n c h p w0 w1 dec k co Hos H)
    as (ca & out & -> & Hca & Hout).
  assert ((d1, d2) <> (n, c) ->
          call training (PerceiverDecoder oa (n, c) ca out) [Some x] w
          = (Raise (ValueError ("Latent shape " ++ tuple_repr [d1; d2]
                                ++ " different from required shape "
                                ++ tuple_repr [n; c])), w)) as Hbad.
  { intros Hne. cbn [call]. unfold PerceiverDecoder_forward.
    cbn [bind_input tensor_arg]. rewrite bind_ret_l, Hx.
    destruct (shape_eqb [d1; d2] (n, c)) eqn:E.
    - apply shape_eqb_spec in E. contradiction.
    - reflexivity. }
  assert ((d1, d2) = (n, c) ->
          exists y w',
            call training ca [Some (einops_repeat (pdata out) b); Some x] w = (Ok y, w')
            /\ shape y = [b; k; co]
            /\ call training (PerceiverDecoder oa (n, c) ca out) [Some x] w
               = output_adapter_forward oa y w') as Hgood.
  { intros Heq. pose proof Heq as [= -> ->].
    destruct (call_cross_attention_layer training co c h p ca
                (einops_repeat (pdata out) b) x [Some x] None b k n Hca eq_refl
                ltac:(rewrite einops_repeat_shape, Hout; reflexivity) Hx
                ltac:(intros m [=]) w) as (y & w' & Hy & Hs).
    exists y, w'. split; [exact Hy|]. split; [exact Hs|].
    cbn [call]. unfold PerceiverDecoder_forward.
    cbn [bind_input tensor_arg]. rewrite bind_ret_l, Hx.
    rewrite (proj2 (shape_eqb_spec n c n c) eq_refl). cbn [negb].
    apply (bind_Ok _ _ _ _ _ Hy). }
  split; [|split].
  - split.
    + intros (msg & w' & Hr) Heq.
      destruct (Hgood Heq) as (y & w2 & _ & Hs & Hcall).
      destruct (Hadapt y Hs w2) as (z & w3 & Hz). congruence.
    + intros Hne. rewrite (Hbad Hne). eauto.
  - exact Hbad.
  - intros Heq. destruct (Hgood Heq) as (y & w' & Hy & Hs & Hcall).
    exists ca, out, y, w'. auto.
Qed.

End Decoder.

(* ================================================================== *)
(** ** The masked language model *)

Section MLM.

Context {T : Torch} {TS : TorchSpec T}.

(** C7.  [PerceiverMLM.forward] without masking is the encoder on the tokens
    as given, the decoder on its latent, and the decoder's output cut to the
    first [l] positions of its sequence dimension, [l] the sequence length of
    the tokens, returned with no labels; with masking it is the same on the
    tokens [TextMasking.forward] returns, with its labels.  Whenever the
    call returns, the logits are that cut of what the decoder returned, of
    sequence length [min k l] for a decoder output of shape (b, k, c). *)
Theorem mlm_logits_are_the_truncated_decoder_output (training : bool)
    (self : PerceiverMLM) (x : Tensor2 Z) (pad : option (Tensor2 bool)) :
  (forall w,
     PerceiverMLM_forward training self x pad false w
     = (x_latent <- call training (encoder self) [Some (of_long x); mask_arg pad] ;;
        out <- call training (decoder self) [Some x_latent] ;;
        logits <- lift (narrow_seq out (Z.of_nat (ncols x))) ;;
        ret (logits, None)) w)
  /\ (forall w,
        PerceiverMLM_forward training self x pad true w
        = (r <- TextMasking_forward (masking self) x pad ;;
           x_latent <- call training (encoder self)
                         [Some (of_long (fst r)); mask_arg pad] ;;
           out <- call training (decoder self) [Some x_latent] ;;
           logits <- lift (narrow_seq out (Z.of_nat (ncols x))) ;;
           ret (logits, Some (snd r))) w)
  /\ (forall masking_on w logits labels w',
        PerceiverMLM_forward training self x pad masking_on w
        = (Ok (logits, labels), w') ->
        exists x_masked x_latent out w1 w2,
          call training (encoder self) [Some (of_long x_masked); mask_arg pad] w1
          = (Ok x_latent, w2)
          /\ call training (decoder self) [Some x_latent] w2 = (Ok out, w')
          /\ narrow_seq out (Z.of_nat (ncols x)) = Ok logits
          /\ (forall b k c, shape out = [b; k; c] ->
                            shape logits = [b; Z.min k (Z.of_nat (ncols x)); c])
          /\ (masking_on = false -> x_masked = x /\ w1 = w /\ labels = None)).
Proof.
  split; [|split].
  - intros w. reflexivity.
  - intros w. unfold PerceiverMLM_forward.
    rewrite bind_assoc. apply bind_ext. intros [xm xl] w1. reflexivity.
  - intros masking_on w logits labels w' H.
    unfold PerceiverMLM_forward in H.
    step H as r w1 Hr. destruct r as [x_masked x_labels].
    step H as x_latent w2 Henc. step H as out w3 Hdec. step H as lg w4 Hlg.
    apply ret_Ok_inv in H as [[= <- <-] <-].
    unfold lift in Hlg. injection Hlg as Hlg <-.
    exists x_masked, x_latent, out, w1, w2.
    split; [exact Henc|]. split; [exact Hdec|]. split; [exact Hlg|].
    split.
    + intros b k c Hs.
      destruct (narrow_seq_shape out (Z.of_nat (ncols x)) b k c Hs ltac:(lia))
        as (y & Hy & Hsy).
      congruence.
    + intros ->. apply ret_Ok_inv in Hr as [[= <- <-] <-]. auto.
Qed.

(** C10.  With masking on and no padding mask, [TextMasking.forward] raises
    a TypeError at [is_special |= pad_mask], and so does
    [PerceiverMLM.forward], whatever its encoder and decoder are: neither is
    called, no draw is taken, and the world is left as it was. *)
Theorem mlm_masking_needs_a_padding_mask (training : bool) (self : PerceiverMLM)
    (x : Tensor2 Z) (w : World) :
  TextMasking_forward (masking self) x None w
  = (Raise (TypeError "unsupported operand type(s) for |=: 'Tensor' and 'NoneType'"), w)
  /\ PerceiverMLM_forward training self x None true w
     = (Raise (TypeError "unsupported operand type(s) for |=: 'Tensor' and 'NoneType'"), w).
Proof. split; reflexivity. Qed.

End MLM.

(* ================================================================== *)
(** ** Repeatability of the forward pass *)

Section Repeatable.

Context {T : Torch} {TS : TorchSpec T}.

Variable training : bool.

Lemma det_ret {A} (a : A) : det (ret a).
Proof. intros w1 w2. reflexivity. Qed.

Lemma det_raise {A} (e : exn) : det (@raise T A e).
Proof. intros w1 w2. reflexivity. Qed.

Lemma det_lift {A} (r : Result A) : det (lift r).
Proof. intros w1 w2. reflexivity. Qed.

Lemma det_bind {A B} (m : M A) (f : A -> M B) :
  det m -> (forall a, det (f a)) -> det (bind m f).
Proof.
  intros Hm Hf w1 w2. unfold bind. specialize (Hm w1 w2).
  destruct (m w1) as [[a1|e1] v1], (m w2) as [[a2|e2] v2]; cbn in Hm;
    try discriminate; injection Hm as <-; [apply Hf | reflexivity].
Qed.

Lemma det_tensor_arg (a : Arg) : det (tensor_arg a).
Proof. destruct a; [apply det_ret | apply det_raise]. Qed.

Lemma det_bind_input (args : list Arg) : det (bind_input args).
Proof.
  destruct args as [|a [|]]; cbn [bind_input];
    [apply det_raise | apply det_tensor_arg | apply det_raise].
Qed.

Lemma det_dropout (x : Tensor) (p : Q) :
  dropout_is_off training p -> det (sample (dropout x p training)).
Proof.
  intros Hoff w1 w2. unfold sample.
  assert (forall g, fst (dropout x p training g) = x) as Hx.
  { intros g. apply dropout_off. destruct Hoff; auto. }
  pose proof (Hx (gen w1)) as H1. pose proof (Hx (gen w2)) as H2.
  destruct (dropout x p training (gen w1)), (dropout x p training (gen w2)).
  cbn in *. congruence.
Qed.

Lemma det_MultiHeadAttention (a : MultiheadAttention) (args : list Arg) :
  dropout_is_off training (attn_dropout a) ->
  det (MultiHeadAttention_forward training a args).
Proof.
  intros Hoff. unfold MultiHeadAttention_forward.
  apply det_bind; [apply det_lift|]. intros [[[x_q x_kv] pad] am].
  apply det_bind; [apply det_tensor_arg|]. intros q.
  apply det_bind; [apply det_tensor_arg|]. intros kv.
  apply det_bind; [|intros r; apply det_ret].
  intros w1 w2. unfold sample_result.
  pose proof (mha_off (embed_dim a) (num_heads a) (map pdata (attn_params a))
                (attn_dropout a) training q kv kv pad am (gen w1) (gen w2)
                ltac:(destruct Hoff; auto)) as H.
  destruct (multi_head_attention_forward _ _ _ _ _ _ _ _ _ _ (gen w1)),
           (multi_head_attention_forward _ _ _ _ _ _ _ _ _ _ (gen w2)).
  exact H.
Qed.

Lemma det_for_range_from {A} (body : Z -> A -> M A) :
  (forall i a, det (body i a)) ->
  forall n i a, det (for_range_from i n body a).
Proof.
  intros Hbody. induction n as [|n IH]; intros i a; cbn [for_range_from].
  - apply det_ret.
  - apply det_bind; [apply Hbody | intros a'; apply IH].
Qed.

Lemma det_Sequential (ms : list Module) :
  Forall (fun m => forall args, det (call training m args)) ms ->
  forall args, det (Sequential_forward (call training) ms args).
Proof.
  induction 1 as [|m rest Hm Hrest IH]; intros args; cbn [Sequential_forward].
  - apply det_bind_input.
  - apply det_bind; [apply Hm|]. intros out.
    destruct rest; [apply det_ret | apply IH].
Qed.

(** With every dropout site off and deterministic adapters, what a module
    returns depends on its arguments only. *)
Lemma call_det (m : Module) :
  deterministic_module training m -> forall args, det (call training m args).
Proof.
  induction m using Module_induction; intros Hd args; cbn [call].
  - apply det_bind; [apply det_bind_input | intros; apply det_lift].
  - apply det_bind; [apply det_bind_input | intros; apply det_lift].
  - apply det_bind; [apply det_bind_input | intros; apply det_ret].
  - apply det_bind; [apply det_bind_input | intros; now apply det_dropout].
  - apply det_Sequential. cbn [deterministic_module] in Hd.
    induction H as [|m rest Hm Hrest IH]; [constructor|].
    cbn [fold_right] in Hd. destruct Hd as [Hd1 Hd2].
    constructor; [now apply Hm | now apply IH].
  - destruct Hd as [Hd1 Hd2]. unfold Residual_forward.
    apply det_bind; [now apply IHm1|]. intros x.
    apply det_bind; [now apply IHm2|]. intros d.
    destruct args; [apply det_raise|].
    apply det_bind; [apply det_tensor_arg | intros; apply det_lift].
  - now apply det_MultiHeadAttention.
  - destruct Hd as (Hd1 & Hd2 & Hd3). unfold CrossAttention_forward.
    apply det_bind; [apply det_lift|]. intros [[[x_q x_kv] pad] am].
    apply det_bind; [now apply IHm1|]. intros q.
    apply det_bind; [now apply IHm2|]. intros kv. now apply IHm3.
  - destruct Hd as (Hd1 & Hd2). unfold SelfAttention_forward.
    apply det_bind; [apply det_lift|]. intros [[x pad] am].
    apply det_bind; [now apply IHm1|]. intros y. now apply IHm2.
  - destruct Hd as (Had & Hd1 & Hdn). unfold PerceiverEncoder_forward.
    apply det_bind; [apply det_lift|]. intros [x pad].
    apply det_bind; [apply det_tensor_arg|]. intros x'.
    destruct (shape x'); [apply det_raise|].
    apply det_bind; [apply Had|]. intros ?.
    apply det_bind; [now apply IHm|]. intros ?.
    apply det_for_range_from. intros ? ?.
    destruct ln; [now apply H | apply det_raise].
  - destruct Hd as (Had & Hd1). unfold PerceiverDecoder_forward.
    apply det_bind; [apply det_bind_input|]. intros x.
    destruct (shape x); [apply det_raise|].
    destruct (negb _); [apply det_raise|].
    apply det_bind; [now apply IHm | intros; apply Had].
Qed.

Lemma LayerNorm_deterministic (c : Z) (m : Module) :
  LayerNorm_of c m -> deterministic_module training m.
Proof. intros (w & b & -> & _). exact I. Qed.

Lemma Linear_deterministic (i o : Z) (m : Module) :
  Linear_of i o m -> deterministic_module training m.
Proof. intros (w & b & -> & _). exact I. Qed.

Lemma mlp_deterministic (c : Z) (m : Module) :
  mlp_of c m -> deterministic_module training m.
Proof.
  intros (ln & l1 & l2 & -> & Hln & Hl1 & Hl2). cbn [deterministic_module fold_right].
  repeat split;
    eauto using LayerNorm_deterministic, Linear_deterministic.
Qed.

Lemma MultiheadAttention_dropout (e h kd vd : Z) (p : Q) (a : MultiheadAttention) :
  MultiheadAttention_of e h kd vd p a -> dropout_is_off training p ->
  dropout_is_off training (attn_dropout a).
Proof. intros (_ & _ & _ & _ & -> & _) H. exact H. Qed.

Lemma cross_attention_layer_deterministic (cq ckv h : Z) (p : Q) (m : Module) :
  cross_attention_layer_of cq ckv h p m -> dropout_is_off training p ->
  deterministic_module training m.
Proof.
  intros (qn & kvn & a & ff & -> & Hqn & Hkvn & Ha & Hff) Hoff.
  cbn [deterministic_module fold_right].
  repeat split;
    eauto using LayerNorm_deterministic, mlp_deterministic, MultiheadAttention_dropout.
Qed.

Lemma self_attention_layer_deterministic (c h : Z) (p : Q) (m : Module) :
  self_attention_layer_of c h p m -> dropout_is_off training p ->
  deterministic_module training m.
Proof.
  intros (n & a & ff & -> & Hn & Ha & Hff) Hoff.
  cbn [deterministic_module fold_right].
  repeat split;
    eauto using LayerNorm_deterministic, mlp_deterministic, MultiheadAttention_dropout.
Qed.

Lemma self_attention_block_deterministic (depth c h : Z) (p : Q) (m : Module) :
  self_attention_block_of depth c h p m -> dropout_is_off training p ->
  deterministic_module training m.
Proof.
  intros (layers & -> & _ & Hl) Hoff. cbn [deterministic_module].
  induction Hl as [|l rest Hlayer Hrest IH]; cbn [fold_right]; [exact I|].
  split; [|exact IH]. now apply (self_attention_layer_deterministic c h p).
Qed.

Lemma perceiver_layer_deterministic (c cin hc hs depth : Z) (p : Q) (m : Module) :
  perceiver_layer_of c cin hc hs depth p m -> dropout_is_off training p ->
  deterministic_module training m.
Proof.
  intros (ca & sb & -> & Hca & Hsb) Hoff. cbn [deterministic_module fold_right].
  split; [now apply (cross_attention_layer_deterministic c cin hc p)|].
  split; [now apply (self_attention_block_deterministic depth c hs p) | exact I].
Qed.

Lemma encoder_deterministic (ia : InputAdapter) (latent_shape : Z * Z)
    (num_layers hc hs depth : Z) (p : Q) (w0 w1 : World) (enc : Module) :
  new_PerceiverEncoder ia latent_shape num_layers hc hs depth p w0 = (Ok enc, w1) ->
  (forall x, det (input_adapter_forward ia x)) ->
  dropout_is_off training p ->
  deterministic_module training enc.
Proof.
  destruct latent_shape as [n c]. intros H Had Hoff.
  destruct (new_PerceiverEncoder_ok ia n c num_layers hc hs depth p w0 w1 enc H)
    as (l1 & lno & lat & v1 & v2 & -> & Hl1 & Hln & _).
  apply create_perceiver_layer_ok in Hl1 as [Hl1 _].
  cbn [deterministic_module]. split; [exact Had|].
  split; [now apply (perceiver_layer_deterministic c (num_input_channels ia) hc hs depth p)|].
  destruct (1 <? num_layers).
  - destruct Hln as (ln & -> & Hln).
    apply create_perceiver_layer_ok in Hln as [Hln _].
    now apply (perceiver_layer_deterministic c (num_input_channels ia) hc hs depth p).
  - destruct Hln as [-> _]. exact I.
Qed.

Lemma decoder_deterministic (oa : OutputAdapter) (latent_shape : Z * Z) (h : Z)
    (p : Q) (w0 w1 : World) (dec : Module) :
  new_PerceiverDecoder oa latent_shape h p w0 = (Ok dec, w1) ->
  (forall x, det (output_adapter_forward oa x)) ->
  dropout_is_off training p ->
  deterministic_module training dec.
Proof.
  unfold new_PerceiverDecoder. intros H Had Hoff.
  destruct (rev (output_shape oa)) as [|co rest]; [discriminate|].
  step H as ca v1 Hca. step H as out v2 Hout. done H.
  apply cross_attention_layer_ok in Hca as [Hca _].
  cbn [deterministic_module]. split; [exact Had|].
  now apply (cross_attention_layer_deterministic co (snd latent_shape) h p).
Qed.

(** C8, as the code has it.  A [PerceiverIO] of an encoder and a decoder
    built with deterministic adapters, called twice in a row on the same
    arguments, returns (or raises) the same both times, provided dropout is
    off: the model is in evaluation mode, or the dropout rates given to the
    constructors are 0. *)
Theorem perceiver_io_repeats_when_dropout_is_off
    (ia : InputAdapter) (enc_latent_shape : Z * Z) (num_layers hc hs depth : Z)
    (p_enc : Q) (oa : OutputAdapter) (dec_latent_shape : Z * Z) (h : Z) (p_dec : Q)
    (w0 w1 w2 w3 : World) (enc dec : Module) :
  new_PerceiverEncoder ia enc_latent_shape num_layers hc hs depth p_enc w0
  = (Ok enc, w1) ->
  new_PerceiverDecoder oa dec_latent_shape h p_dec w2 = (Ok dec, w3) ->
  (forall x, det (input_adapter_forward ia x)) ->
  (forall x, det (output_adapter_forward oa x)) ->
  dropout_is_off training p_enc ->
  dropout_is_off training p_dec ->
  forall args w,
    fst (call training (PerceiverIO enc dec) args
           (snd (call training (PerceiverIO enc dec) args w)))
    = fst (call training (PerceiverIO enc dec) args w).
Proof.
  intros Henc Hdec Hia Hoa Hpe Hpd args w.
  apply (call_det (PerceiverIO enc dec)).
  unfold PerceiverIO. cbn [deterministic_module fold_right].
  split; [eapply encoder_deterministic; eauto|].
  split; [eapply decoder_deterministic; eauto | exact I].
Qed.

End Repeatable.

(* ================================================================== *)
(** ** The statements on concrete models *)

Example tuple_repr_pair : tuple_repr [4; 9] = "(4, 9)"%string.
Proof. reflexivity. Qed.

Example text_masking_run :
  fst (TextMasking_forward Example.tm Example.tokens (Some Example.pad) Example.world)
  = Ok (mkTensor2 2 4 [2; 1; 7; 8; 9; 2; 11; 0],
        mkTensor2 2 4 [5; -100; -100; -100; 9; 4; -100; -100]).
Proof. vm_compute. reflexivity. Qed.

Example text_masking_selected :
  selected_of Example.tm Example.tokens Example.pad Example.world
  = [true; false; false; false; true; true; false; false]
  /\ selected_1_of Example.tm Example.tokens Example.pad Example.world
     = [true; false; false; false; false; true; false; false].
Proof. split; vm_compute; reflexivity. Qed.

Example decoder_rejects_4_9 :
  fst (call true (Example.built (decoder_run (4, 8) 0))
         [Some Example.latent_4_9] Example.world)
  = Raise (ValueError "Latent shape (4, 9) different from required shape (4, 8)").
Proof. vm_compute. reflexivity. Qed.

Example encoder_has_two_layers :
  length (compound_layers (Example.built (encoder_run Example.input_adapter 3 0))) = 2%nat
  /\ length (compound_layers (Example.built (encoder_run Example.input_adapter 7 0))) = 2%nat
  /\ length (compound_layers (Example.built (encoder_run Example.input_adapter 1 0))) = 1%nat.
Proof. repeat split; vm_compute; reflexivity. Qed.

Example encoder_run_shape :
  match fst (call true (Example.built (encoder_run Example.input_adapter 3 0))
               [Some Example.x] Example.world) with
  | Ok y => Ref.t_shape y = [1; 2; 2]
  | Raise _ => False
  end.
Proof. vm_compute. reflexivity. Qed.

(** The hypotheses on the example masking call. *)
Lemma example_tokens_ok :
  wf2 Example.tokens /\ wf2 Example.pad
  /\ same_shape2 Example.tokens Example.pad = true
  /\ Forall (fun t => 0 <= t) (elems Example.tokens).
Proof.
  repeat split; try reflexivity.
  cbn. repeat constructor; lia.
Qed.

Lemma labels_mark_the_selected_positions_witness :
  (wf2 Example.tokens /\ wf2 Example.pad
   /\ same_shape2 Example.tokens Example.pad = true
   /\ Forall (fun t => 0 <= t) (elems Example.tokens))
  /\ ((num_special_tokens Example.tm < vocab_size Example.tm ->
       exists x' labels w',
         TextMasking_forward Example.tm Example.tokens (Some Example.pad) Example.world
         = (Ok (x', labels), w'))
      /\ forall x' labels w',
           TextMasking_forward Example.tm Example.tokens (Some Example.pad) Example.world
           = (Ok (x', labels), w') ->
           same_shape2 labels Example.tokens = true /\ wf2 labels
           /\ forall k, (k < numel2 Example.tokens)%nat ->
                (nth k (elems labels) 0 = ignore_index
                 <-> nth k (selected_of Example.tm Example.tokens Example.pad
                              Example.world) false = false)
                /\ (nth k (selected_of Example.tm Example.tokens Example.pad
                             Example.world) false = true ->
                    nth k (elems labels) 0 = nth k (elems Example.tokens) 0)
                /\ (nth k (selected_of Example.tm Example.tokens Example.pad
                             Example.world) false = true ->
                    nth k (elems x') 0 = nth k (elems Example.tokens) 0 ->
                    nth k (elems labels) 0 = nth k (elems Example.tokens) 0)).
Proof.
  split; [exact example_tokens_ok|].
  destruct example_tokens_ok as (Hx & Hpm & Hs & Hpos).
  exact (labels_mark_the_selected_positions (TS := RefFacts.spec)
           Example.tm Example.tokens Example.pad Example.world Hx Hpm Hs Hpos).
Defined.

Lemma special_positions_are_never_selected_witness :
  (wf2 Example.tokens /\ wf2 Example.pad
   /\ same_shape2 Example.tokens Example.pad = true)
  /\ ((num_special_tokens Example.tm < vocab_size Example.tm ->
       exists x' labels w',
         TextMasking_forward Example.tm Example.tokens (Some Example.pad) Example.world
         = (Ok (x', labels), w'))
      /\ forall k,
           (k < numel2 Example.tokens)%nat ->
           nth k (elems Example.tokens) 0 = unk_token_id Example.tm
           \/ nth k (elems Example.pad) false = true ->
           nth k (selected_of Example.tm Example.tokens Example.pad Example.world) false
           = false
           /\ forall x' labels w',
                TextMasking_forward Example.tm Example.tokens (Some Example.pad)
                  Example.world = (Ok (x', labels), w') ->
                nth k (elems x') 0 = nth k (elems Example.tokens) 0
                /\ nth k (elems labels) 0 = ignore_index).
Proof.
  destruct example_tokens_ok as (Hx & Hpm & Hs & _).
  split; [auto|].
  exact (special_positions_are_never_selected (TS := RefFacts.spec)
           Example.tm Example.tokens Example.pad Example.world Hx Hpm Hs).
Defined.

Lemma selected_positions_split_close_to_80_10_10_witness :
  (wf2 Example.tokens /\ wf2 Example.pad
   /\ same_shape2 Example.tokens Example.pad = true)
  /\ ((num_special_tokens Example.tm < vocab_size Example.tm ->
       exists x' labels w',
         TextMasking_forward Example.tm Example.tokens (Some Example.pad) Example.world
         = (Ok (x', labels), w'))
      /\ (forall x' labels w',
            TextMasking_forward Example.tm Example.tokens (Some Example.pad)
              Example.world = (Ok (x', labels), w') ->
            exists src,
              randint (num_special_tokens Example.tm) (vocab_size Example.tm)
                (mask_sum (selected_2_of Example.tm Example.tokens Example.pad
                             Example.world))
                (gen_3 (numel2 Example.tokens) (gen Example.world))
              = (Ok src, gen w')
              /\ length src
                 = mask_sum (selected_2_of Example.tm Example.tokens Example.pad
                               Example.world)
              /\ (forall k k',
                    (k < k')%nat ->
                    nth k (selected_2_of Example.tm Example.tokens Example.pad
                             Example.world) false = true ->
                    (rank (selected_2_of Example.tm Example.tokens Example.pad
                             Example.world) k
                     < rank (selected_2_of Example.tm Example.tokens Example.pad
                               Example.world) k')%nat)
              /\ forall k, (k < numel2 Example.tokens)%nat ->
                   let o := outcome (mask_p Example.tm)
                              (nth k (is_special Example.tm (elems Example.tokens)
                                        (elems Example.pad)) false)
                              (nth k (draw_1 (numel2 Example.tokens)
                                        (gen Example.world)) 0%Q)
                              (nth k (draw_2 (numel2 Example.tokens)
                                        (gen Example.world)) 0%Q)
                              (nth k (draw_3 (numel2 Example.tokens)
                                        (gen Example.world)) 0%Q) in
                   (nth k (selected_of Example.tm Example.tokens Example.pad
                             Example.world) false = true <-> o <> NotSelected)
                   /\ match o with
                      | MaskToken => nth k (elems x') 0 = mask_token_id Example.tm
                      | RandomToken =>
                          nth k (elems x') 0
                          = nth (rank (selected_2_of Example.tm Example.tokens
                                         Example.pad Example.world) k) src 0
                          /\ (rank (selected_2_of Example.tm Example.tokens
                                      Example.pad Example.world) k < length src)%nat
                          /\ num_special_tokens Example.tm <= nth k (elems x') 0
                             < vocab_size Example.tm
                      | Unchanged | NotSelected =>
                          nth k (elems x') 0 = nth k (elems Example.tokens) 0
                      end)
      /\ (forall u1 : Q,
            Qltb u1 (float32 (mask_p Example.tm)) = true ->
            ((prob2 float32_resolution
                (fun u2 u3 => Outcome_eqb (outcome (mask_p Example.tm) false u1 u2 u3)
                                MaskToken)
              == (15099494 # 16777216) * (14913080 # 16777216))%Q
             /\ (prob2 float32_resolution
                   (fun u2 u3 => Outcome_eqb (outcome (mask_p Example.tm) false u1 u2 u3)
                                   RandomToken)
                 == (15099494 # 16777216) * (1864136 # 16777216))%Q
             /\ (prob2 float32_resolution
                   (fun u2 u3 => Outcome_eqb (outcome (mask_p Example.tm) false u1 u2 u3)
                                   Unchanged)
                 == 1677722 # 16777216)%Q)
            /\ (Qabs (prob2 float32_resolution
                        (fun u2 u3 => Outcome_eqb
                                        (outcome (mask_p Example.tm) false u1 u2 u3)
                                        MaskToken)
                      - (8 # 10)) < 1 # 8388608)%Q
            /\ (Qabs (prob2 float32_resolution
                        (fun u2 u3 => Outcome_eqb
                                        (outcome (mask_p Example.tm) false u1 u2 u3)
                                        RandomToken)
                      - (1 # 10)) < 1 # 8388608)%Q
            /\ (Qabs (prob2 float32_resolution
                        (fun u2 u3 => Outcome_eqb
                                        (outcome (mask_p Example.tm) false u1 u2 u3)
                                        Unchanged)
                      - (1 # 10)) < 1 # 8388608)%Q)
      /\ (forall u2 u3 : Q,
            (0 <= mask_p Example.tm)%Q -> (mask_p Example.tm <= 1)%Q ->
            (Qabs (prob1 float32_resolution
                     (fun u1 => negb (Outcome_eqb
                                        (outcome (mask_p Example.tm) false u1 u2 u3)
                                        NotSelected))
                   - mask_p Example.tm) < 1 # 8388608)%Q)
      /\ (forall (n : nat) (u1 : Q) (v0 : Z),
            n <> O ->
            num_special_tokens Example.tm <= v0 < vocab_size Example.tm ->
            (prob3 n (num_special_tokens Example.tm) (vocab_size Example.tm)
               (fun u2 u3 v => Outcome_eqb (outcome (mask_p Example.tm) false u1 u2 u3)
                                 RandomToken
                               && (v =? v0))
             * inject_Z (vocab_size Example.tm - num_special_tokens Example.tm)
             == prob2 n (fun u2 u3 => Outcome_eqb
                                        (outcome (mask_p Example.tm) false u1 u2 u3)
                                        RandomToken))%Q)).
Proof.
  destruct example_tokens_ok as (Hx & Hpm & Hs & _).
  split; [auto|].
  exact (selected_positions_split_close_to_80_10_10 (TS := RefFacts.spec)
           Example.tm Example.tokens Example.pad Example.world Hx Hpm Hs).
Defined.

(** The thresholds the draws are compared with, and a draw at which the
    rounding shows: float32 of 0.9 is below 0.9 and is itself a value a draw
    can take; a selected position with that second draw keeps its token. *)
Example thresholds_as_float32 :
  replace_threshold = 7549747 # 8388608
  /\ random_threshold = 14913081 # 134217728
  /\ float32 (float64 (15 # 100)) = 5033165 # 33554432
  /\ outcome (1 # 2) false 0 (7549747 # 8388608) 0 = Unchanged.
Proof. repeat split; vm_compute; reflexivity. Qed.

(** C5, as stated, fails: over the draws of the float32 generator, a
    selected position does not get the mask token with probability 8/10, a
    random token with probability 1/10 or stay unchanged with probability
    1/10, and with the default [mask_p = 0.15] a position that is not
    special is not selected with probability [mask_p]. *)
Lemma split_is_not_exactly_80_10_10 :
  Qltb 0 (float32 (float64 (15 # 100))) = true
  /\ ~ (prob2 float32_resolution
          (fun u2 u3 => Outcome_eqb (outcome (float64 (15 # 100)) false 0 u2 u3)
                          MaskToken)
        == 8 # 10)%Q
  /\ ~ (prob2 float32_resolution
          (fun u2 u3 => Outcome_eqb (outcome (float64 (15 # 100)) false 0 u2 u3)
                          RandomToken)
        == 1 # 10)%Q
  /\ ~ (prob2 float32_resolution
          (fun u2 u3 => Outcome_eqb (outcome (float64 (15 # 100)) false 0 u2 u3)
                          Unchanged)
        == 1 # 10)%Q
  /\ ~ (prob1 float32_resolution
          (fun u1 => negb (Outcome_eqb (outcome (float64 (15 # 100)) false u1 0 0)
                             NotSelected))
        == float64 (15 # 100))%Q.
Proof.
  assert (Qltb 0 (float32 (float64 (15 # 100))) = true) as Hsel
      by (vm_compute; reflexivity).
  split; [exact Hsel|].
  split; [rewrite (prob_mask_token _ _ Hsel); vm_compute; discriminate|].
  split; [rewrite (prob_random_token _ _ Hsel); vm_compute; discriminate|].
  split; [rewrite (prob_unchanged _ _ Hsel); vm_compute; discriminate|].
  assert (float32 (float64 (15 # 100)) = 5033165 # 33554432) as Ht
      by (vm_compute; reflexivity).
  assert (float64 (15 # 100) = 5404319552844595 # 36028797018963968) as Hp
      by (vm_compute; reflexivity).
  unfold prob1.
  rewrite (filter_ext _ (fun u => Qltb u (5033165 # 33554432))).
  2:{ intros u. unfold outcome. rewrite Ht.
      destruct (Qltb u (5033165 # 33554432)), (Qltb 0 replace_threshold),
        (Qltb 0 random_threshold); reflexivity. }
  pose proof float32_resolution_Z as HF.
  rewrite (count_grid_ceil float32_resolution (Z.to_nat 2516583)).
  - rewrite Hp. unfold Qeq. cbn [Qnum Qden].
    rewrite (Zpos_of_nat _ float32_resolution_pos), HF, Z2Nat.id by lia. lia.
  - exact float32_resolution_pos.
  - lia.
  - rewrite HF, Z2Nat.id; lia.
  - intros _. rewrite HF, Z2Nat.id; lia.
Qed.

(** A construction that returned, as the equation the statements take. *)
Lemma example_built (r : Result (Module (T := RefTorch)) * World (T := RefTorch)) :
  Example.returned r = true -> r = (Ok (Example.built r), snd r).
Proof.
  unfold Example.returned, Example.built.
  destruct r as [[m|e] w]; [reflexivity | discriminate].
Qed.

Lemma example_encoder_built :
  encoder_run Example.input_adapter 3 0
  = (Ok (Example.built (encoder_run Example.input_adapter 3 0)),
     snd (encoder_run Example.input_adapter 3 0)).
Proof. apply example_built. vm_compute. reflexivity. Qed.

Lemma encoder_shares_one_layer_witness :
  new_PerceiverEncoder Example.input_adapter (2, 2) 3 1 1 1 0 Example.world
  = (Ok (Example.built (encoder_run Example.input_adapter 3 0)),
     snd (encoder_run Example.input_adapter 3 0))
  /\ exists l1 lat,
       perceiver_layer_of (snd (2, 2)) (num_input_channels Example.input_adapter)
         1 1 1 0 l1
       /\ pids l1 <> []
       /\ shape (pdata lat) = [fst (2, 2); snd (2, 2)]
       /\ (1 < 3 ->
           exists ln,
             Example.built (encoder_run Example.input_adapter 3 0)
             = PerceiverEncoder Example.input_adapter 3 l1 (Some ln) lat
             /\ compound_layers (Example.built (encoder_run Example.input_adapter 3 0))
                = [l1; ln]
             /\ perceiver_layer_of (snd (2, 2))
                  (num_input_channels Example.input_adapter) 1 1 1 0 ln
             /\ pids ln <> []
             /\ NoDup (pids l1 ++ pids ln)
             /\ fresh Example.world (snd (encoder_run Example.input_adapter 3 0))
                  (params l1 ++ params ln ++ [lat])
             /\ (forall num_layers',
                   1 < num_layers' ->
                   new_PerceiverEncoder Example.input_adapter (2, 2) num_layers' 1 1 1 0
                     Example.world
                   = (Ok (PerceiverEncoder Example.input_adapter num_layers' l1
                            (Some ln) lat),
                      snd (encoder_run Example.input_adapter 3 0)))
             /\ (forall x pad b rest w,
                   shape x = b :: rest ->
                   call true (Example.built (encoder_run Example.input_adapter 3 0))
                     [Some x; pad] w
                   = (xa <- input_adapter_forward Example.input_adapter x ;;
                      spec_latents true l1 ln xa pad
                        (einops_repeat (pdata lat) b) (Z.to_nat (3 - 1))) w))
       /\ (3 <= 1 ->
           Example.built (encoder_run Example.input_adapter 3 0)
           = PerceiverEncoder Example.input_adapter 3 l1 None lat
           /\ compound_layers (Example.built (encoder_run Example.input_adapter 3 0))
              = [l1]
           /\ fresh Example.world (snd (encoder_run Example.input_adapter 3 0))
                (params l1 ++ [lat])
           /\ (forall x pad b rest w,
                 shape x = b :: rest ->
                 call true (Example.built (encoder_run Example.input_adapter 3 0))
                   [Some x; pad] w
                 = (xa <- input_adapter_forward Example.input_adapter x ;;
                    call true l1 [Some (einops_repeat (pdata lat) b); Some xa; pad]) w)).
Proof.
  pose proof example_encoder_built as H.
  split; [exact H|].
  exact (encoder_shares_one_layer (TS := RefFacts.spec) true Example.input_adapter
           (2, 2) 3 1 1 1 0 Example.world _ _ H).
Defined.

Lemma encoder_output_shape_witness :
  (new_PerceiverEncoder Example.input_adapter (2, 2) 3 1 1 1 0 Example.world
   = (Ok (Example.built (encoder_run Example.input_adapter 3 0)),
      snd (encoder_run Example.input_adapter 3 0))
   /\ 0 < 1
   /\ @shape RefTorch Example.x = [1; 2; 1]
   /\ returns_shape (input_adapter_forward Example.input_adapter Example.x)
        [1; 2; num_input_channels Example.input_adapter]
   /\ pad_mask_ok (T := RefTorch) 1 2 None)
  /\ returns_shape
       (call true (Example.built (encoder_run Example.input_adapter 3 0))
          [Some Example.x; None]) [1; 2; 2]
  /\ returns_shape
       (call true (Example.built (encoder_run Example.input_adapter 3 0))
          [Some Example.x]) [1; 2; 2].
Proof.
  pose proof example_encoder_built as H.
  assert (returns_shape (input_adapter_forward Example.input_adapter Example.x)
            [1; 2; num_input_channels Example.input_adapter]) as Hadapt
      by (intros w; exists Example.x, w; split; reflexivity).
  assert (pad_mask_ok (T := RefTorch) 1 2 None) as Hpad by (intros m [=]).
  split; [split; [exact H|]; split; [lia|]; split; [reflexivity|];
          split; [exact Hadapt | exact Hpad]|].
  exact (encoder_output_shape (TS := RefFacts.spec) true Example.input_adapter
           2 2 3 1 1 1 0 Example.world _ _ Example.x None 1 2 [2; 1]
           H ltac:(lia) eq_refl Hadapt Hpad).
Defined.

Lemma example_decoder_built :
  decoder_run (4, 8) 0
  = (Ok (Example.built (decoder_run (4, 8) 0)), snd (decoder_run (4, 8) 0)).
Proof. apply example_built. vm_compute. reflexivity. Qed.

Lemma example_adapter_returns (b k co : Z) :
  forall t : Ref.tensor, @shape RefTorch t = [b; k; co] ->
  forall w, exists y w',
    output_adapter_forward Example.output_adapter t w = (Ok y, w').
Proof. intros t _ w. exists t, w. reflexivity. Qed.

Lemma decoder_checks_the_latent_shape_witness :
  (decoder_run (4, 8) 0
   = (Ok (Example.built (decoder_run (4, 8) 0)), snd (decoder_run (4, 8) 0))
   /\ output_shape Example.output_adapter = [3; 2]
   /\ @shape RefTorch Example.latent_4_9 = [1; 4; 9])
  /\ forall w,
       ((exists msg w',
           call true (Example.built (decoder_run (4, 8) 0)) [Some Example.latent_4_9] w
           = (Raise (ValueError msg), w'))
        <-> (4, 9) <> (4, 8))
       /\ ((4, 9) <> (4, 8) ->
           call true (Example.built (decoder_run (4, 8) 0)) [Some Example.latent_4_9] w
           = (Raise (ValueError ("Latent shape " ++ tuple_repr [4; 9]
                                 ++ " different from required shape "
                                 ++ tuple_repr [4; 8])), w))
       /\ ((4, 9) = (4, 8) ->
           exists ca out y w',
             Example.built (decoder_run (4, 8) 0)
             = PerceiverDecoder Example.output_adapter (4, 8) ca out
             /\ call true ca [Some (einops_repeat (pdata out) 1);
                              Some Example.latent_4_9] w = (Ok y, w')
             /\ shape y = [1; 3; 2]
             /\ call true (Example.built (decoder_run (4, 8) 0))
                  [Some Example.latent_4_9] w
                = output_adapter_forward Example.output_adapter y w').
Proof.
  pose proof example_decoder_built as H.
  split; [split; [exact H|]; split; reflexivity|].
  exact (decoder_checks_the_latent_shape (TS := RefFacts.spec) true
           Example.output_adapter 4 8 1 0 Example.world _ _ Example.latent_4_9
           1 4 9 3 2 H eq_refl eq_refl (example_adapter_returns 1 3 2)).
Defined.

Lemma mlm_logits_are_the_truncated_decoder_output_witness :
  TorchSpec RefTorch
  /\ (forall w,
        PerceiverMLM_forward true example_mlm Example.tokens (Some Example.pad) false w
        = (x_latent <- call true (encoder example_mlm)
                         [Some (of_long Example.tokens); mask_arg (Some Example.pad)] ;;
           out <- call true (decoder example_mlm) [Some x_latent] ;;
           logits <- lift (narrow_seq out (Z.of_nat (ncols Example.tokens))) ;;
           ret (logits, None)) w)
  /\ (forall w,
        PerceiverMLM_forward true example_mlm Example.tokens (Some Example.pad) true w
        = (r <- TextMasking_forward (masking example_mlm) Example.tokens
                  (Some Example.pad) ;;
           x_latent <- call true (encoder example_mlm)
                         [Some (of_long (fst r)); mask_arg (Some Example.pad)] ;;
           out <- call true (decoder example_mlm) [Some x_latent] ;;
           logits <- lift (narrow_seq out (Z.of_nat (ncols Example.tokens))) ;;
           ret (logits, Some (snd r))) w)
  /\ (forall masking_on w logits labels w',
        PerceiverMLM_forward true example_mlm Example.tokens (Some Example.pad)
          masking_on w = (Ok (logits, labels), w') ->
        exists x_masked x_latent out w1 w2,
          call true (encoder example_mlm)
            [Some (of_long x_masked); mask_arg (Some Example.pad)] w1
          = (Ok x_latent, w2)
          /\ call true (decoder example_mlm) [Some x_latent] w2 = (Ok out, w')
          /\ narrow_seq out (Z.of_nat (ncols Example.tokens)) = Ok logits
          /\ (forall b k c, shape out = [b; k; c] ->
                            shape logits
                            = [b; Z.min k (Z.of_nat (ncols Example.tokens)); c])
          /\ (masking_on = false ->
              x_masked = Example.tokens /\ w1 = w /\ labels = None)).
Proof.
  split; [exact RefFacts.spec|].
  exact (mlm_logits_are_the_truncated_decoder_output (TS := RefFacts.spec) true
           example_mlm Example.tokens (Some Example.pad)).
Defined.

Example mlm_run :
  match fst (PerceiverMLM_forward true example_mlm Example.tokens (Some Example.pad)
               true Example.world) with
  | Ok (logits, labels) =>
      Ref.t_shape logits = [2; 3; 2]
      /\ labels = Some (mkTensor2 2 4 [5; -100; -100; -100; 9; 4; -100; -100])
  | Raise _ => False
  end.
Proof. vm_compute. split; reflexivity. Qed.

Lemma example_cross_attention_built :
  cross_attention_run
  = (Ok (Example.built cross_attention_run), snd cross_attention_run).
Proof. apply example_built. vm_compute. reflexivity. Qed.

Lemma cross_attention_layer_wiring_witness :
  cross_attention_run
  = (Ok (Example.built cross_attention_run), snd cross_attention_run)
  /\ exists qn kvn a ln l1 l2,
       LayerNorm_of 2 qn /\ LayerNorm_of 3 kvn
       /\ (forall i, In i (pids qn) -> ~ In i (pids kvn))
       /\ LayerNorm_of 2 ln /\ Linear_of 2 2 l1 /\ Linear_of 2 2 l2
       /\ (forall args q kv pad am w,
             bind_q_kv args = Ok (Some q, Some kv, pad, am) ->
             call true (Example.built cross_attention_run) args w
             = spec_cross_attention_layer true 0 qn kvn a ln l1 l2 q kv pad am w)
       /\ (forall q kv pad b tq tk,
             shape q = [b; tq; 2] -> shape kv = [b; tk; 3] -> pad_mask_ok b tk pad ->
             returns_shape (call true (Example.built cross_attention_run)
                              [Some q; Some kv; pad]) (shape q)).
Proof.
  pose proof example_cross_attention_built as H.
  split; [exact H|].
  exact (cross_attention_layer_wiring (TS := RefFacts.spec) true 2 3 1 0
           Example.world _ _ H).
Defined.

Lemma example_io_decoder_built (dropout : Q) :
  Example.returned (decoder_run (2, 2) dropout) = true ->
  decoder_run (2, 2) dropout
  = (Ok (Example.built (decoder_run (2, 2) dropout)), snd (decoder_run (2, 2) dropout)).
Proof. apply example_built. Qed.

Lemma example_io_encoder_built (dropout : Q) :
  Example.returned (encoder_run Example.input_adapter 3 dropout) = true ->
  encoder_run Example.input_adapter 3 dropout
  = (Ok (Example.built (encoder_run Example.input_adapter 3 dropout)),
     snd (encoder_run Example.input_adapter 3 dropout)).
Proof. apply example_built. Qed.

Lemma example_adapters_deterministic :
  (forall x, det (input_adapter_forward Example.input_adapter x))
  /\ (forall x, det (output_adapter_forward Example.output_adapter x)).
Proof. split; intros x w1 w2; reflexivity. Qed.

Lemma perceiver_io_repeats_when_dropout_is_off_witness :
  (encoder_run Example.input_adapter 3 0
   = (Ok (Example.built (encoder_run Example.input_adapter 3 0)),
      snd (encoder_run Example.input_adapter 3 0))
   /\ decoder_run (2, 2) 0
      = (Ok (Example.built (decoder_run (2, 2) 0)), snd (decoder_run (2, 2) 0))
   /\ (forall x, det (input_adapter_forward Example.input_adapter x))
   /\ (forall x, det (output_adapter_forward Example.output_adapter x))
   /\ dropout_is_off true 0)
  /\ forall args w,
       fst (call true (PerceiverIO (Example.built (encoder_run Example.input_adapter 3 0))
                         (Example.built (decoder_run (2, 2) 0))) args
              (snd (call true
                      (PerceiverIO (Example.built (encoder_run Example.input_adapter 3 0))
                         (Example.built (decoder_run (2, 2) 0))) args w)))
       = fst (call true (PerceiverIO (Example.built (encoder_run Example.input_adapter 3 0))
                           (Example.built (decoder_run (2, 2) 0))) args w).
Proof.
  pose proof example_encoder_built as He.
  assert (decoder_run (2, 2) 0
          = (Ok (Example.built (decoder_run (2, 2) 0)), snd (decoder_run (2, 2) 0)))
    as Hd by (apply example_io_decoder_built; vm_compute; reflexivity).
  destruct example_adapters_deterministic as [Hia Hoa].
  assert (dropout_is_off true 0) as Hoff by (right; reflexivity).
  split; [split; [exact He|]; split; [exact Hd|]; split; [exact Hia|];
          split; [exact Hoa | exact Hoff]|].
  exact (perceiver_io_repeats_when_dropout_is_off (TS := RefFacts.spec) true
           Example.input_adapter (2, 2) 3 1 1 1 0 Example.output_adapter (2, 2) 1 0
           Example.world _ Example.world _ _ _ He Hd Hia Hoa Hoff Hoff).
Defined.

(** C8, as stated, fails: in training mode with dropout rate 1/2, two calls
    in a row of the same model (same parameters) on the same input return
    different tensors, because the second call finds the generator where the
    first left it. *)
Lemma perceiver_io_differs_under_dropout :
  encoder_run Example.input_adapter 3 (1 # 2)
  = (Ok (Example.built (encoder_run Example.input_adapter 3 (1 # 2))),
     snd (encoder_run Example.input_adapter 3 (1 # 2)))
  /\ decoder_run (2, 2) (1 # 2)
     = (Ok (Example.built (decoder_run (2, 2) (1 # 2))),
        snd (decoder_run (2, 2) (1 # 2)))
  /\ (forall x, det (input_adapter_forward Example.input_adapter x))
  /\ (forall x, det (output_adapter_forward Example.output_adapter x))
  /\ fst (call true
            (PerceiverIO (Example.built (encoder_run Example.input_adapter 3 (1 # 2)))
               (Example.built (decoder_run (2, 2) (1 # 2)))) [Some Example.x]
            (snd (call true
                    (PerceiverIO
                       (Example.built (encoder_run Example.input_adapter 3 (1 # 2)))
                       (Example.built (decoder_run (2, 2) (1 # 2)))) [Some Example.x]
                    Example.world)))
     <> fst (call true
               (PerceiverIO (Example.built (encoder_run Example.input_adapter 3 (1 # 2)))
                  (Example.built (decoder_run (2, 2) (1 # 2)))) [Some Example.x]
               Example.world).
Proof.
  split; [apply example_io_encoder_built; vm_compute; reflexivity|].
  split; [apply example_io_decoder_built; vm_compute; reflexivity|].
  split; [apply example_adapters_deterministic|].
  split; [apply example_adapters_deterministic|].
  vm_compute. intros H. discriminate H.
Qed.

(* ================================================================== *)
(** * Further properties *)

(** ** Text masking at the ends of the probability range, and the
    vocabulary *)

Section MaskingEdges.

Context {T : Torch} {TS : TorchSpec T}.

Variables (tm : TextMasking) (x : Tensor2 Z) (pm : Tensor2 bool) (w : World).
Hypothesis Hx : wf2 x.
Hypothesis Hpm : wf2 pm.
Hypothesis Hshape : same_shape2 x pm = true.

Lemma draw_1_range (k : nat) : (k < numel2 x)%nat ->
  (0 <= nth k (draw_1 (numel2 x) (gen w)) 0 /\
   nth k (draw_1 (numel2 x) (gen w)) 0 < 1)%Q.
Proof.
  intros Hk. apply (rand_range (numel2 x) (gen w)), nth_In.
  unfold draw_1. rewrite rand_length. exact Hk.
Qed.

Lemma Qltb_false_below (u p : Q) : (p <= 0)%Q -> (0 <= u)%Q -> Qltb u p = false.
Proof.
  intros Hp Hu. unfold Qltb. apply negb_false_iff, Qle_bool_iff.
  eapply Qle_trans; eauto.
Qed.

Lemma Qltb_true_above (u p : Q) : (1 <= p)%Q -> (u < 1)%Q -> Qltb u p = true.
Proof.
  intros Hp Hu. unfold Qltb. apply negb_true_iff.
  destruct (Qle_bool p u) eqn:E; [|reflexivity].
  apply Qle_bool_iff in E. exfalso.
  apply (Qlt_irrefl u). eapply Qlt_le_trans; [exact Hu|].
  eapply Qle_trans; eauto.
Qed.

Lemma tensor2_ext {A} (a b : Tensor2 A) :
  same_shape2 a b = true -> elems a = elems b -> a = b.
Proof.
  destruct a, b. unfold same_shape2. cbn. intros H ->.
  apply andb_true_iff in H as [H1 H2]. apply Nat.eqb_eq in H1, H2. now subst.
Qed.

(** X1.  With [mask_p <= 0] no position is selected: the call returns the tokens
    it was given and labels that are the ignore sentinel everywhere. *)
Theorem masking_with_probability_zero_changes_nothing :
  (mask_p tm <= 0)%Q ->
  (num_special_tokens tm < vocab_size tm ->
   exists x' labels w',
     TextMasking_forward tm x (Some pm) w = (Ok (x', labels), w'))
  /\ forall x' labels w',
       TextMasking_forward tm x (Some pm) w = (Ok (x', labels), w') ->
       x' = x /\ elems labels = repeat ignore_index (numel2 x).
Proof.
  intros Hp. split; [now apply TextMasking_forward_total|].
  intros x' labels w' Hrun.
  assert (forall k, (k < numel2 x)%nat -> nth k (selected_of tm x pm w) false = false)
    as Hsel.
  { intros k Hk. rewrite (nth_sel tm x pm w Hx Hpm Hshape k Hk).
    rewrite (Qltb_false_below _ _ (float32_nonpos _ Hp) (proj1 (draw_1_range k Hk))).
    reflexivity. }
  destruct (shape_labels tm x pm w Hx Hpm Hshape x' labels w' Hrun)
    as (Hls & Hlw & Hxs & Hxw).
  assert (numel2 x' = numel2 x) as Hn'
      by (symmetry; apply (same_shape2_numel x' x Hxs)).
  assert (numel2 labels = numel2 x) as Hnl
      by (symmetry; apply (same_shape2_numel labels x Hls)).
  split.
  - apply tensor2_ext; [exact Hxs|].
    apply (nth_ext _ _ 0 0); [rewrite Hxw, Hx; exact Hn'|].
    intros k Hk. rewrite Hxw, Hn' in Hk.
    destruct (nth_masked tm x pm w Hx Hpm Hshape x' labels w' k Hrun Hk)
      as (src & _ & _ & ->).
    rewrite (nth_sel2 tm x pm w Hx Hpm Hshape k Hk).
    rewrite (nth_sel1 tm x pm w Hx Hpm Hshape k Hk), (Hsel k Hk). reflexivity.
  - apply (nth_ext _ _ 0 0); [rewrite Hlw, repeat_length; exact Hnl|].
    intros k Hk. rewrite Hlw, Hnl in Hk.
    rewrite (nth_labels tm x pm w Hx Hpm Hshape x' labels w' k Hrun Hk), (Hsel k Hk).
    rewrite nth_repeat_lt by exact Hk. reflexivity.
Qed.

(** X2.  With [mask_p >= 1] every position that is not special is selected: the
    label of a position is its token, unless the token is the unknown token
    or the position is padding. *)
Theorem masking_with_probability_one_selects_all_input :
  (1 <= mask_p tm)%Q ->
  (num_special_tokens tm < vocab_size tm ->
   exists x' labels w',
     TextMasking_forward tm x (Some pm) w = (Ok (x', labels), w'))
  /\ forall k, (k < numel2 x)%nat ->
       nth k (selected_of tm x pm w) false
       = negb ((nth k (elems x) 0 =? unk_token_id tm) || nth k (elems pm) false)
       /\ forall x' labels w',
            TextMasking_forward tm x (Some pm) w = (Ok (x', labels), w') ->
            nth k (elems labels) 0
            = if (nth k (elems x) 0 =? unk_token_id tm) || nth k (elems pm) false
              then ignore_index
              else nth k (elems x) 0.
Proof.
  intros Hp. split; [now apply TextMasking_forward_total|].
  intros k Hk.
  assert (nth k (selected_of tm x pm w) false
          = negb ((nth k (elems x) 0 =? unk_token_id tm) || nth k (elems pm) false))
    as Hsel.
  { rewrite (nth_sel tm x pm w Hx Hpm Hshape k Hk).
    rewrite (Qltb_true_above _ _ (float32_from_1 _ Hp) (proj2 (draw_1_range k Hk))).
    rewrite (nth_is_special tm x pm Hx Hpm Hshape k Hk). reflexivity. }
  split; [exact Hsel|].
  intros x' labels w' Hrun.
  rewrite (nth_labels tm x pm w Hx Hpm Hshape x' labels w' k Hrun Hk), Hsel.
  destruct ((nth k (elems x) 0 =? unk_token_id tm) || nth k (elems pm) false);
    reflexivity.
Qed.

(** X3.  Masking never leaves the vocabulary: when the tokens given, the mask
    token and the first ordinary token id lie in [0, vocab_size), so does
    every token returned. *)
Theorem masking_stays_in_the_vocabulary :
  Forall (fun t => 0 <= t < vocab_size tm) (elems x) ->
  0 <= mask_token_id tm < vocab_size tm ->
  0 <= num_special_tokens tm ->
  (num_special_tokens tm < vocab_size tm ->
   exists x' labels w',
     TextMasking_forward tm x (Some pm) w = (Ok (x', labels), w'))
  /\ forall x' labels w',
       TextMasking_forward tm x (Some pm) w = (Ok (x', labels), w') ->
       Forall (fun t => 0 <= t < vocab_size tm) (elems x').
Proof.
  intros Hin Hmask Hnst. split; [now apply TextMasking_forward_total|].
  intros x' labels w' Hrun.
  destruct (shape_labels tm x pm w Hx Hpm Hshape x' labels w' Hrun)
    as (_ & _ & Hxs & Hxw).
  assert (numel2 x' = numel2 x) as Hn'
      by (symmetry; apply (same_shape2_numel x' x Hxs)).
  apply Forall_nth. intros k d Hk. rewrite Hxw, Hn' in Hk.
  rewrite (nth_indep _ d 0) by (rewrite Hxw, Hn'; exact Hk).
  destruct (nth_masked tm x pm w Hx Hpm Hshape x' labels w' k Hrun Hk)
    as (src & Hsrc & Hlen & ->).
  destruct (nth k (selected_2_of tm x pm w) false) eqn:E2.
  - pose proof (randint_returned_in_range _ _ _ _ _ _ Hsrc) as Hf.
    rewrite Forall_forall in Hf.
    assert (In (nth (rank (selected_2_of tm x pm w) k) src 0) src) as Hi
        by (apply nth_In; rewrite Hlen; now apply rank_lt).
    specialize (Hf _ Hi). lia.
  - destruct (nth k (selected_1_of tm x pm w) false); [exact Hmask|].
    rewrite Forall_forall in Hin. apply Hin, nth_In. rewrite Hx. exact Hk.
Qed.

(** X4.  Nothing is lost by masking: with token ids that are not negative, the
    tokens given are those returned, except where a label is set, and there
    they are the label. *)
Theorem masked_tokens_are_recovered_from_the_labels :
  Forall (fun t => 0 <= t) (elems x) ->
  (num_special_tokens tm < vocab_size tm ->
   exists x' labels w',
     TextMasking_forward tm x (Some pm) w = (Ok (x', labels), w'))
  /\ forall x' labels w',
       TextMasking_forward tm x (Some pm) w = (Ok (x', labels), w') ->
       forall k, (k < numel2 x)%nat ->
         nth k (elems x) 0
         = if nth k (elems labels) 0 =? ignore_index
           then nth k (elems x') 0
           else nth k (elems labels) 0.
Proof.
  intros Hpos. split; [now apply TextMasking_forward_total|].
  intros x' labels w' Hrun k Hk.
  rewrite (nth_labels tm x pm w Hx Hpm Hshape x' labels w' k Hrun Hk).
  destruct (nth k (selected_of tm x pm w) false) eqn:Hsel.
  - assert (0 <= nth k (elems x) 0) as H0.
    { rewrite Forall_forall in Hpos. apply Hpos, nth_In. rewrite Hx. exact Hk. }
    destruct (Z.eqb_spec (nth k (elems x) 0) ignore_index) as [E|_]; [|reflexivity].
    unfold ignore_index in E. lia.
  - rewrite Z.eqb_refl.
    destruct (nth_masked tm x pm w Hx Hpm Hshape x' labels w' k Hrun Hk)
      as (src & _ & _ & ->).
    rewrite (nth_sel2 tm x pm w Hx Hpm Hshape k Hk).
    rewrite (nth_sel1 tm x pm w Hx Hpm Hshape k Hk), Hsel. reflexivity.
Qed.

End MaskingEdges.

(* ================================================================== *)
(** ** The decoder's check, for any input *)

Section DecoderCheck.

Context {T : Torch}.

Lemma shape_eqb_false (d : list Z) (ls : Z * Z) :
  d <> [fst ls; snd ls] -> shape_eqb d ls = false.
Proof.
  intros Hne. unfold shape_eqb.
  destruct d as [|d1 [|d2 [|d3 d]]]; try reflexivity.
  destruct ((d1 =? fst ls) && (d2 =? snd ls)) eqn:E; [|reflexivity].
  apply andb_true_iff in E as [E1 E2]. apply Z.eqb_eq in E1, E2. congruence.
Qed.

Lemma PerceiverDecoder_forward_mismatch (training : bool) (oa : OutputAdapter)
    (ls : Z * Z) (ca : Module) (out : Param) (x : Tensor) (b : Z) (d : list Z)
    (w : World) :
  shape x = b :: d -> d <> [fst ls; snd ls] ->
  call training (PerceiverDecoder oa ls ca out) [Some x] w
  = (Raise (ValueError ("Latent shape " ++ tuple_repr d
                        ++ " different from required shape "
                        ++ tuple_repr [fst ls; snd ls])), w).
Proof.
  intros Hx Hne. cbn [call]. unfold PerceiverDecoder_forward.
  cbn [bind_input tensor_arg]. rewrite bind_ret_l, Hx.
  rewrite (shape_eqb_false d ls Hne). reflexivity.
Qed.

(** X5.  A decoder, however it was put together, rejects every input whose shape
    after the batch dimension is not its latent shape, of whatever rank, with
    the ValueError that renders both; it does so before the output query is
    repeated, the cross-attention layer is called or a draw is taken.  An
    input without dimensions fails at the unpacking of its shape. *)
Theorem decoder_rejects_before_it_runs (training : bool) (oa : OutputAdapter)
    (ls : Z * Z) (ca : Module) (out : Param) (x : Tensor) (w : World) :
  (shape x = [] ->
   call training (PerceiverDecoder oa ls ca out) [Some x] w
   = (Raise (ValueError "not enough values to unpack (expected at least 1, got 0)"), w))
  /\ (forall b d,
        shape x = b :: d -> d <> [fst ls; snd ls] ->
        call training (PerceiverDecoder oa ls ca out) [Some x] w
        = (Raise (ValueError ("Latent shape " ++ tuple_repr d
                              ++ " different from required shape "
                              ++ tuple_repr [fst ls; snd ls])), w)).
Proof.
  split.
  - intros Hx. cbn [call]. unfold PerceiverDecoder_forward.
    cbn [bind_input tensor_arg]. rewrite bind_ret_l, Hx. reflexivity.
  - intros b d Hx Hne. now apply (PerceiverDecoder_forward_mismatch _ _ _ _ _ _ b).
Qed.

End DecoderCheck.

(* ================================================================== *)
(** ** Self-attention blocks and the validation of hyper-parameters *)

Section Blocks.

Context {T : Torch} {TS : TorchSpec T}.

(** X6.  A self-attention block of [depth >= 1] is a stack of [depth] layers made
    of different parameter objects, and returns a tensor of the shape
    (b, t, c) of the tensor it is called on. *)
Theorem self_attention_block_keeps_shape (depth c h : Z) (p : Q)
    (w0 w1 : World) (m : Module) :
  self_attention_block depth c h p w0 = (Ok m, w1) ->
  0 < depth ->
  exists layers,
    m = Sequential layers
    /\ length layers = Z.to_nat depth
    /\ NoDup (pids m)
    /\ forall training x b t,
         shape x = [b; t; c] ->
         returns_shape (call training m [Some x]) [b; t; c].
Proof.
  intros H _.
  destruct (self_attention_block_ok depth c h p w0 w1 m H) as [Hof Hfresh].
  pose proof Hof as (layers & -> & Hlen & Hl).
  exists layers. split; [reflexivity|]. split; [exact Hlen|].
  split; [exact (fresh_NoDup w0 w1 _ Hfresh)|].
  intros training x b t Hx.
  now apply (call_self_attention_block training depth c h p).
Qed.

Lemma new_Dropout_range (p : Q) (w w' : World) (m : Module) :
  new_Dropout p w = (Ok m, w') -> (0 <= p /\ p <= 1)%Q.
Proof.
  unfold new_Dropout.
  destruct (Qltb p 0 || Qltb 1 p) eqn:E; [discriminate|]. intros _.
  apply orb_false_iff in E as [E1 E2]. unfold Qltb in *.
  apply negb_false_iff in E1, E2. apply Qle_bool_iff in E1, E2. auto.
Qed.

Lemma cross_attention_layer_valid (cq ckv h : Z) (p : Q) (w w' : World) (m : Module) :
  cross_attention_layer cq ckv h p w = (Ok m, w') ->
  0 < h /\ cq mod h = 0 /\ (0 <= p /\ p <= 1)%Q.
Proof.
  intros H.
  destruct (cross_attention_layer_ok cq ckv h p w w' m H)
    as [(qn & kvn & a & ff & _ & _ & _ & Ha & _) _].
  destruct Ha as (_ & _ & _ & _ & _ & Hh & Hm & _).
  split; [exact Hh|]. split; [exact Hm|].
  unfold cross_attention_layer in H.
  step H as ca w1 Hca. step H as r1 w2 Hr1.
  unfold new_Residual in Hr1. step Hr1 as d w3 Hd.
  exact (new_Dropout_range p w1 w3 d Hd).
Qed.

Lemma self_attention_block_valid (depth c h : Z) (p : Q) (w w' : World) (m : Module) :
  self_attention_block depth c h p w = (Ok m, w') ->
  0 < depth -> 0 < h /\ c mod h = 0.
Proof.
  intros H Hd.
  destruct (self_attention_block_ok depth c h p w w' m H)
    as [(layers & _ & Hlen & Hl) _].
  destruct layers as [|l rest]; [cbn in Hlen; lia|].
  apply Forall_inv in Hl. destruct Hl as (n & a & ff & _ & _ & Ha & _).
  destruct Ha as (_ & _ & _ & _ & _ & Hh & Hm & _). auto.
Qed.

(** X7.  Construction validates the hyper-parameters: an encoder, or a decoder,
    that was built has head counts that are not zero and divide the widths
    they attend with, and a dropout rate in [0, 1].  The heads of the
    self-attention layers are checked when there is such a layer. *)
Theorem built_models_have_valid_hyperparameters :
  (forall ia n c num_layers hc hs depth p w0 w1 enc,
      new_PerceiverEncoder ia (n, c) num_layers hc hs depth p w0 = (Ok enc, w1) ->
      hc <> 0 /\ c mod hc = 0 /\ (0 <= p /\ p <= 1)%Q
      /\ (0 < depth -> hs <> 0 /\ c mod hs = 0))
  /\ (forall oa n c h p w0 w1 dec k co,
        new_PerceiverDecoder oa (n, c) h p w0 = (Ok dec, w1) ->
        output_shape oa = [k; co] ->
        h <> 0 /\ co mod h = 0 /\ (0 <= p /\ p <= 1)%Q).
Proof.
  split.
  - intros ia n c num_layers hc hs depth p w0 w1 enc H.
    destruct (new_PerceiverEncoder_ok ia n c num_layers hc hs depth p w0 w1 enc H)
      as (l1 & lno & lat & v1 & v2 & _ & Hl1 & _).
    unfold create_perceiver_layer in Hl1.
    step Hl1 as ca u1 Hca. step Hl1 as sb u2 Hsb.
    destruct (cross_attention_layer_valid _ _ _ _ _ _ _ Hca) as (Hh & Hm & Hp).
    split; [lia|]. split; [exact Hm|]. split; [exact Hp|].
    intros Hd.
    destruct (self_attention_block_valid _ _ _ _ _ _ _ Hsb Hd) as [Hs Hsm].
    split; [lia | exact Hsm].
  - intros oa n c h p w0 w1 dec k co H Hos.
    unfold new_PerceiverDecoder in H. rewrite Hos in H. cbn [rev app snd] in H.
    step H as ca u1 Hca.
    destruct (cross_attention_layer_valid _ _ _ _ _ _ _ Hca) as (Hh & Hm & Hp).
    split; [lia|]. split; [exact Hm | exact Hp].
Qed.

End Blocks.

(* ================================================================== *)
(** ** Encoder and decoder together *)

Section Composition.

Context {T : Torch} {TS : TorchSpec T}.

Variable training : bool.

(** A built encoder returns a latent of its latent shape. *)
Lemma built_encoder_returns (ia : InputAdapter) (n c num_layers hc hs depth : Z)
    (p : Q) (w0 w1 : World) (enc : Module) (x : Tensor) (pad : Arg)
    (b len : Z) (rest : list Z) :
  new_PerceiverEncoder ia (n, c) num_layers hc hs depth p w0 = (Ok enc, w1) ->
  shape x = b :: rest ->
  returns_shape (input_adapter_forward ia x) [b; len; num_input_channels ia] ->
  pad_mask_ok b len pad ->
  returns_shape (call training enc [Some x; pad]) [b; n; c].
Proof.
  intros H Hx Hadapt Hpad.
  destruct (new_PerceiverEncoder_ok ia n c num_layers hc hs depth p w0 w1 enc H)
    as (l1 & lno & lat & v1 & v2 & -> & Hl1 & Hln & Hlat).
  apply create_perceiver_layer_ok in Hl1 as [Hl1 _].
  apply new_parameter_ok in Hlat as [Hlat _].
  assert (if 1 <? num_layers
          then exists ln, lno = Some ln
                 /\ perceiver_layer_of c (num_input_channels ia) hc hs depth p ln
          else True) as Hln'.
  { destruct (1 <? num_layers); [|exact I].
    destruct Hln as (ln & -> & Hln).
    apply create_perceiver_layer_ok in Hln as [Hln _]. eauto. }
  cbn [call]. unfold PerceiverEncoder_forward.
  eapply returns_bound; [reflexivity|]. cbv beta iota.
  apply (PerceiverEncoder_forward_shape training ia c hc hs depth num_layers p
           l1 lno lat x pad b n len rest); auto.
Qed.

(** A built decoder, on a latent of its latent shape, hands the output of
    its cross-attention layer, of shape (b, k, co), to the output adapter. *)
Lemma built_decoder_attends (oa : OutputAdapter) (n c h : Z) (p : Q)
    (w0 w1 : World) (dec : Module) (k co : Z) (x : Tensor) (b : Z) (w : World) :
  new_PerceiverDecoder oa (n, c) h p w0 = (Ok dec, w1) ->
  output_shape oa = [k; co] ->
  shape x = [b; n; c] ->
  exists ca out y w',
    dec = PerceiverDecoder oa (n, c) ca out
    /\ call training ca [Some (einops_repeat (pdata out) b); Some x] w = (Ok y, w')
    /\ shape y = [b; k; co]
    /\ call training dec [Some x] w = output_adapter_forward oa y w'.
Proof.
  intros H Hos Hx.
  destruct (new_PerceiverDecoder_ok oa n c h p w0 w1 dec k co Hos H)
    as (ca & out & -> & Hca & Hout).
  destruct (call_cross_attention_layer training co c h p ca
              (einops_repeat (pdata out) b) x [Some x] None b k n Hca eq_refl
              ltac:(rewrite einops_repeat_shape, Hout; reflexivity) Hx
              ltac:(intros m [=]) w) as (y & w' & Hy & Hs).
  exists ca, out, y, w'. split; [reflexivity|]. split; [exact Hy|].
  split; [exact Hs|].
  cbn [call]. unfold PerceiverDecoder_forward.
  cbn [bind_input tensor_arg]. rewrite bind_ret_l, Hx.
  assert (shape_eqb [n; c] (n, c) = true) as ->
      by (unfold shape_eqb; cbn [fst snd]; now rewrite !Z.eqb_refl).
  cbn [negb]. apply (bind_Ok _ _ _ _ _ Hy).
Qed.

(** X8.  [PerceiverIO] of an encoder built for the latent shape (n, c) and a
    decoder built for (n', c'): when the two shapes agree, a call is the
    output adapter applied to the decoder's cross-attention output, of shape
    (b, k, co), over the encoder's latent; when they differ, every call
    raises the ValueError that names (n, c) and (n', c'), after the encoder
    has run. *)
Theorem perceiver_io_needs_matching_latent_shapes
    (ia : InputAdapter) (n c num_layers hc hs depth : Z) (p : Q)
    (oa : OutputAdapter) (n' c' h : Z) (p' : Q) (k co : Z)
    (w0 w1 w2 w3 : World) (enc dec : Module)
    (x : Tensor) (pad : Arg) (b len : Z) (rest : list Z) :
  new_PerceiverEncoder ia (n, c) num_layers hc hs depth p w0 = (Ok enc, w1) ->
  new_PerceiverDecoder oa (n', c') h p' w2 = (Ok dec, w3) ->
  output_shape oa = [k; co] ->
  0 < depth ->
  shape x = b :: rest ->
  returns_shape (input_adapter_forward ia x) [b; len; num_input_channels ia] ->
  pad_mask_ok b len pad ->
  forall w,
    ((n, c) = (n', c') ->
     exists latent v1 ca out y v2,
       call training enc [Some x; pad] w = (Ok latent, v1)
       /\ shape latent = [b; n; c]
       /\ dec = PerceiverDecoder oa (n', c') ca out
       /\ call training ca [Some (einops_repeat (pdata out) b); Some latent] v1
          = (Ok y, v2)
       /\ shape y = [b; k; co]
       /\ call training (PerceiverIO enc dec) [Some x; pad] w
          = output_adapter_forward oa y v2)
    /\ ((n, c) <> (n', c') ->
        exists v1,
          call training (PerceiverIO enc dec) [Some x; pad] w
          = (Raise (ValueError ("Latent shape " ++ tuple_repr [n; c]
                                ++ " different from required shape "
                                ++ tuple_repr [n'; c'])), v1)).
Proof.
  intros Henc Hdec Hos _ Hx Hadapt Hpad w.
  destruct (built_encoder_returns ia n c num_layers hc hs depth p w0 w1 enc x pad
              b len rest Henc Hx Hadapt Hpad w) as (latent & v1 & Hlat & Hs).
  assert (forall r,
            call training dec [Some latent] v1 = r ->
            call training (PerceiverIO enc dec) [Some x; pad] w = r) as Hio.
  { intros r Hr. unfold PerceiverIO. cbn [call Sequential_forward].
    rewrite (bind_Ok _ _ _ _ _ Hlat), bind_ret_r. exact Hr. }
  split.
  - intros [= <- <-].
    destruct (built_decoder_attends oa n c h p' w2 w3 dec k co latent b v1
                Hdec Hos Hs) as (ca & out & y & v2 & Hd & Hy & Hsy & Hcall).
    exists latent, v1, ca, out, y, v2.
    repeat (split; [assumption|]). apply Hio, Hcall.
  - intros Hne. exists v1.
    destruct (new_PerceiverDecoder_ok oa n' c' h p' w2 w3 dec k co Hos Hdec)
      as (ca & out & -> & _).
    apply Hio.
    apply (PerceiverDecoder_forward_mismatch training oa (n', c') ca out latent b
             [n; c] v1 Hs).
    cbn [fst snd]. congruence.
Qed.

(** X9.  [PerceiverMLM.forward] with masking, on tokens and a padding mask of
    shape (B, L), with an encoder and a decoder built for the same latent
    shape: the call returns logits of shape (B, min(K, L), V), where (K, co)
    is the output shape of the output adapter and V the width of what it
    returns, and labels of shape (B, L). *)
Theorem mlm_returns_logits_and_labels
    (ia : InputAdapter) (n c num_layers hc hs depth : Z) (p : Q)
    (oa : OutputAdapter) (h : Z) (p' : Q) (k co v : Z)
    (w0 w1 w2 w3 : World) (enc dec : Module) (tm : TextMasking)
    (x : Tensor2 Z) (pm : Tensor2 bool) :
  new_PerceiverEncoder ia (n, c) num_layers hc hs depth p w0 = (Ok enc, w1) ->
  new_PerceiverDecoder oa (n, c) h p' w2 = (Ok dec, w3) ->
  output_shape oa = [k; co] ->
  0 < depth ->
  wf2 x -> wf2 pm -> same_shape2 x pm = true ->
  num_special_tokens tm < vocab_size tm ->
  (forall t : Tensor2 Z,
      same_shape2 t x = true ->
      returns_shape (input_adapter_forward ia (of_long t))
        [Z.of_nat (nrows x); Z.of_nat (ncols x); num_input_channels ia]) ->
  (forall t, shape t = [Z.of_nat (nrows x); k; co] ->
             returns_shape (output_adapter_forward oa t) [Z.of_nat (nrows x); k; v]) ->
  forall w,
  exists logits labels w',
    PerceiverMLM_forward training (mkPerceiverMLM enc dec tm) x (Some pm) true w
    = (Ok (logits, Some labels), w')
    /\ shape logits = [Z.of_nat (nrows x); Z.min k (Z.of_nat (ncols x)); v]
    /\ same_shape2 labels x = true /\ wf2 labels.
Proof.
  intros Henc Hdec Hos _ Hx Hpm Hshape Hvocab Hia Hoa w.
  destruct (TextMasking_forward_total tm x pm w Hshape Hvocab)
    as (xm & labels & u1 & Hmask).
  destruct (shape_labels tm x pm w Hx Hpm Hshape xm labels u1 Hmask)
    as (Hls & Hlw & Hxs & Hxw).
  assert (nrows xm = nrows x /\ ncols xm = ncols x) as [Hr Hc].
  { unfold same_shape2 in Hxs. apply andb_true_iff in Hxs as [H1 H2].
    apply Nat.eqb_eq in H1, H2. auto. }
  assert (nrows pm = nrows x /\ ncols pm = ncols x) as [Hrp Hcp].
  { unfold same_shape2 in Hshape. apply andb_true_iff in Hshape as [H1 H2].
    apply Nat.eqb_eq in H1, H2. auto. }
  destruct (built_encoder_returns ia n c num_layers hc hs depth p w0 w1 enc
              (of_long xm) (mask_arg (Some pm))
              (Z.of_nat (nrows x)) (Z.of_nat (ncols x)) [Z.of_nat (ncols x)]
              Henc
              ltac:(rewrite of_long_shape, Hr, Hc; reflexivity)
              (Hia xm Hxs)
              ltac:(intros m [= <-]; rewrite of_bool_shape, Hrp, Hcp; reflexivity)
              u1) as (latent & u2 & Hlat & Hsl).
  destruct (built_decoder_attends oa n c h p' w2 w3 dec k co latent
              (Z.of_nat (nrows x)) u2 Hdec Hos Hsl)
    as (ca & out & y & u3 & _ & _ & Hsy & Hcall).
  destruct (Hoa y Hsy u3) as (o & u4 & Ho & Hso).
  destruct (narrow_seq_shape o (Z.of_nat (ncols x)) _ _ _ Hso ltac:(lia))
    as (logits & Hlg & Hslg).
  exists logits, labels, u4.
  split; [|split; [exact Hslg | split; assumption]].
  unfold PerceiverMLM_forward. cbn [encoder decoder masking].
  rewrite bind_assoc, (bind_Ok _ _ _ _ _ Hmask), bind_ret_l.
  rewrite (bind_Ok _ _ _ _ _ Hlat).
  unfold bind, lift, ret. rewrite Hcall, Ho, Hlg. reflexivity.
Qed.

(** X10.  Inference with [PerceiverMLM]: without masking, and with dropout off,
    what a call returns (or raises) does not depend on the state of the
    random generator, so that calls on the same input agree. *)
Theorem mlm_inference_is_repeatable
    (ia : InputAdapter) (enc_latent_shape : Z * Z) (num_layers hc hs depth : Z)
    (p_enc : Q) (oa : OutputAdapter) (dec_latent_shape : Z * Z) (h : Z) (p_dec : Q)
    (w0 w1 w2 w3 : World) (enc dec : Module) (tm : TextMasking) :
  new_PerceiverEncoder ia enc_latent_shape num_layers hc hs depth p_enc w0
  = (Ok enc, w1) ->
  new_PerceiverDecoder oa dec_latent_shape h p_dec w2 = (Ok dec, w3) ->
  (forall x, det (input_adapter_forward ia x)) ->
  (forall x, det (output_adapter_forward oa x)) ->
  dropout_is_off training p_enc ->
  dropout_is_off training p_dec ->
  forall x pad_mask w w',
    fst (PerceiverMLM_forward training (mkPerceiverMLM enc dec tm) x pad_mask false w)
    = fst (PerceiverMLM_forward training (mkPerceiverMLM enc dec tm) x pad_mask false w').
Proof.
  intros Henc Hdec Hia Hoa Hpe Hpd x pad_mask.
  assert (deterministic_module training enc) as He
      by (eapply encoder_deterministic; eauto).
  assert (deterministic_module training dec) as Hd
      by (eapply decoder_deterministic; eauto).
  change (det (PerceiverMLM_forward training (mkPerceiverMLM enc dec tm) x pad_mask false)).
  unfold PerceiverMLM_forward. cbn [encoder decoder masking].
  apply det_bind; [apply det_ret|]. intros [xm xl].
  apply det_bind; [now apply call_det|]. intros latent.
  apply det_bind; [now apply call_det|]. intros out.
  apply det_bind; [apply det_lift|]. intros logits. apply det_ret.
Qed.

End Composition.

(* ================================================================== *)
(** ** The IMDB data module *)

Section LoadSplit.

Variable fs : FileSystem.

Lemma read_files_Ok (names : list string) (i : Z) : forall raw raw',
  read_files fs names i raw = Ok raw' <->
  exists texts,
    reads fs names texts
    /\ raw' = (fst raw ++ texts, snd raw ++ repeat i (length names)).
Proof.
  unfold reads.
  induction names as [|name rest IH]; intros raw raw'; cbn [read_files].
  - split.
    + intros [= <-]. exists []. split; [constructor|].
      cbn. rewrite !app_nil_r. now destruct raw.
    + intros (texts & Hr & ->). inversion Hr. cbn.
      rewrite !app_nil_r. now destruct raw.
  - destruct (read_text fs name) as [text|e] eqn:E.
    + rewrite IH. cbn [fst snd length repeat]. split.
      * intros (texts & Hr & ->). exists (text :: texts).
        split; [constructor; assumption|].
        rewrite <- !app_assoc. reflexivity.
      * intros (texts & Hr & ->).
        inversion Hr as [|? t ? ts H1 H2]; subst.
        rewrite E in H1. injection H1 as <-.
        exists ts. split; [assumption|].
        rewrite <- !app_assoc. reflexivity.
    + split; [discriminate|].
      intros (texts & Hr & _). inversion Hr; subst. congruence.
Qed.

(** When [load_split] returns, and what. *)
Lemma load_split_Ok (root split : string) (xs : list string) (ys : list Z) :
  load_split fs root split = Ok (xs, ys) <->
  str_in split ["train"%string; "test"%string] = true
  /\ reads fs (glob fs (path_pattern root split "neg")
               ++ glob fs (path_pattern root split "pos")) xs
  /\ ys = repeat 0 (length (glob fs (path_pattern root split "neg")))
          ++ repeat 1 (length (glob fs (path_pattern root split "pos"))).
Proof.
  unfold load_split.
  destruct (str_in split ["train"%string; "test"%string]); cbn [negb];
    [|split; [discriminate|intros [? _]; discriminate]].
  cbn [read_labels].
  set (negs := glob fs (path_pattern root split "neg")).
  set (poss := glob fs (path_pattern root split "pos")).
  split.
  - intros H.
    destruct (read_files fs negs 0 ([], [])) as [raw1|] eqn:E1; [|discriminate].
    destruct (read_files fs poss 1 raw1) as [raw2|] eqn:E2; [|discriminate].
    injection H as ->.
    apply read_files_Ok in E1 as (t1 & Hr1 & ->).
    apply read_files_Ok in E2 as (t2 & Hr2 & E2).
    cbn [fst snd app] in E2. injection E2 as -> ->.
    split; [reflexivity|]. split; [|reflexivity].
    apply Forall2_app; assumption.
  - intros (_ & Hr & ->).
    apply Forall2_app_inv_l in Hr as (t1 & t2 & Hr1 & Hr2 & ->).
    assert (read_files fs negs 0 ([], []) = Ok (t1, repeat 0 (length negs))) as ->
        by (apply read_files_Ok; exists t1; split; [exact Hr1|reflexivity]).
    assert (read_files fs poss 1 (t1, repeat 0 (length negs))
            = Ok (t1 ++ t2, repeat 0 (length negs) ++ repeat 1 (length poss))) as ->
        by (apply read_files_Ok; exists t2; split; [exact Hr2|reflexivity]).
    reflexivity.
Qed.

Lemma str_in_train_test (split : string) :
  str_in split ["train"%string; "test"%string] = true
  <-> split = "train"%string \/ split = "test"%string.
Proof.
  unfold str_in. cbn [existsb]. rewrite orb_false_r, orb_true_iff, !String.eqb_eq.
  reflexivity.
Qed.

(** X11.  [load_split] accepts the splits [train] and [test] and no other name.
    For these it returns exactly when every file that matches the pattern of
    the negative or of the positive reviews can be read: the texts are those
    of the negative files followed by those of the positive files, in the
    order [glob] lists them, and the labels are 0 for the former and 1 for the
    latter.  Any other split is a [ValueError] that names it. *)
Theorem load_split_reads_negatives_then_positives (root split : string) :
  (split = "train"%string \/ split = "test"%string ->
   forall xs ys,
     load_split fs root split = Ok (xs, ys) <->
     reads fs (glob fs (path_pattern root split "neg")
               ++ glob fs (path_pattern root split "pos")) xs
     /\ ys = repeat 0 (length (glob fs (path_pattern root split "neg")))
             ++ repeat 1 (length (glob fs (path_pattern root split "pos"))))
  /\ (split <> "train"%string -> split <> "test"%string ->
      load_split fs root split = Raise (ValueError ("invalid split: " ++ split))).
Proof.
  split.
  - intros Hs xs ys. rewrite load_split_Ok.
    apply str_in_train_test in Hs. tauto.
  - intros H1 H2. unfold load_split.
    destruct (str_in split ["train"%string; "test"%string]) eqn:E; [|reflexivity].
    apply str_in_train_test in E. tauto.
Qed.

Lemma reads_nth (names texts : list string) : reads fs names texts ->
  forall k, (k < length names)%nat ->
    read_text fs (nth k names EmptyString) = Ok (nth k texts EmptyString).
Proof.
  unfold reads. induction 1 as [|name text names texts H _ IH]; intros k Hk.
  - cbn in Hk. lia.
  - destruct k; [exact H|]. cbn [nth]. apply IH. cbn in Hk. lia.
Qed.

Lemma reads_length (names texts : list string) :
  reads fs names texts -> length texts = length names.
Proof. intros H. symmetry. exact (Forall2_length H). Qed.

Lemma list_getitem_in_range {A} (l : list A) (index : Z) :
  0 <= index < Z.of_nat (length l) ->
  exists a, list_getitem l index = Ok a /\ nth_error l (Z.to_nat index) = Some a.
Proof.
  intros H. unfold list_getitem.
  destruct (Z.ltb_spec index 0); [lia|].
  destruct (Z.leb_spec 0 index); [|lia].
  destruct (Z.ltb_spec index (Z.of_nat (length l))); [|lia].
  cbn [andb].
  destruct (nth_error l (Z.to_nat index)) as [a|] eqn:E; [eauto|].
  apply nth_error_None in E. lia.
Qed.

Lemma list_getitem_negative {A} (l : list A) (index : Z) :
  - Z.of_nat (length l) <= index < 0 ->
  list_getitem l index = list_getitem l (index + Z.of_nat (length l)).
Proof.
  intros H. unfold list_getitem.
  destruct (Z.ltb_spec index 0); [|lia].
  destruct (Z.ltb_spec (index + Z.of_nat (length l)) 0); [lia|].
  reflexivity.
Qed.

Lemma list_getitem_out_of_range {A} (l : list A) (index : Z) :
  index < - Z.of_nat (length l) \/ Z.of_nat (length l) <= index ->
  list_getitem l index = Raise (IndexError "list index out of range").
Proof.
  intros H. unfold list_getitem.
  destruct (Z.ltb_spec index 0).
  - destruct (Z.leb_spec 0 (index + Z.of_nat (length l))); [|reflexivity].
    destruct (Z.ltb_spec (index + Z.of_nat (length l)) (Z.of_nat (length l)));
      [lia|reflexivity].
  - destruct (Z.leb_spec 0 index); [|lia].
    destruct (Z.ltb_spec index (Z.of_nat (length l))); [lia|reflexivity].
Qed.

Lemma nth_labels_of_split (a b : nat) (k : nat) : (k < a + b)%nat ->
  nth k (repeat 0 a ++ repeat 1 b) 0 = if (k <? a)%nat then 0 else 1.
Proof.
  intros Hk. destruct (Nat.ltb_spec k a).
  - rewrite app_nth1 by (rewrite repeat_length; assumption).
    apply nth_repeat_lt. assumption.
  - rewrite app_nth2 by (rewrite repeat_length; assumption).
    rewrite repeat_length. apply nth_repeat_lt. lia.
Qed.

(** X12.  A data set that could be built holds one item per file, the negative
    reviews first.  The item at an index within the length is the label and
    the text of the file at that position: label 0 for a negative and 1 for a
    positive review.  A negative index counts from the end, and an index
    outside of both ranges is an [IndexError]. *)
Theorem dataset_items_pair_label_and_text (root split : string) (ds : IMDBDataset) :
  new_IMDBDataset fs root split = Ok ds ->
  IMDBDataset_len ds
  = Z.of_nat (length (glob fs (path_pattern root split "neg"))
              + length (glob fs (path_pattern root split "pos")))
  /\ forall index,
       (0 <= index < IMDBDataset_len ds ->
        exists text,
          IMDBDataset_getitem ds index
          = Ok (if index <? Z.of_nat (length (glob fs (path_pattern root split "neg")))
                then 0 else 1, text)
          /\ read_text fs
               (nth (Z.to_nat index)
                  (glob fs (path_pattern root split "neg")
                   ++ glob fs (path_pattern root split "pos")) EmptyString)
             = Ok text)
       /\ (- IMDBDataset_len ds <= index < 0 ->
           IMDBDataset_getitem ds index
           = IMDBDataset_getitem ds (index + IMDBDataset_len ds))
       /\ (index < - IMDBDataset_len ds \/ IMDBDataset_len ds <= index ->
           IMDBDataset_getitem ds index
           = Raise (IndexError "list index out of range")).
Proof.
  unfold new_IMDBDataset.
  destruct (load_split fs root split) as [[xs ys]|] eqn:E; [|discriminate].
  intros [= <-]. apply load_split_Ok in E as (_ & Hr & Hys).
  set (negs := glob fs (path_pattern root split "neg")) in *.
  set (poss := glob fs (path_pattern root split "pos")) in *.
  pose proof (reads_length _ _ Hr) as Hlx. rewrite length_app in Hlx.
  assert (length ys = length xs) as Hly
      by (rewrite Hys, length_app, !repeat_length; lia).
  unfold IMDBDataset_len, IMDBDataset_getitem. cbn [raw_x raw_y].
  split; [now rewrite Hlx|].
  intros index. split; [|split].
  - intros Hi.
    destruct (list_getitem_in_range ys index) as (y & -> & Hy); [lia|].
    destruct (list_getitem_in_range xs index) as (x & -> & Hx); [lia|].
    exists x. split.
    + f_equal. f_equal.
      apply (nth_error_nth _ _ 0) in Hy. rewrite <- Hy, Hys.
      rewrite nth_labels_of_split by lia.
      destruct (Nat.ltb_spec (Z.to_nat index) (length negs));
        destruct (Z.ltb_spec index (Z.of_nat (length negs))); (reflexivity || lia).
    + apply (nth_error_nth _ _ EmptyString) in Hx. rewrite <- Hx.
      apply reads_nth; [exact Hr|]. rewrite length_app. lia.
  - intros Hi. rewrite <- Hly.
    rewrite (list_getitem_negative ys index) by lia.
    rewrite Hly.
    rewrite (list_getitem_negative xs index) by lia.
    reflexivity.
  - intros Hi. rewrite (list_getitem_out_of_range ys index) by lia. reflexivity.
Qed.

End LoadSplit.

Section Collate.

Variables (PAD_TOKEN : string) (tok : Tokenizer) (max_seq_len : Z) (c : Collator).
Hypothesis Htok : TokenizerSpec tok.
Hypothesis Hc : new_Collator PAD_TOKEN tok max_seq_len = Ok c.

Lemma collator_settings :
  token_to_id tok PAD_TOKEN = Some (pad_id c)
  /\ forall xs, encode_batch (tokenizer c) xs
                = encode_batch_with tok (Some (pad_id c, PAD_TOKEN)) (Some max_seq_len) xs.
Proof.
  unfold new_Collator in Hc.
  destruct (token_to_id tok PAD_TOKEN) as [id|]; [|discriminate].
  injection Hc as <-. split; reflexivity.
Qed.

Lemma length_concat_uniform {A} (rows : list (list A)) (n : nat) :
  Forall (fun r => length r = n) rows -> length (concat rows) = (length rows * n)%nat.
Proof.
  induction 1 as [|r rows Hr _ IH]; [reflexivity|].
  cbn [concat length]. rewrite length_app, IH, Hr. reflexivity.
Qed.

Lemma tensor_of_rows_padded (rows : list (list Z)) :
  rows <> [] -> padded_rows rows ->
  exists ids,
    tensor_of_rows rows = Ok ids
    /\ wf2 ids /\ nrows ids = length rows /\ elems ids = concat rows
    /\ Forall (fun r => length r = ncols ids) rows.
Proof.
  intros Hne Hp. destruct rows as [|r rows]; [contradiction|].
  assert (Forall (fun r' => length r' = length r) (r :: rows)) as Hall.
  { apply Forall_forall. intros r' Hin. apply Hp; [exact Hin|now left]. }
  unfold tensor_of_rows.
  assert (forallb (fun r' => Nat.eqb (length r') (length r)) (r :: rows) = true) as ->.
  { apply forallb_forall. intros r' Hin. apply Nat.eqb_eq.
    rewrite Forall_forall in Hall. now apply Hall. }
  eexists. split; [reflexivity|]. cbn [nrows ncols elems].
  split; [|split; [reflexivity|split; [reflexivity|exact Hall]]].
  unfold wf2, numel2. cbn [nrows ncols elems].
  now apply length_concat_uniform.
Qed.

Lemma collate_returns (batch : list (Z * string)) :
  batch <> [] ->
  exists ids,
    collate c batch = Ok (map fst batch, ids, eq_scalar ids (pad_id c))
    /\ wf2 ids /\ nrows ids = length batch
    /\ (0 <= max_seq_len -> Z.of_nat (ncols ids) <= max_seq_len).
Proof.
  intros Hne.
  destruct collator_settings as [_ Henc].
  destruct (Htok (Some (pad_id c, PAD_TOKEN)) (Some max_seq_len) (map snd batch))
    as (Hlen & Hpad & Htrunc).
  rewrite length_map in Hlen.
  destruct (tensor_of_rows_padded
              (encode_batch_with tok (Some (pad_id c, PAD_TOKEN)) (Some max_seq_len)
                 (map snd batch)))
    as (ids & Hids & Hwf & Hrows & _ & Hcols).
  { intros E. rewrite E in Hlen. destruct batch; [contradiction|discriminate]. }
  { apply Hpad. discriminate. }
  exists ids. unfold collate. destruct batch as [|item batch]; [contradiction|].
  rewrite Henc, Hids. split; [reflexivity|]. split; [exact Hwf|].
  split; [congruence|].
  intros Hm. specialize (Htrunc _ eq_refl Hm).
  destruct (encode_batch_with tok _ _ _) as [|r rows]; [discriminate|].
  inversion Htrunc; subst. inversion Hcols; subst. lia.
Qed.

Lemma collate_of_texts (batch batch' : list (Z * string)) :
  map snd batch' = map snd batch ->
  collate c batch'
  = match collate c batch with
    | Ok (_, ids, pm) => Ok (map fst batch', ids, pm)
    | Raise e => Raise e
    end.
Proof.
  intros H. unfold collate.
  destruct batch as [|item batch], batch' as [|item' batch']; try discriminate;
    [reflexivity|].
  rewrite H. destruct (tensor_of_rows _); reflexivity.
Qed.

Lemma wf2_eq_scalar (ids : Tensor2 Z) (v : Z) :
  wf2 ids -> wf2 (eq_scalar ids v) /\ same_shape2 ids (eq_scalar ids v) = true.
Proof.
  unfold wf2, same_shape2, numel2, eq_scalar. cbn [nrows ncols elems].
  intros H. rewrite length_map, !Nat.eqb_refl. auto.
Qed.

Lemma nth_eq_scalar (ids : Tensor2 Z) (v : Z) (k : nat) :
  wf2 ids -> (k < numel2 ids)%nat ->
  nth k (elems (eq_scalar ids v)) false = (nth k (elems ids) 0 =? v).
Proof.
  intros Hwf Hk. unfold eq_scalar. cbn [elems].
  apply (nth_map_in (fun z => z =? v) false 0). rewrite Hwf. exact Hk.
Qed.

(** X13.  A collator of a tokenizer that pads and truncates turns a batch that is
    not empty into the labels in their order, one row of token ids per text,
    of one length that does not exceed [max_seq_len], and a padding mask of
    the same shape that is set exactly where the token is the padding id.
    [encode] gives the same ids and mask for the texts alone. *)
Theorem collate_marks_exactly_the_padding (batch : list (Z * string)) :
  batch <> [] ->
  exists ids pm,
    collate c batch = Ok (map fst batch, ids, pm)
    /\ Collator_encode c (map snd batch) = Ok (ids, pm)
    /\ token_to_id tok PAD_TOKEN = Some (pad_id c)
    /\ wf2 ids /\ wf2 pm /\ same_shape2 ids pm = true
    /\ nrows ids = length batch
    /\ (0 <= max_seq_len -> Z.of_nat (ncols ids) <= max_seq_len)
    /\ forall k, (k < numel2 ids)%nat ->
         (nth k (elems pm) false = true <-> nth k (elems ids) 0 = pad_id c).
Proof.
  intros Hne.
  destruct (collate_returns batch Hne) as (ids & Hrun & Hwf & Hrows & Hcols).
  exists ids, (eq_scalar ids (pad_id c)).
  destruct (wf2_eq_scalar ids (pad_id c) Hwf) as [Hwfm Hsame].
  split; [exact Hrun|]. split.
  { unfold Collator_encode.
    rewrite (collate_of_texts batch) by (rewrite map_map; cbn [snd]; apply map_id).
    rewrite Hrun. reflexivity. }
  split; [exact (proj1 collator_settings)|].
  split; [exact Hwf|]. split; [exact Hwfm|]. split; [exact Hsame|].
  split; [exact Hrows|]. split; [exact Hcols|].
  intros k Hk. rewrite (nth_eq_scalar ids (pad_id c) k Hwf Hk). apply Z.eqb_eq.
Qed.

End Collate.

Section CollateMasking.

Context {T : Torch} {TS : TorchSpec T}.

Variables (PAD_TOKEN : string) (tok : Tokenizer) (max_seq_len : Z) (c : Collator).
Hypothesis Htok : TokenizerSpec tok.
Hypothesis Hc : new_Collator PAD_TOKEN tok max_seq_len = Ok c.

(** X14.  What [collate] returns fits [TextMasking.forward]: the call returns
    whenever ordinary tokens exist, and a position that holds the padding id
    is not selected, has the ignore sentinel as label and keeps the padding
    id. *)
Theorem collated_padding_is_never_masked (tm : TextMasking)
    (batch : list (Z * string)) (ys : list Z) (ids : Tensor2 Z) (pm : Tensor2 bool)
    (w : World) :
  collate c batch = Ok (ys, ids, pm) ->
  (num_special_tokens tm < vocab_size tm ->
   exists x' labels w',
     TextMasking_forward tm ids (Some pm) w = (Ok (x', labels), w'))
  /\ forall x' labels w',
       TextMasking_forward tm ids (Some pm) w = (Ok (x', labels), w') ->
       forall k, (k < numel2 ids)%nat -> nth k (elems ids) 0 = pad_id c ->
         nth k (selected_of tm ids pm w) false = false
         /\ nth k (elems labels) 0 = ignore_index
         /\ nth k (elems x') 0 = pad_id c.
Proof.
  intros Hrun.
  assert (batch <> []) as Hne by (intros ->; discriminate Hrun).
  destruct (collate_returns PAD_TOKEN tok max_seq_len c Htok Hc batch Hne)
    as (ids' & Hrun' & Hwf & _).
  rewrite Hrun in Hrun'. injection Hrun' as _ <- ->.
  destruct (wf2_eq_scalar ids (pad_id c) Hwf) as [Hwfm Hsame].
  split; [now apply TextMasking_forward_total|].
  intros x' labels w' Hfw k Hk Hpad.
  assert (nth k (selected_of tm ids (eq_scalar ids (pad_id c)) w) false = false) as Hsel.
  { rewrite (nth_sel tm ids _ w Hwf Hwfm Hsame k Hk).
    rewrite (nth_is_special tm ids _ Hwf Hwfm Hsame k Hk).
    rewrite (nth_eq_scalar ids (pad_id c) k Hwf Hk), Hpad, Z.eqb_refl.
    rewrite orb_true_r. apply andb_false_r. }
  split; [exact Hsel|]. split.
  - rewrite (nth_labels tm ids _ w Hwf Hwfm Hsame x' labels w' k Hfw Hk), Hsel.
    reflexivity.
  - destruct (nth_masked tm ids _ w Hwf Hwfm Hsame x' labels w' k Hfw Hk)
      as (src & _ & _ & ->).
    rewrite (nth_sel2 tm ids _ w Hwf Hwfm Hsame k Hk).
    rewrite (nth_sel1 tm ids _ w Hwf Hwfm Hsame k Hk), Hsel. exact Hpad.
Qed.

End CollateMasking.

(** *** The tokenizer file *)

Lemma string_length_append (s t : string) :
  String.length (s ++ t) = (String.length s + String.length t)%nat.
Proof. induction s as [|a s IH]; cbn; [reflexivity|now rewrite IH]. Qed.

Lemma string_app_inv_head (s a b : string) : (s ++ a = s ++ b)%string -> a = b.
Proof.
  induction s as [|ch s IH]; cbn; [auto|]. intros [= H]. auto.
Qed.

Lemma string_app_inv_tail (t : string) : forall a b : string,
  (a ++ t = b ++ t)%string -> a = b.
Proof.
  induction a as [|x a IH]; intros [|y b] H; cbn in H.
  - reflexivity.
  - exfalso. apply (f_equal String.length) in H. cbn in H.
    rewrite string_length_append in H. lia.
  - exfalso. apply (f_equal String.length) in H. cbn in H.
    rewrite string_length_append in H. lia.
  - injection H as -> H. f_equal. now apply IH.
Qed.

Lemma str_of_int_inj (a b : Z) : str_of_int a = str_of_int b -> a = b.
Proof.
  unfold str_of_int. intros H.
  assert (forall z, NilZero.int_of_string (NilZero.string_of_int (Z.to_int z))
                    = Some (Z.to_int z)) as Hisi.
  { intros z. apply NilZero.isi; destruct z; cbn; try discriminate;
      intros [= E]; exact (DecimalPos.Unsigned.to_uint_nonnil _ E). }
  apply (f_equal NilZero.int_of_string) in H. rewrite !Hisi in H.
  injection H as H. now apply DecimalZ.to_int_inj.
Qed.

(** X15.  Two vocabulary sizes never share a tokenizer file under one root. *)
Theorem tokenizer_files_differ_by_vocabulary_size (root : string) (v1 v2 : Z) :
  v1 <> v2 -> tokenizer_path root v1 <> tokenizer_path root v2.
Proof.
  intros Hne H. apply Hne. unfold tokenizer_path, path_join in H.
  cbn [fold_left] in H. unfold path_join2 in H. cbn [starts_with_sep append] in H.
  cbn in H.
  assert (("imdb-tokenizer-" ++ str_of_int v1 ++ ".json")%string
          = ("imdb-tokenizer-" ++ str_of_int v2 ++ ".json")%string) as E.
  { destruct root as [|ch root]; [exact H|].
    destruct (ends_with_sep (String ch root)).
    - exact (string_app_inv_head _ _ _ H).
    - apply string_app_inv_head in H. exact (string_app_inv_head "/" _ _ H). }
  apply string_app_inv_head in E. apply string_app_inv_tail in E.
  now apply str_of_int_inj.
Qed.

(* ================================================================== *)
(** ** The further properties on concrete models and data *)

Example masking_never_run :
  fst (TextMasking_forward MaskingExample.never Example.tokens (Some Example.pad)
         Example.world)
  = Ok (Example.tokens, mkTensor2 2 4 (repeat ignore_index 8)).
Proof. vm_compute. reflexivity. Qed.

Example masking_always_run :
  fst (TextMasking_forward MaskingExample.always Example.tokens (Some Example.pad)
         Example.world)
  = Ok (mkTensor2 2 4 [2; 1; 2; 8; 9; 2; 2; 0],
        mkTensor2 2 4 [5; -100; 7; 8; 9; 4; 11; -100]).
Proof. vm_compute. reflexivity. Qed.

Lemma masking_with_probability_zero_changes_nothing_witness :
  (wf2 Example.tokens /\ wf2 Example.pad
   /\ same_shape2 Example.tokens Example.pad = true
   /\ (mask_p MaskingExample.never <= 0)%Q)
  /\ ((num_special_tokens MaskingExample.never < vocab_size MaskingExample.never ->
       exists x' labels w',
         TextMasking_forward MaskingExample.never Example.tokens (Some Example.pad)
           Example.world = (Ok (x', labels), w'))
      /\ forall x' labels w',
           TextMasking_forward MaskingExample.never Example.tokens (Some Example.pad)
             Example.world = (Ok (x', labels), w') ->
           x' = Example.tokens
           /\ elems labels = repeat ignore_index (numel2 Example.tokens)).
Proof.
  destruct example_tokens_ok as (Hx & Hpm & Hs & _).
  assert (mask_p MaskingExample.never <= 0)%Q as Hp by (cbn; apply Qle_refl).
  split; [auto|].
  exact (masking_with_probability_zero_changes_nothing (TS := RefFacts.spec)
           MaskingExample.never Example.tokens Example.pad Example.world Hx Hpm Hs Hp).
Defined.

Lemma masking_with_probability_one_selects_all_input_witness :
  (wf2 Example.tokens /\ wf2 Example.pad
   /\ same_shape2 Example.tokens Example.pad = true
   /\ (1 <= mask_p MaskingExample.always)%Q)
  /\ ((num_special_tokens MaskingExample.always < vocab_size MaskingExample.always ->
       exists x' labels w',
         TextMasking_forward MaskingExample.always Example.tokens (Some Example.pad)
           Example.world = (Ok (x', labels), w'))
      /\ forall k, (k < numel2 Example.tokens)%nat ->
           nth k (selected_of MaskingExample.always Example.tokens Example.pad
                    Example.world) false
           = negb ((nth k (elems Example.tokens) 0 =? unk_token_id MaskingExample.always)
                   || nth k (elems Example.pad) false)
           /\ forall x' labels w',
                TextMasking_forward MaskingExample.always Example.tokens
                  (Some Example.pad) Example.world = (Ok (x', labels), w') ->
                nth k (elems labels) 0
                = if (nth k (elems Example.tokens) 0 =? unk_token_id MaskingExample.always)
                     || nth k (elems Example.pad) false
                  then ignore_index
                  else nth k (elems Example.tokens) 0).
Proof.
  destruct example_tokens_ok as (Hx & Hpm & Hs & _).
  assert (1 <= mask_p MaskingExample.always)%Q as Hp by (cbn; apply Qle_refl).
  split; [auto|].
  exact (masking_with_probability_one_selects_all_input (TS := RefFacts.spec)
           MaskingExample.always Example.tokens Example.pad Example.world Hx Hpm Hs Hp).
Defined.

Lemma example_tokens_in_vocabulary :
  Forall (fun t => 0 <= t < vocab_size Example.tm) (elems Example.tokens).
Proof. cbn. repeat constructor; lia. Qed.

Lemma masking_stays_in_the_vocabulary_witness :
  (wf2 Example.tokens /\ wf2 Example.pad
   /\ same_shape2 Example.tokens Example.pad = true
   /\ Forall (fun t => 0 <= t < vocab_size Example.tm) (elems Example.tokens)
   /\ 0 <= mask_token_id Example.tm < vocab_size Example.tm
   /\ 0 <= num_special_tokens Example.tm)
  /\ ((num_special_tokens Example.tm < vocab_size Example.tm ->
       exists x' labels w',
         TextMasking_forward Example.tm Example.tokens (Some Example.pad) Example.world
         = (Ok (x', labels), w'))
      /\ forall x' labels w',
           TextMasking_forward Example.tm Example.tokens (Some Example.pad) Example.world
           = (Ok (x', labels), w') ->
           Forall (fun t => 0 <= t < vocab_size Example.tm) (elems x')).
Proof.
  destruct example_tokens_ok as (Hx & Hpm & Hs & _).
  pose proof example_tokens_in_vocabulary as Hin.
  assert (0 <= mask_token_id Example.tm < vocab_size Example.tm) as Hm by (cbn; lia).
  assert (0 <= num_special_tokens Example.tm) as Hn by (cbn; lia).
  split; [auto 7|].
  exact (masking_stays_in_the_vocabulary (TS := RefFacts.spec)
           Example.tm Example.tokens Example.pad Example.world Hx Hpm Hs Hin Hm Hn).
Defined.

Lemma example_block_built :
  block_run = (Ok (Example.built block_run), snd block_run).
Proof. apply example_built. vm_compute. reflexivity. Qed.

Lemma self_attention_block_keeps_shape_witness :
  (block_run = (Ok (Example.built block_run), snd block_run) /\ 0 < 2)
  /\ exists layers,
       Example.built block_run = Sequential layers
       /\ length layers = Z.to_nat 2
       /\ NoDup (pids (Example.built block_run))
       /\ forall training x b t,
            shape x = [b; t; 2] ->
            returns_shape (call training (Example.built block_run) [Some x]) [b; t; 2].
Proof.
  pose proof example_block_built as H.
  split; [split; [exact H|lia]|].
  exact (self_attention_block_keeps_shape (TS := RefFacts.spec) 2 2 1 0
           Example.world _ _ H ltac:(lia)).
Defined.

Lemma built_models_have_valid_hyperparameters_witness :
  TorchSpec RefTorch
  /\ (forall ia n c num_layers hc hs depth p w0 w1 enc,
        new_PerceiverEncoder (T := RefTorch) ia (n, c) num_layers hc hs depth p w0
        = (Ok enc, w1) ->
        hc <> 0 /\ c mod hc = 0 /\ (0 <= p /\ p <= 1)%Q
        /\ (0 < depth -> hs <> 0 /\ c mod hs = 0))
  /\ (forall oa n c h p w0 w1 dec k co,
        new_PerceiverDecoder (T := RefTorch) oa (n, c) h p w0 = (Ok dec, w1) ->
        output_shape oa = [k; co] ->
        h <> 0 /\ co mod h = 0 /\ (0 <= p /\ p <= 1)%Q).
Proof.
  split; [exact RefFacts.spec|].
  exact (built_models_have_valid_hyperparameters (TS := RefFacts.spec)).
Defined.

Example invalid_head_count_is_rejected :
  Example.returned (new_PerceiverEncoder Example.input_adapter (2, 3) 1 2 1 1 0
                      Example.world) = false
  /\ Example.returned (new_PerceiverEncoder Example.input_adapter (2, 2) 1 1 1 1 (3 # 2)
                         Example.world) = false.
Proof. split; vm_compute; reflexivity. Qed.

Lemma example_io_decoder_2_2_built :
  decoder_run (2, 2) 0
  = (Ok (Example.built (decoder_run (2, 2) 0)), snd (decoder_run (2, 2) 0)).
Proof. apply example_built. vm_compute. reflexivity. Qed.

Lemma example_input_adapter_returns :
  returns_shape (input_adapter_forward Example.input_adapter Example.x)
    [1; 2; num_input_channels Example.input_adapter].
Proof. intros w. exists Example.x, w. split; reflexivity. Qed.

Lemma perceiver_io_needs_matching_latent_shapes_witness :
  (encoder_run Example.input_adapter 3 0
   = (Ok (Example.built (encoder_run Example.input_adapter 3 0)),
      snd (encoder_run Example.input_adapter 3 0))
   /\ decoder_run (2, 2) 0
      = (Ok (Example.built (decoder_run (2, 2) 0)), snd (decoder_run (2, 2) 0))
   /\ output_shape Example.output_adapter = [3; 2]
   /\ 0 < 1
   /\ @shape RefTorch Example.x = [1; 2; 1]
   /\ returns_shape (input_adapter_forward Example.input_adapter Example.x)
        [1; 2; num_input_channels Example.input_adapter]
   /\ pad_mask_ok (T := RefTorch) 1 2 None)
  /\ forall w,
       ((2, 2) = (2, 2) ->
        exists latent v1 ca out y v2,
          call true (Example.built (encoder_run Example.input_adapter 3 0))
            [Some Example.x; None] w = (Ok latent, v1)
          /\ shape latent = [1; 2; 2]
          /\ Example.built (decoder_run (2, 2) 0)
             = PerceiverDecoder Example.output_adapter (2, 2) ca out
          /\ call true ca [Some (einops_repeat (pdata out) 1); Some latent] v1
             = (Ok y, v2)
          /\ shape y = [1; 3; 2]
          /\ call true (PerceiverIO (Example.built (encoder_run Example.input_adapter 3 0))
                          (Example.built (decoder_run (2, 2) 0)))
               [Some Example.x; None] w
             = output_adapter_forward Example.output_adapter y v2)
       /\ ((2, 2) <> (2, 2) ->
           exists v1,
             call true (PerceiverIO (Example.built (encoder_run Example.input_adapter 3 0))
                          (Example.built (decoder_run (2, 2) 0)))
               [Some Example.x; None] w
             = (Raise (ValueError ("Latent shape " ++ tuple_repr [2; 2]
                                   ++ " different from required shape "
                                   ++ tuple_repr [2; 2])), v1)).
Proof.
  pose proof example_encoder_built as He.
  pose proof example_io_decoder_2_2_built as Hd.
  pose proof example_input_adapter_returns as Hadapt.
  assert (pad_mask_ok (T := RefTorch) 1 2 None) as Hpad by (intros m [=]).
  split; [split; [exact He|]; split; [exact Hd|]; split; [reflexivity|];
          split; [lia|]; split; [reflexivity|]; split; [exact Hadapt | exact Hpad]|].
  exact (perceiver_io_needs_matching_latent_shapes (TS := RefFacts.spec) true
           Example.input_adapter 2 2 3 1 1 1 0 Example.output_adapter 2 2 1 0 3 2
           Example.world _ Example.world _ _ _ Example.x None 1 2 [2; 1]
           He Hd eq_refl ltac:(lia) eq_refl Hadapt Hpad).
Defined.

Example perceiver_io_with_other_latent_shape :
  fst (call true (PerceiverIO (Example.built (encoder_run Example.input_adapter 3 0))
                    (Example.built (decoder_run (4, 8) 0))) [Some Example.x]
         Example.world)
  = Raise (ValueError "Latent shape (2, 2) different from required shape (4, 8)").
Proof. vm_compute. reflexivity. Qed.

Lemma example_token_encoder_built :
  encoder_run Example.token_adapter 2 0
  = (Ok (Example.built (encoder_run Example.token_adapter 2 0)),
     snd (encoder_run Example.token_adapter 2 0)).
Proof. apply example_built. vm_compute. reflexivity. Qed.

Lemma example_token_adapter_returns (t : Tensor2 Z) :
  same_shape2 t Example.tokens = true ->
  returns_shape (input_adapter_forward Example.token_adapter (@of_long RefTorch t))
    [Z.of_nat (nrows Example.tokens); Z.of_nat (ncols Example.tokens);
     num_input_channels Example.token_adapter].
Proof.
  intros Ht w. eexists. exists w. split; [reflexivity|].
  unfold same_shape2 in Ht. apply andb_true_iff in Ht as [H1 H2].
  apply Nat.eqb_eq in H1, H2. cbn. rewrite H1, H2. reflexivity.
Qed.

Lemma example_output_adapter_keeps_shape (s : list Z) (t : Ref.tensor) :
  @shape RefTorch t = s ->
  returns_shape (output_adapter_forward Example.output_adapter t) s.
Proof. intros Ht w. exists t, w. split; [reflexivity|exact Ht]. Qed.

Lemma mlm_returns_logits_and_labels_witness :
  (encoder_run Example.token_adapter 2 0
   = (Ok (Example.built (encoder_run Example.token_adapter 2 0)),
      snd (encoder_run Example.token_adapter 2 0))
   /\ decoder_run (2, 2) 0
      = (Ok (Example.built (decoder_run (2, 2) 0)), snd (decoder_run (2, 2) 0))
   /\ output_shape Example.output_adapter = [3; 2]
   /\ 0 < 1
   /\ wf2 Example.tokens /\ wf2 Example.pad
   /\ same_shape2 Example.tokens Example.pad = true
   /\ num_special_tokens Example.tm < vocab_size Example.tm
   /\ (forall t : Tensor2 Z,
         same_shape2 t Example.tokens = true ->
         returns_shape (input_adapter_forward Example.token_adapter (@of_long RefTorch t))
           [Z.of_nat (nrows Example.tokens); Z.of_nat (ncols Example.tokens);
            num_input_channels Example.token_adapter])
   /\ (forall t : Ref.tensor,
         @shape RefTorch t = [Z.of_nat (nrows Example.tokens); 3; 2] ->
         returns_shape (output_adapter_forward Example.output_adapter t)
           [Z.of_nat (nrows Example.tokens); 3; 2]))
  /\ forall w,
     exists logits labels w',
       PerceiverMLM_forward true
         (mkPerceiverMLM (Example.built (encoder_run Example.token_adapter 2 0))
            (Example.built (decoder_run (2, 2) 0)) Example.tm)
         Example.tokens (Some Example.pad) true w
       = (Ok (logits, Some labels), w')
       /\ shape logits
          = [Z.of_nat (nrows Example.tokens);
             Z.min 3 (Z.of_nat (ncols Example.tokens)); 2]
       /\ same_shape2 labels Example.tokens = true /\ wf2 labels.
Proof.
  pose proof example_token_encoder_built as He.
  pose proof example_io_decoder_2_2_built as Hd.
  destruct example_tokens_ok as (Hx & Hpm & Hs & _).
  assert (num_special_tokens Example.tm < vocab_size Example.tm) as Hv by (cbn; lia).
  pose proof example_token_adapter_returns as Hia.
  pose proof (example_output_adapter_keeps_shape
                [Z.of_nat (nrows Example.tokens); 3; 2]) as Hoa.
  split; [split; [exact He|]; split; [exact Hd|]; split; [reflexivity|];
          split; [lia|]; split; [exact Hx|]; split; [exact Hpm|];
          split; [exact Hs|]; split; [exact Hv|]; split; [exact Hia | exact Hoa]|].
  exact (mlm_returns_logits_and_labels (TS := RefFacts.spec) true
           Example.token_adapter 2 2 2 1 1 1 0 Example.output_adapter 1 0 3 2 2
           Example.world _ Example.world _ _ _ Example.tm Example.tokens Example.pad
           He Hd eq_refl ltac:(lia) Hx Hpm Hs Hv Hia Hoa).
Defined.

(** *** The data module *)

Example load_split_of_the_example :
  load_split DataExample.fs ".cache" "train"
  = Ok (["bad"; "good film"; "fine"]%string, [0; 1; 1])
  /\ load_split DataExample.fs ".cache" "test" = Ok ([], [])
  /\ load_split DataExample.fs ".cache" "valid"
     = Raise (ValueError "invalid split: valid").
Proof. repeat split; reflexivity. Qed.

Lemma dataset_items_pair_label_and_text_witness :
  new_IMDBDataset DataExample.fs ".cache" "train" = Ok DataExample.dataset
  /\ IMDBDataset_len DataExample.dataset
     = Z.of_nat (length (glob DataExample.fs (path_pattern ".cache" "train" "neg"))
                 + length (glob DataExample.fs (path_pattern ".cache" "train" "pos")))
  /\ forall index,
       (0 <= index < IMDBDataset_len DataExample.dataset ->
        exists text,
          IMDBDataset_getitem DataExample.dataset index
          = Ok (if index <? Z.of_nat (length (glob DataExample.fs
                                                (path_pattern ".cache" "train" "neg")))
                then 0 else 1, text)
          /\ read_text DataExample.fs
               (nth (Z.to_nat index)
                  (glob DataExample.fs (path_pattern ".cache" "train" "neg")
                   ++ glob DataExample.fs (path_pattern ".cache" "train" "pos"))
                  EmptyString)
             = Ok text)
       /\ (- IMDBDataset_len DataExample.dataset <= index < 0 ->
           IMDBDataset_getitem DataExample.dataset index
           = IMDBDataset_getitem DataExample.dataset
               (index + IMDBDataset_len DataExample.dataset))
       /\ (index < - IMDBDataset_len DataExample.dataset
           \/ IMDBDataset_len DataExample.dataset <= index ->
           IMDBDataset_getitem DataExample.dataset index
           = Raise (IndexError "list index out of range")).
Proof.
  assert (new_IMDBDataset DataExample.fs ".cache" "train" = Ok DataExample.dataset)
    as H by reflexivity.
  split; [exact H|].
  exact (dataset_items_pair_label_and_text DataExample.fs ".cache" "train"
           DataExample.dataset H).
Defined.

Example dataset_items_of_the_example :
  IMDBDataset_getitem DataExample.dataset 1 = Ok (1, "good film"%string)
  /\ IMDBDataset_getitem DataExample.dataset (-3) = Ok (0, "bad"%string)
  /\ IMDBDataset_getitem DataExample.dataset 3
     = Raise (IndexError "list index out of range").
Proof. repeat split; reflexivity. Qed.

Lemma example_list_max (l : list nat) (k : nat) : In k l -> (k <= list_max l)%nat.
Proof.
  intros Hin.
  assert (Forall (fun k => k <= list_max l)%nat l) as H
      by (apply list_max_le; lia).
  rewrite Forall_forall in H. now apply H.
Qed.

Lemma example_tokenizer_ok : TokenizerSpec DataExample.tok.
Proof.
  intros pad trunc xs. cbn [encode_batch_with DataExample.tok].
  set (rows := map (fun s => DataExample.truncate trunc (DataExample.ids_of s)) xs).
  assert (forall id r, In r rows ->
            length (r ++ repeat id (list_max (map (@length Z) rows) - length r))
            = list_max (map (@length Z) rows)) as Hpadded.
  { intros id r Hin. rewrite length_app, repeat_length.
    pose proof (example_list_max (map (@length Z) rows) (length r)
                  (in_map _ _ _ Hin)). lia. }
  split; [|split].
  - unfold DataExample.pad_rows. destruct pad as [[id s]|];
      unfold rows; rewrite ?length_map; reflexivity.
  - intros Hpad. destruct pad as [[id s]|]; [|contradiction].
    unfold DataExample.pad_rows. intros r1 r2 H1 H2.
    apply in_map_iff in H1 as (a1 & <- & Ha1).
    apply in_map_iff in H2 as (a2 & <- & Ha2).
    rewrite !Hpadded by assumption. reflexivity.
  - intros m -> Hm.
    assert (Forall (fun k => k <= Z.to_nat m)%nat (map (@length Z) rows)) as Hle.
    { apply Forall_forall. intros k Hk. unfold rows in Hk.
      rewrite map_map in Hk. apply in_map_iff in Hk as (s & <- & _).
      cbn [DataExample.truncate]. rewrite length_firstn. lia. }
    unfold DataExample.pad_rows. destruct pad as [[id s]|].
    + apply Forall_forall. intros r Hr.
      apply in_map_iff in Hr as (a & <- & Ha). rewrite Hpadded by assumption.
      apply list_max_le in Hle. lia.
    + apply Forall_forall. intros r Hr.
      rewrite Forall_forall in Hle. specialize (Hle _ (in_map _ _ _ Hr)). lia.
Qed.

Lemma collate_marks_exactly_the_padding_witness :
  (TokenizerSpec DataExample.tok
   /\ new_Collator "[PAD]" DataExample.tok 6 = Ok DataExample.collator
   /\ DataExample.batch <> [])
  /\ exists ids pm,
       collate DataExample.collator DataExample.batch
       = Ok (map fst DataExample.batch, ids, pm)
       /\ Collator_encode DataExample.collator (map snd DataExample.batch) = Ok (ids, pm)
       /\ token_to_id DataExample.tok "[PAD]" = Some (pad_id DataExample.collator)
       /\ wf2 ids /\ wf2 pm /\ same_shape2 ids pm = true
       /\ nrows ids = length DataExample.batch
       /\ (0 <= 6 -> Z.of_nat (ncols ids) <= 6)
       /\ forall k, (k < numel2 ids)%nat ->
            (nth k (elems pm) false = true
             <-> nth k (elems ids) 0 = pad_id DataExample.collator).
Proof.
  pose proof example_tokenizer_ok as Htok.
  assert (new_Collator "[PAD]" DataExample.tok 6 = Ok DataExample.collator) as Hc
      by reflexivity.
  assert (DataExample.batch <> []) as Hne by discriminate.
  split; [split; [exact Htok|]; split; [exact Hc | exact Hne]|].
  exact (collate_marks_exactly_the_padding "[PAD]" DataExample.tok 6
           DataExample.collator Htok Hc DataExample.batch Hne).
Defined.

Example collate_of_the_example :
  collate DataExample.collator DataExample.batch
  = Ok ([0; 1; 1], DataExample.ids, DataExample.pad_mask)
  /\ Collator_encode DataExample.collator ["bad"; "good film"; "fine"]%string
     = Ok (DataExample.ids, DataExample.pad_mask)
  /\ collate DataExample.collator []
     = Raise (ValueError "not enough values to unpack (expected 2, got 0)").
Proof. repeat split; reflexivity. Qed.

Lemma collated_padding_is_never_masked_witness :
  (TokenizerSpec DataExample.tok
   /\ new_Collator "[PAD]" DataExample.tok 6 = Ok DataExample.collator
   /\ collate DataExample.collator DataExample.batch
      = Ok ([0; 1; 1], DataExample.ids, DataExample.pad_mask))
  /\ ((num_special_tokens Example.tm < vocab_size Example.tm ->
       exists x' labels w',
         TextMasking_forward Example.tm DataExample.ids (Some DataExample.pad_mask)
           Example.world = (Ok (x', labels), w'))
      /\ forall x' labels w',
           TextMasking_forward Example.tm DataExample.ids (Some DataExample.pad_mask)
             Example.world = (Ok (x', labels), w') ->
           forall k, (k < numel2 DataExample.ids)%nat ->
             nth k (elems DataExample.ids) 0 = pad_id DataExample.collator ->
             nth k (selected_of Example.tm DataExample.ids DataExample.pad_mask
                      Example.world) false = false
             /\ nth k (elems labels) 0 = ignore_index
             /\ nth k (elems x') 0 = pad_id DataExample.collator).
Proof.
  pose proof example_tokenizer_ok as Htok.
  assert (new_Collator "[PAD]" DataExample.tok 6 = Ok DataExample.collator) as Hc
      by reflexivity.
  assert (collate DataExample.collator DataExample.batch
          = Ok ([0; 1; 1], DataExample.ids, DataExample.pad_mask)) as Hrun
      by reflexivity.
  split; [split; [exact Htok|]; split; [exact Hc | exact Hrun]|].
  exact (collated_padding_is_never_masked (TS := RefFacts.spec) "[PAD]"
           DataExample.tok 6 DataExample.collator Htok Hc Example.tm
           DataExample.batch [0; 1; 1] DataExample.ids DataExample.pad_mask
           Example.world Hrun).
Defined.

Example collated_batch_masked :
  fst (TextMasking_forward Example.tm DataExample.ids (Some DataExample.pad_mask)
         Example.world)
  = Ok (mkTensor2 3 6 [2; 10; 4; 0; 0; 0; 7; 6; 6; 4; 2; 6; 6; 9; 2; 5; 0; 0],
        mkTensor2 3 6 [11; -100; -100; -100; -100; -100; -100; -100; -100; -100;
                       8; -100; -100; 9; 5; -100; -100; -100]).
Proof. vm_compute. reflexivity. Qed.

Lemma tokenizer_files_differ_by_vocabulary_size_witness :
  10003 <> 262
  /\ tokenizer_path ".cache" 10003 <> tokenizer_path ".cache" 262.
Proof.
  assert (10003 <> 262) as H by lia.
  split; [exact H|].
  exact (tokenizer_files_differ_by_vocabulary_size ".cache" 10003 262 H).
Defined.

Example tokenizer_path_of_the_default :
  tokenizer_path ".cache" 10003 = ".cache/imdb-tokenizer-10003.json"%string.
Proof. reflexivity. Qed.

Lemma masked_tokens_are_recovered_from_the_labels_witness :
  (wf2 Example.tokens /\ wf2 Example.pad
   /\ same_shape2 Example.tokens Example.pad = true
   /\ Forall (fun t => 0 <= t) (elems Example.tokens))
  /\ ((num_special_tokens Example.tm < vocab_size Example.tm ->
       exists x' labels w',
         TextMasking_forward Example.tm Example.tokens (Some Example.pad) Example.world
         = (Ok (x', labels), w'))
      /\ forall x' labels w',
           TextMasking_forward Example.tm Example.tokens (Some Example.pad) Example.world
           = (Ok (x', labels), w') ->
           forall k, (k < numel2 Example.tokens)%nat ->
             nth k (elems Example.tokens) 0
             = if nth k (elems labels) 0 =? ignore_index
               then nth k (elems x') 0
               else nth k (elems labels) 0).
Proof.
  split; [exact example_tokens_ok|].
  destruct example_tokens_ok as (Hx & Hpm & Hs & Hpos).
  exact (masked_tokens_are_recovered_from_the_labels (TS := RefFacts.spec)
           Example.tm Example.tokens Example.pad Example.world Hx Hpm Hs Hpos).
Defined.

Lemma example_token_adapter_deterministic :
  forall x, det (input_adapter_forward Example.token_adapter x).
Proof. intros x w1 w2. reflexivity. Qed.

Lemma mlm_inference_is_repeatable_witness :
  (encoder_run Example.token_adapter 2 0
   = (Ok (Example.built (encoder_run Example.token_adapter 2 0)),
      snd (encoder_run Example.token_adapter 2 0))
   /\ decoder_run (2, 2) 0
      = (Ok (Example.built (decoder_run (2, 2) 0)), snd (decoder_run (2, 2) 0))
   /\ (forall x, det (input_adapter_forward Example.token_adapter x))
   /\ (forall x, det (output_adapter_forward Example.output_adapter x))
   /\ dropout_is_off false 0)
  /\ forall x pad_mask w w',
       fst (PerceiverMLM_forward false
              (mkPerceiverMLM (Example.built (encoder_run Example.token_adapter 2 0))
                 (Example.built (decoder_run (2, 2) 0)) Example.tm)
              x pad_mask false w)
       = fst (PerceiverMLM_forward false
                (mkPerceiverMLM (Example.built (encoder_run Example.token_adapter 2 0))
                   (Example.built (decoder_run (2, 2) 0)) Example.tm)
                x pad_mask false w').
Proof.
  pose proof example_token_encoder_built as He.
  pose proof example_io_decoder_2_2_built as Hd.
  pose proof example_token_adapter_deterministic as Hia.
  destruct example_adapters_deterministic as [_ Hoa].
  assert (dropout_is_off false 0) as Hoff by (left; reflexivity).
  split; [split; [exact He|]; split; [exact Hd|]; split; [exact Hia|];
          split; [exact Hoa | exact Hoff]|].
  exact (mlm_inference_is_repeatable (TS := RefFacts.spec) false
           Example.token_adapter (2, 2) 2 1 1 1 0 Example.output_adapter (2, 2) 1 0
           Example.world _ Example.world _ _ _ Example.tm He Hd Hia Hoa Hoff Hoff).
Defined.
